(** * Feed assembly and view hydration: a shallow embedding

    The development follows two source files of the repository:

    - [packages/pds/src/app-view/services/feed/index.ts]: the batch loaders
      ([getActorInfos], [getPostInfos], [getFeedGeneratorInfos]), the embed
      resolver ([nestedRecordUris], [nestedRecordViews], [embedsForPosts]),
      [getPostViews], [hydrateFeed], [truncateUtf8] and
      [getRecordEmbedView] (modules [Utf8] and [FeedService]); and, from
      the indexer of posts that follows in the same file, the events of an
      insertion and of a deletion and [deleteFn] (module [PostPlugin]);
    - [packages/bsky/src/api/app/bsky/feed/getFeed.ts]: the four pipeline
      stages [skeleton], [hydration], [noBlocksOrMutes], [presentation] and
      the upstream call [skeletonFromFeedGen] (module [GetFeed]).

    Identifiers (dids, at-uris, header names) are [string]s; a JavaScript
    string whose encoding matters (a display name) is a list of UTF-16 code
    units; bytes, code units and code points are [Z]. JavaScript objects used
    as dictionaries are [gmap string _]. An asynchronous function of the
    service returns its result together with the list of the queries and
    calls it made; the database is a record of tables, each a list of rows.
    What the two files import from files that are not at hand (views,
    sibling services, the upstream client) is a method of a class
    ([GetFeed.Ctx], [FeedService.Services]).

    The definitions come first, then small instances ([Demo],
    [GeneratorDemo], [PluginDemo]) and the properties ([Utf8Facts],
    [GetFeedFacts], [FeedServiceFacts], [DemoFacts]; [HandlerFacts],
    [LoaderFacts], [HydrationFacts], [TruncationFacts], [PostPluginFacts],
    [Scenarios]). *)

From Stdlib Require Import ZArith List Lia Bool Ascii String.
From stdpp Require Import base option list gmap strings.

#[local] Set Warnings "-register-all".

(* ================================================================== *)
(** * UTF-8 and UTF-16: what [TextEncoder] and [TextDecoder] compute    *)
(* ================================================================== *)

Module Utf8.
Local Open Scope Z_scope.

(** A JavaScript string: a sequence of UTF-16 code units. *)
Definition jsstring := list Z.

Definition is_code_unit (u : Z) : bool := (0 <=? u) && (u <? 0x10000).
Definition wf_jsstring (s : jsstring) : Prop := forallb is_code_unit s = true.

(** A Unicode scalar value: a code point that is not a surrogate. *)
Definition is_scalar (c : Z) : Prop :=
  0 <= c < 0x110000 /\ ~ (0xD800 <= c <= 0xDFFF).

Definition REPLACEMENT : Z := 0xFFFD.
Definition BOM : Z := 0xFEFF.

Definition is_high_surrogate (u : Z) : bool := (0xD800 <=? u) && (u <=? 0xDBFF).
Definition is_low_surrogate (u : Z) : bool := (0xDC00 <=? u) && (u <=? 0xDFFF).

(** Conversion of a string to scalar values, as [TextEncoder.encode] does on
    its argument (a USVString): a surrogate pair is one code point, a lone
    surrogate becomes U+FFFD. *)
Fixpoint to_scalars (s : jsstring) : list Z :=
  match s with
  | [] => []
  | u :: rest =>
      if is_high_surrogate u then
        match rest with
        | v :: rest' =>
            if is_low_surrogate v
            then (0x10000 + (u - 0xD800) * 0x400 + (v - 0xDC00)) :: to_scalars rest'
            else REPLACEMENT :: to_scalars rest
        | [] => [REPLACEMENT]
        end
      else if is_low_surrogate u then REPLACEMENT :: to_scalars rest
      else u :: to_scalars rest
  end.

(** The code units of a sequence of code points (the string a decoder
    returns). *)
Definition units_of (c : Z) : list Z :=
  if c <? 0x10000 then [c]
  else [0xD800 + Z.shiftr (c - 0x10000) 10; 0xDC00 + Z.land (c - 0x10000) 0x3FF].

Definition from_scalars (cps : list Z) : jsstring := flat_map units_of cps.

(** The UTF-8 encoder: one code point to one, two, three or four bytes. *)
Definition encode_cp (c : Z) : list Z :=
  if c <=? 0x7F then [c]
  else if c <=? 0x7FF then
    [Z.shiftr c 6 + 0xC0; Z.lor 0x80 (Z.land c 0x3F)]
  else if c <=? 0xFFFF then
    [Z.shiftr c 12 + 0xE0;
     Z.lor 0x80 (Z.land (Z.shiftr c 6) 0x3F);
     Z.lor 0x80 (Z.land c 0x3F)]
  else
    [Z.shiftr c 18 + 0xF0;
     Z.lor 0x80 (Z.land (Z.shiftr c 12) 0x3F);
     Z.lor 0x80 (Z.land (Z.shiftr c 6) 0x3F);
     Z.lor 0x80 (Z.land c 0x3F)].

Definition utf8_encode (cps : list Z) : list Z := flat_map encode_cp cps.

(** [new TextEncoder().encode(str)] *)
Definition TextEncoder_encode (s : jsstring) : list Z :=
  utf8_encode (to_scalars s).

(** The UTF-8 decoder with replacement ([fatal: false]): its state is the
    code point being assembled, the continuation bytes seen and needed, and
    the bounds the next continuation byte must lie in. *)
Record DecState := mkDec {
  code_point : Z;
  bytes_seen : Z;
  bytes_needed : Z;
  lower_boundary : Z;
  upper_boundary : Z
}.

Definition dec_init : DecState := mkDec 0 0 0 0x80 0xBF.

(** A byte read when no continuation byte is awaited. *)
Definition lead (b : Z) : DecState * list Z :=
  if (0x00 <=? b) && (b <=? 0x7F) then (dec_init, [b])
  else if (0xC2 <=? b) && (b <=? 0xDF) then
    (mkDec (Z.land b 0x1F) 0 1 0x80 0xBF, [])
  else if (0xE0 <=? b) && (b <=? 0xEF) then
    (mkDec (Z.land b 0xF) 0 2
       (if b =? 0xE0 then 0xA0 else 0x80)
       (if b =? 0xED then 0x9F else 0xBF), [])
  else if (0xF0 <=? b) && (b <=? 0xF4) then
    (mkDec (Z.land b 0x7) 0 3
       (if b =? 0xF0 then 0x90 else 0x80)
       (if b =? 0xF4 then 0x8F else 0xBF), [])
  else (dec_init, [REPLACEMENT]).

(** One byte: a byte out of bounds while a sequence is open ends that
    sequence with U+FFFD and is read again as a lead byte. *)
Definition handle (st : DecState) (b : Z) : DecState * list Z :=
  if bytes_needed st =? 0 then lead b
  else if negb ((lower_boundary st <=? b) && (b <=? upper_boundary st)) then
    let '(st', out) := lead b in (st', REPLACEMENT :: out)
  else
    let cp := Z.lor (Z.shiftl (code_point st) 6) (Z.land b 0x3F) in
    let seen := bytes_seen st + 1 in
    if seen =? bytes_needed st then (dec_init, [cp])
    else (mkDec cp seen (bytes_needed st) 0x80 0xBF, []).

(** The whole input; at its end an open sequence yields one U+FFFD. *)
Fixpoint run (st : DecState) (bytes : list Z) : list Z :=
  match bytes with
  | [] => if bytes_needed st =? 0 then [] else [REPLACEMENT]
  | b :: rest => let '(st', out) := handle st b in out ++ run st' rest
  end.

Definition utf8_decode (bytes : list Z) : list Z := run dec_init bytes.

(** A decoder created without [ignoreBOM] drops a leading U+FEFF. *)
Definition strip_bom (cps : list Z) : list Z :=
  match cps with
  | c :: rest => if c =? BOM then rest else cps
  | [] => []
  end.

(** [new TextDecoder('utf-8', { fatal: false }).decode(bytes)] *)
Definition TextDecoder_decode (bytes : list Z) : jsstring :=
  from_scalars (strip_bom (utf8_decode bytes)).

(** [s.replace(/\uFFFD$/, '')]: the pattern matches one code unit U+FFFD at
    the end of the string. *)
Definition replace_trailing_FFFD (s : jsstring) : jsstring :=
  match last s with
  | Some u => if u =? REPLACEMENT then removelast s else s
  | None => s
  end.

(** [truncateUtf8(str, length)]; [None] is [null] or [undefined]. *)
Definition truncateUtf8 (str : option jsstring) (length : nat) : option jsstring :=
  match str with
  | None => None
  | Some [] => Some []
  | Some s =>
      let utf8 := TextEncoder_encode s in
      if (length <? List.length utf8)%nat then
        let truncated := firstn length utf8 in
        Some (replace_trailing_FFFD (TextDecoder_decode truncated))
      else Some s
  end.

(** [x || undefined] on a string: the empty string is falsy. *)
Definition or_undefined (x : option jsstring) : option jsstring :=
  match x with
  | Some [] => None
  | _ => x
  end.

(** ** Well-formed byte sequences *)

(** The byte sequences the encoder produces, by length: the lead byte
    carries [a], the continuation bytes carry six bits each. *)
Inductive encoded : Z -> list Z -> Prop :=
  | enc1 c : 0 <= c <= 0x7F -> encoded c [c]
  | enc2 a r : 2 <= a < 32 -> 0 <= r < 64 ->
      encoded (a * 64 + r) [a + 192; 128 + r]
  | enc3 a b r : 0 <= a < 16 -> 0 <= b < 64 -> 0 <= r < 64 ->
      (a = 0 -> 32 <= b) -> (a = 13 -> b < 32) ->
      encoded ((a * 64 + b) * 64 + r) [a + 224; 128 + b; 128 + r]
  | enc4 a b d r : 0 <= a <= 4 -> 0 <= b < 64 -> 0 <= d < 64 -> 0 <= r < 64 ->
      (a = 0 -> 16 <= b) -> (a = 4 -> b < 16) ->
      encoded (((a * 64 + b) * 64 + d) * 64 + r)
        [a + 240; 128 + b; 128 + d; 128 + r].

(** A cut of an encoding at [n] bytes: whole code points, then possibly a
    proper, non-empty part of the next one. *)
Inductive cut_tail : list Z -> list Z -> Prop :=
  | cut_clean Q : cut_tail Q []
  | cut_split c Q k :
      (0 < k < length (encode_cp c))%nat ->
      cut_tail (c :: Q) (firstn k (encode_cp c)).

End Utf8.

(* ================================================================== *)
(** * The feed handler: [packages/bsky/src/api/app/bsky/feed/getFeed.ts] *)
(* ================================================================== *)

Module GetFeed.

(** ** Data *)

(** A JSON value: what an upstream response carries besides the fields this
    code reads. *)
Inductive Json :=
  | JNull
  | JBool (b : bool)
  | JNum (n : Z)
  | JStr (s : string)
  | JArr (l : list Json)
  | JObj (fields : list (string * Json)).

(** One entry of the upstream skeleton: [item.post], [item.reason] and
    [item.feedContext]. *)
Inductive SkeletonReason :=
  | ReasonRepost (repost : string)
  | ReasonOther (type : string).

Record SkeletonFeedPost := {
  sfp_post : string;
  sfp_reason : option SkeletonReason;
  sfp_feedContext : option string
}.

(** [AlgoResponseItem]: [{ post: { uri }, repost?: { uri }, feedContext? }]. *)
Record AlgoResponseItem := {
  post_uri : string;
  repost_uri : option string;
  feedContext : option string
}.

(** [AlgoResponse]: the object [{ ...skele, resHeaders, feedItems }]; the two
    named properties shadow equally named keys of [skele]. *)
Record AlgoResponse := {
  feedItems : list AlgoResponseItem;
  algo_resHeaders : option (gmap string string);
  algo_skele : gmap string Json
}.

Record ServerTimer := { timer_name : string; timer_ms : Z }.

(** The state the four stages share ([type Skeleton]). *)
Record Skeleton := {
  items : list AlgoResponseItem;
  passthrough : gmap string Json;
  resHeaders : option (gmap string string);
  cursor : option Json;
  timerSkele : ServerTimer;
  timerHydr : ServerTimer
}.

(** [QueryParams]; [limit] has passed the schema's bounds. *)
Record QueryParams := {
  feed : string;
  limit : nat;
  param_cursor : option string
}.

(** [IncomingHttpHeaders]: a header has one value or several. *)
Inductive HeaderValue :=
  | HSingle (v : string)
  | HMulti (vs : list string).

Abbreviation IncomingHttpHeaders := (gmap string HeaderValue).

(** The outbound [getFeedSkeleton] call: the endpoint of the agent, the
    query and the headers. *)
Record OutboundCall := {
  call_service : string;
  call_feed : string;
  call_limit : nat;
  call_cursor : option string;
  call_headers : gmap string HeaderValue
}.

(** [ResponseType] of the XRPC client. *)
Inductive ResponseType :=
  | Unknown | InvalidResponse | Success | InvalidRequest | AuthRequired
  | Forbidden | XRPCNotSupported | PayloadTooLarge | RateLimitExceeded
  | InternalServerError | MethodNotImplemented | UpstreamFailure
  | NotEnoughResources | UpstreamTimeout.

(** What the outbound call throws, by class: [UnknownFeedError] (a subclass
    of [XRPCError]), any other [XRPCError], anything else. *)
Inductive UpstreamError :=
  | UnknownFeedError (status : ResponseType) (message : string)
  | XRPCError (status : ResponseType) (error : option string) (message : string)
  | OtherError (description : string).

Record UpstreamResponse := {
  data_feed : list SkeletonFeedPost;
  data_rest : gmap string Json;
  res_headers : gmap string string
}.

Inductive DataplaneError :=
  | DpNotFound
  | DpOther (description : string).

(** What the handler throws. *)
Inductive ThrownError :=
  | InvalidRequestError (message : string) (customErrorName : option string)
  | UpstreamFailureError (message : string) (customErrorName : option string)
  | RethrownUpstream (err : UpstreamError)
  | RethrownDataplane (err : DataplaneError).

Definition Result (A : Type) : Type := ThrownError + A.

(** [bam]: the result of [views.feedItemBlocksAndMutes]. *)
Record BlocksAndMutes := {
  authorBlocked : bool;
  authorMuted : bool;
  originatorBlocked : bool;
  originatorMuted : bool;
  ancestorAuthorBlocked : bool
}.

(** A property of the response body. *)
Inductive BodyValue (FeedViewPost : Type) :=
  | BFeed (feed : list (FeedViewPost * option string))
  | BJson (j : Json).
Arguments BFeed {FeedViewPost} feed.
Arguments BJson {FeedViewPost} j.

Record Output (FeedViewPost : Type) := {
  out_headers : gmap string string;
  out_body : gmap string (BodyValue FeedViewPost)
}.
Arguments out_headers {FeedViewPost} o.
Arguments out_body {FeedViewPost} o.

(** ** Objects and the helpers of [@atproto/common] *)

(** [obj[k] = v] where [v] may be [undefined]: a property set to
    [undefined] reads like an absent one. *)
Definition obj_set {V : Type} (k : string) (v : option V) (o : gmap string V)
  : gmap string V :=
  match v with
  | Some x => <[k := x]> o
  | None => delete k o
  end.

(** Modelled from the spec: [noUndefinedVals] of [@atproto/common], which is
    not among the sources; it removes the keys whose value is [undefined]
    from an object literal. *)
Definition noUndefinedVals {V : Type} (literal : list (string * option V))
  : gmap string V :=
  fold_left (fun o kv => obj_set kv.1 kv.2 o) literal ∅.

(** Modelled from the spec: [mapDefined] of [@atproto/common], which is not
    among the sources; it maps and leaves out the [undefined] results. *)
Definition mapDefined {A B : Type} (l : list A) (f : A -> option B) : list B :=
  omap f l.

(** ** The collaborators of the handler ([ctx]) *)

Class Ctx (HydrationState FeedViewPost Identity : Type) := {
  (** [(await ctx.hydrator.feed.getFeedGens([feed], true)).get(feed)?.record.did] *)
  feedGenDid : string -> option string;
  getIdentityByDid : string -> DataplaneError + Identity;
  (** [getServiceEndpoint(unpackIdentityServices(identity.services),
       { id: 'bsky_fg', type: 'BskyFeedGenerator' })] *)
  feedGenEndpoint : Identity -> option string;
  (** [agent.api.app.bsky.feed.getFeedSkeleton] *)
  getFeedSkeleton : OutboundCall -> UpstreamError + UpstreamResponse;
  hydrateFeedItems : list AlgoResponseItem -> HydrationState;
  feedItemBlocksAndMutes : AlgoResponseItem -> HydrationState -> BlocksAndMutes;
  feedViewPost : AlgoResponseItem -> HydrationState -> option FeedViewPost;
  serverTimingHeader : list ServerTimer -> string
}.

Section Handler.
Context {HydrationState FeedViewPost Identity : Type}.
Context `{ctx : Ctx HydrationState FeedViewPost Identity}.

(** ** [skeletonFromFeedGen] *)

(** The headers of the outbound call. *)
Definition forwardedHeaders (headers : IncomingHttpHeaders)
  : gmap string HeaderValue :=
  noUndefinedVals
    [ ("authorization", headers !! "authorization");
      ("accept-language", headers !! "accept-language");
      ("x-bsky-topics",
        match headers !! "x-bsky-topics" with
        | Some (HMulti vs) => Some (HSingle (String.concat "," vs))
        | other => other
        end) ].

(** The names of the headers that may be forwarded. *)
Definition allow_list : list string :=
  ["authorization"; "accept-language"; "x-bsky-topics"].

Definition outboundCall (fgEndpoint : string) (params : QueryParams)
    (headers : IncomingHttpHeaders) : OutboundCall :=
  {| call_service := fgEndpoint;
     call_feed := feed params;
     call_limit := limit params;
     call_cursor := param_cursor params;
     call_headers := forwardedHeaders headers |}.

(** The [catch] block around the outbound call. *)
Definition mapUpstreamError (err : UpstreamError) : ThrownError :=
  match err with
  | UnknownFeedError _ message =>
      InvalidRequestError message (Some "UnknownFeed")
  | XRPCError Unknown _ _ =>
      UpstreamFailureError "feed unavailable" None
  | XRPCError InvalidResponse _ _ =>
      UpstreamFailureError "feed provided an invalid response"
        (Some "InvalidFeedResponse")
  | _ => RethrownUpstream err
  end.

Definition feedItemOf (item : SkeletonFeedPost) : AlgoResponseItem :=
  {| post_uri := sfp_post item;
     repost_uri :=
       match sfp_reason item with
       | Some (ReasonRepost uri) => Some uri
       | _ => None
       end;
     feedContext := sfp_feedContext item |}.

(** Up to the outbound call: the endpoint of the feed generator. *)
Definition resolveEndpoint (params : QueryParams) : Result string :=
  match feedGenDid (feed params) with
  | None | Some "" => inl (InvalidRequestError "could not find feed" None)
  | Some feedDid =>
      match getIdentityByDid feedDid with
      | inl DpNotFound =>
          inl (InvalidRequestError
                 ("could not resolve identity: " ++ feedDid) None)
      | inl err => inl (RethrownDataplane err)
      | inr ident =>
          match feedGenEndpoint ident with
          | None | Some "" =>
              inl (InvalidRequestError
                     ("invalid feed generator service details in did document: "
                        ++ feedDid) None)
          | Some fgEndpoint => inr fgEndpoint
          end
      end
  end.

Definition skeletonFromFeedGen (params : QueryParams)
    (headers : IncomingHttpHeaders) : Result AlgoResponse :=
  match resolveEndpoint params with
  | inl err => inl err
  | inr fgEndpoint =>
      match getFeedSkeleton (outboundCall fgEndpoint params headers) with
      | inl err => inl (mapUpstreamError err)
      | inr result =>
          let resHeaders :=
            match res_headers result !! "content-language" with
            | None | Some "" => None
            | Some lang => Some {[ "content-language" := lang ]}
            end in
          let skele := delete "feed" (data_rest result) in
          inr {| feedItems := map feedItemOf (data_feed result);
                 algo_resHeaders := resHeaders;
                 algo_skele := skele |}
      end
  end.

(** ** The four stages *)

(** [skeleton]; the two timers are read from the clock. *)
Definition skeleton (params : QueryParams) (headers : IncomingHttpHeaders)
    (skele_ms hydr_ms : Z) : Result Skeleton :=
  match skeletonFromFeedGen params headers with
  | inl err => inl err
  | inr algo =>
      inr {| cursor := algo_skele algo !! "cursor";
             items := feedItems algo;
             timerSkele := {| timer_name := "skele"; timer_ms := skele_ms |};
             timerHydr := {| timer_name := "hydr"; timer_ms := hydr_ms |};
             resHeaders := algo_resHeaders algo;
             passthrough :=
               delete "resHeaders"
                 (delete "cursor" (delete "feedItems" (algo_skele algo))) |}
  end.

(** [hydration] also sets [skeleton.timerHydr]. *)
Definition hydration (sk : Skeleton) (hydr_ms : Z)
  : HydrationState * Skeleton :=
  (hydrateFeedItems (items sk),
   {| items := items sk;
      passthrough := passthrough sk;
      resHeaders := resHeaders sk;
      cursor := cursor sk;
      timerSkele := timerSkele sk;
      timerHydr := {| timer_name := "hydr"; timer_ms := hydr_ms |} |}).

Definition allowed (bam : BlocksAndMutes) : bool :=
  negb (authorBlocked bam) &&
  negb (authorMuted bam) &&
  negb (originatorBlocked bam) &&
  negb (originatorMuted bam) &&
  negb (ancestorAuthorBlocked bam).

(** [noBlocksOrMutes] assigns [skeleton.items] and returns [skeleton]. *)
Definition noBlocksOrMutes (sk : Skeleton) (h : HydrationState) : Skeleton :=
  {| items :=
       List.filter (fun item => allowed (feedItemBlocksAndMutes item h))
         (items sk);
     passthrough := passthrough sk;
     resHeaders := resHeaders sk;
     cursor := cursor sk;
     timerSkele := timerSkele sk;
     timerHydr := timerHydr sk |}.

(** [presentation]: in [{ feed, cursor, ...passthrough }] a key of
    [passthrough] wins over [feed] and [cursor]. *)
Definition presentation (params : QueryParams) (sk : Skeleton)
    (h : HydrationState) : Output FeedViewPost :=
  let feed :=
    firstn (limit params)
      (mapDefined (items sk) (fun item =>
         match feedViewPost item h with
         | None => None
         | Some post => Some (post, feedContext item)
         end)) in
  {| out_headers :=
       <[ "server-timing" :=
            serverTimingHeader [timerSkele sk; timerHydr sk] ]>
         (default ∅ (resHeaders sk));
     out_body :=
       (BJson <$> passthrough sk)
         ∪ obj_set "cursor" (BJson <$> cursor sk)
             {[ "feed" := BFeed feed ]} |}.

(** Modelled from the spec: [createPipelineHandler] of the [pipeline]
    module, which is not among the sources; it runs the stages in the
    order skeleton, hydration, rules, presentation, each on the state the
    previous one left, and an error of the skeleton stage ends the
    request. *)
Definition pipeline (params : QueryParams) (headers : IncomingHttpHeaders)
    (skele_ms hydr0_ms hydr_ms : Z) : Result (Output FeedViewPost) :=
  match skeleton params headers skele_ms hydr0_ms with
  | inl err => inl err
  | inr sk =>
      let '(h, sk1) := hydration sk hydr_ms in
      let sk2 := noBlocksOrMutes sk1 h in
      inr (presentation params sk2 h)
  end.
End Handler.

End GetFeed.

(* ================================================================== *)
(** * The feed service: [packages/pds/src/app-view/services/feed/index.ts] *)
(* ================================================================== *)

Module FeedService.
Import Utf8.

(** ** Collection identifiers ([ids] of the lexicons) *)

Definition AppBskyFeedPost : string := "app.bsky.feed.post".
Definition AppBskyFeedGenerator : string := "app.bsky.feed.generator".
Definition AppBskyGraphList : string := "app.bsky.graph.list".

(** ** Tables read by the service *)

Record DidHandle := { dh_did : string; dh_handle : string }.
Record RepoRoot := { rr_did : string; rr_takedownId : option Z }.
Record Profile := {
  profile_uri : string;
  profile_creator : string;
  profile_displayName : option jsstring;
  profile_description : option jsstring;
  profile_avatarCid : option string;
  profile_indexedAt : string
}.
Record Follow := { follow_uri : string; follow_creator : string; follow_subjectDid : string }.
Record ActorBlock := { ab_uri : string; ab_creator : string; ab_subjectDid : string }.
Record Mute := { mute_did : string; mute_mutedByDid : string }.
Record Post := {
  post_uri : string;
  post_cid : string;
  post_creator : string;
  post_indexedAt : string;
  post_replyParent : option string;
  post_replyRoot : option string
}.
Record PostAgg := {
  agg_uri : string;
  agg_likeCount : Z;
  agg_repostCount : Z;
  agg_replyCount : Z
}.
Record IpldBlock := { ipld_cid : string; ipld_creator : string; ipld_content : list Z }.
Record RecordRow := { record_uri : string; record_takedownId : option Z }.
Record Repost := { repost_uri : string; repost_creator : string; repost_subject : string }.
Record Like := { like_uri : string; like_creator : string; like_subject : string }.
Record FeedGenerator := {
  fg_uri : string;
  fg_cid : string;
  fg_creator : string;
  fg_feedDid : string
}.

Record Database := {
  did_handle : list DidHandle;
  repo_root : list RepoRoot;
  profile : list Profile;
  follow : list Follow;
  actor_block : list ActorBlock;
  mute : list Mute;
  post : list Post;
  post_agg : list PostAgg;
  ipld_block : list IpldBlock;
  record : list RecordRow;
  repost : list Repost;
  like : list Like;
  feed_generator : list FeedGenerator
}.

(** ** The query builder *)

Definition innerJoin {A B : Type} (on : A -> B -> bool)
    (left : list A) (right : list B) : list (A * B) :=
  flat_map (fun a => map (pair a) (List.filter (on a) right)) left.

Definition leftJoin {A B : Type} (on : A -> B -> bool)
    (left : list A) (right : list B) : list (A * option B) :=
  flat_map (fun a =>
    match List.filter (on a) right with
    | [] => [(a, None)]
    | matches => map (fun b => (a, Some b)) matches
    end) left.

(** A scalar sub-select: the column of the first matching row, or [null]. *)
Definition subselect {A B : Type} (tbl : list A) (where_ : A -> bool)
    (col : A -> B) : option B :=
  col <$> List.find where_ tbl.

(** [column in (values)] *)
Definition in_ (x : string) (values : list string) : bool :=
  bool_decide (x ∈ values).

(** Modelled from the spec: [notSoftDeletedClause] of [db/util], which is not
    among the sources; a row is soft-deleted (taken down) when its
    [takedownId] is set. *)
Definition notSoftDeleted (takedownId : option Z) : bool :=
  match takedownId with
  | None => true
  | Some _ => false
  end.

(** ** Truthiness *)

Definition truthy (s : option string) : bool :=
  match s with
  | Some s => negb (String.eqb s "")
  | None => false
  end.

(** [s || undefined] *)
Definition or_undef (s : option string) : option string :=
  if truthy s then s else None.

(** ** Records of the repository and their embeds *)

Record StrongRef := { ref_uri : string; ref_cid : string }.
Record Image := { image_ref : string; image_alt : string }.
Record External := {
  external_uri : string;
  external_title : string;
  external_description : string;
  external_thumb : option string
}.

(** The media half of a record-with-media embed. *)
Inductive Media :=
  | MediaImages (images : list Image)
  | MediaExternal (external : External)
  | MediaOther (type : string).

(** [post.embed], by [$type]. *)
Inductive Embed :=
  | EmbedImages (images : list Image)
  | EmbedExternal (external : External)
  | EmbedRecord (record : StrongRef)
  | EmbedRecordWithMedia (record : StrongRef) (media : Media)
  | EmbedOther (type : string).

Record PostRecord := {
  text : string;
  createdAt : string;
  embed : option Embed
}.

(** ** Hydrated rows *)

Record PostInfo := {
  pi_uri : string;
  pi_cid : string;
  pi_creator : string;
  pi_indexedAt : string;
  pi_recordBytes : list Z;
  pi_likeCount : option Z;
  pi_repostCount : option Z;
  pi_replyCount : option Z;
  pi_requesterRepost : option string;
  pi_requesterLike : option string
}.

Record FeedGenInfo := {
  fgi_generator : FeedGenerator;
  fgi_handle : string;
  fgi_likeCount : Z;
  fgi_viewerLike : option string
}.

Record FeedRow := {
  fr_postUri : string;
  fr_postAuthorDid : string;
  fr_originatorDid : string;
  fr_replyParent : option string;
  fr_replyRoot : option string
}.

Record ActorOpts := {
  skipLabels : option bool;
  includeSoftDeleted : option bool
}.

(** ** Outbound calls *)

(** Every query the service sends to the database and every call it makes
    to a sibling service. *)
Inductive Call :=
  | SelectActors (dids : list string) (requester : string) (includeSoftDeleted : bool)
  | SelectPosts (postUris : list string) (requester : string)
  | SelectFeedGenerators (generatorUris : list string) (requester : string)
  | GetLabelsForSubjects (subjects : list string)
  | GetListMutes (dids : list string) (requester : string)
  | GetListViews (uris : list string) (requester : string).

(** An asynchronous computation: its result and the calls it made. *)
Definition IO (A : Type) : Type := A * list Call.

Definition ret {A : Type} (a : A) : IO A := (a, []).
Definition bind {A B : Type} (m : IO A) (k : A -> IO B) : IO B :=
  let '(a, calls1) := m in
  let '(b, calls2) := k a in
  (b, calls1 ++ calls2).
Definition call {A : Type} (c : Call) (response : A) : IO A := (response, [c]).

Declare Scope io_scope.
Delimit Scope io_scope with io.
Notation "'let*' x ':=' m 'in' k" := (bind m (fun x => k))
  (at level 10, x name, m at level 100, k at level 200, only parsing)
  : io_scope.

(** A JavaScript [Set] of strings, in insertion order. *)
Definition set_add (x : string) (s : list string) : list string :=
  if bool_decide (x ∈ s) then s else s ++ [x].

(** Modelled from the spec: [dedupeStrs] of [@atproto/common], which is not
    among the sources; it is [[...new Set(strs)]]. *)
Definition dedupeStrs (strs : list string) : list string :=
  fold_left (fun s x => set_add x s) strs [].

(** ** Views *)

(** Types of the lexicons and of sibling services that this file only
    passes along. *)
Class Lexicon := {
  Label : Type;
  ListViewBasic : Type;
  ListInfo : Type;
  GeneratorView : Type;
  ListView : Type;
  FeedViewPost : Type
}.

Section Views.
Context `{lexicon : Lexicon}.

Record ViewerState := {
  muted : option bool;
  mutedByList : option ListViewBasic;
  blockedBy : option bool;
  blocking : option string;
  following : option string;
  followedBy : option string
}.

(** An entry of [ActorInfoMap]; also the [author] of a post view. *)
Record ActorInfo := {
  ai_did : string;
  ai_handle : string;
  ai_displayName : option jsstring;
  ai_avatar : option string;
  ai_viewer : option ViewerState;
  ai_labels : option (list Label)
}.

Record ImageView := { iv_thumb : string; iv_fullsize : string; iv_alt : string }.
Record ExternalView := {
  ev_uri : string;
  ev_title : string;
  ev_description : string;
  ev_thumb : option string
}.

Inductive MediaView :=
  | MediaImagesView (images : list ImageView)
  | MediaExternalView (external : ExternalView).

(** [PostEmbedView] and, for a record embed, the [record] of its
    [RecordEmbedView]. *)
Inductive PostEmbedView :=
  | ImagesEmbedView (images : list ImageView)
  | ExternalEmbedView (external : ExternalView)
  | RecordEmbedView (record : RecordEmbedViewRecord)
  | RecordWithMediaView (record : option RecordEmbedViewRecord) (media : MediaView)
with RecordEmbedViewRecord :=
  | GeneratorViewRecord (view : GeneratorView)
  | ListViewRecord (view : ListView)
  | ViewRecord (uri cid : string) (author : ActorInfo) (value : PostRecord)
      (labels : option (list Label)) (indexedAt : string)
      (embeds : option (list PostEmbedView))
  | ViewNotFound (uri : string)
  | ViewBlocked (uri : string).

Record PostView := {
  pv_uri : string;
  pv_cid : string;
  pv_author : ActorInfo;
  pv_record : PostRecord;
  pv_embed : option PostEmbedView;
  pv_labels : option (list Label);
  pv_indexedAt : string
}.

(** [$type] of the record of a record embed. *)
Definition type_of (r : RecordEmbedViewRecord) : string :=
  match r with
  | GeneratorViewRecord _ => "app.bsky.feed.defs#generatorView"
  | ListViewRecord _ => "app.bsky.graph.defs#listView"
  | ViewRecord _ _ _ _ _ _ _ => "app.bsky.embed.record#viewRecord"
  | ViewNotFound _ => "app.bsky.embed.record#viewNotFound"
  | ViewBlocked _ => "app.bsky.embed.record#viewBlocked"
  end.

(** [getRecordEmbedView(uri, post, embeds)] *)
Definition getRecordEmbedView (uri : string) (post : option PostView)
    (embeds : option (list PostEmbedView)) : RecordEmbedViewRecord :=
  match post with
  | None => ViewNotFound uri
  | Some post =>
      if truthy (ai_viewer (pv_author post) ≫= blocking)
         || default false (ai_viewer (pv_author post) ≫= blockedBy)
      then ViewBlocked uri
      else ViewRecord (pv_uri post) (pv_cid post) (pv_author post)
             (pv_record post) (pv_labels post) (pv_indexedAt post) embeds
  end.
End Views.

Arguments ViewerState {lexicon}.
Arguments ActorInfo {lexicon}.
Arguments PostEmbedView {lexicon}.
Arguments RecordEmbedViewRecord {lexicon}.
Arguments PostView {lexicon}.

Abbreviation ActorInfoMap := (gmap string ActorInfo).
Abbreviation PostInfoMap := (gmap string PostInfo).
Abbreviation FeedGenInfoMap := (gmap string FeedGenInfo).
Abbreviation PostEmbedViews := (gmap string PostEmbedView).
Abbreviation PostViews := (gmap string PostView).
Abbreviation Labels := (gmap string (list Label)).

(** [obj[k] = v] where [v] may be [undefined]: a property set to
    [undefined] reads like an absent one. *)
Definition obj_set {V : Type} (k : string) (v : option V) (o : gmap string V)
  : gmap string V :=
  match v with
  | Some x => <[k := x]> o
  | None => delete k o
  end.

(** ** The collaborators of the service *)

Class Services `{lexicon : Lexicon} := {
  (** [new AtUri(uri).hostname] and [new AtUri(uri).collection] *)
  hostname : string -> string;
  collection : string -> string;
  (** [imgUriBuilder.getCommonSignedUri] *)
  getCommonSignedUri : string -> string -> string;
  (** what [services.label.getLabelsForSubjects],
      [services.actor.views.getListMutes] and [services.graph.getListViews]
      answer *)
  labelsForSubjects : list string -> Labels;
  listMutesFor : list string -> string -> gmap string ListViewBasic;
  listViewsFor : list string -> string -> gmap string ListInfo;
  (** [services.graph.formatListView] and the methods of [views] *)
  formatListView : ListInfo -> ActorInfoMap -> ListView;
  formatFeedGeneratorView : FeedGenInfo -> ActorInfoMap -> Labels -> GeneratorView;
  formatPostView :
    string -> ActorInfoMap -> PostInfoMap -> PostEmbedViews -> Labels ->
    option PostView;
  formatFeed :
    list FeedRow -> ActorInfoMap -> PostInfoMap -> PostEmbedViews -> Labels ->
    option bool -> list FeedViewPost
}.

(** A row of the query of [getActorInfos]. *)
Record ActorRow := {
  ar_did : string;
  ar_handle : string;
  ar_profileUri : option string;
  ar_displayName : option jsstring;
  ar_description : option jsstring;
  ar_avatarCid : option string;
  ar_indexedAt : option string;
  ar_requesterFollowing : option string;
  ar_requesterFollowedBy : option string;
  ar_requesterBlocking : option string;
  ar_requesterBlockedBy : option string;
  ar_requesterMuted : option string
}.

(** The optional argument of [getPostViews]. *)
Record Precomputed `{lexicon : Lexicon} := {
  pre_actors : option ActorInfoMap;
  pre_posts : option PostInfoMap;
  pre_embeds : option PostEmbedViews;
  pre_labels : option Labels
}.

(** The arrays and the set filled by the first loop of
    [nestedRecordViews]. *)
Record Nested := {
  nestedPostUris : list string;
  nestedFeedGenUris : list string;
  nestedListUris : list string;
  nestedDidsSet : list string
}.

(** The maps [nestedRecordViews] waits for. *)
Record NestedHydration `{lexicon : Lexicon} := {
  nh_postInfos : PostInfoMap;
  nh_actorInfos : ActorInfoMap;
  nh_labelViews : Labels;
  nh_feedGenInfos : FeedGenInfoMap;
  nh_listViews : gmap string ListInfo
}.

(** The author of a post view blocks the viewer or is blocked by the
    viewer: the condition [getRecordEmbedView] tests. *)
Definition authorBlocks `{lexicon : Lexicon} (post : PostView) : bool :=
  truthy (ai_viewer (pv_author post) ≫= blocking)
  || default false (ai_viewer (pv_author post) ≫= blockedBy).

(** The identifiers a call carries. *)
Definition call_ids (c : Call) : list string :=
  match c with
  | SelectActors dids _ _ => dids
  | SelectPosts postUris _ => postUris
  | SelectFeedGenerators generatorUris _ => generatorUris
  | GetLabelsForSubjects subjects => subjects
  | GetListMutes dids _ => dids
  | GetListViews uris _ => uris
  end.

(** The calls that look entities up by a list of identifiers: the three
    queries of the loaders and the list lookup. *)
Definition is_loader_call (c : Call) : bool :=
  match c with
  | SelectActors _ _ _ | SelectPosts _ _ | SelectFeedGenerators _ _
  | GetListViews _ _ => true
  | GetLabelsForSubjects _ | GetListMutes _ _ => false
  end.

Section Service.
Context `{services : Services}.
Variable db : Database.
Local Open Scope io_scope.

Definition getLabelsForSubjects (subjects : list string) : IO Labels :=
  call (GetLabelsForSubjects subjects) (labelsForSubjects subjects).

Definition getListMutes (dids : list string) (requester : string)
  : IO (gmap string ListViewBasic) :=
  call (GetListMutes dids requester) (listMutesFor dids requester).

Definition getListViews (uris : list string) (requester : string)
  : IO (gmap string ListInfo) :=
  call (GetListViews uris requester) (listViewsFor uris requester).

(** ** [getActorInfos] *)

Definition selectActors (dids : list string) (requester : string)
    (includeSoftDeleted : bool) : list ActorRow :=
  let joined :=
    leftJoin (fun '(dh, _) p => String.eqb (profile_creator p) (dh_did dh))
      (innerJoin (fun dh rr => String.eqb (rr_did rr) (dh_did dh))
         (did_handle db) (repo_root db))
      (profile db) in
  let rows :=
    List.filter (fun '((dh, rr), _) =>
      in_ (dh_did dh) dids
      && (if includeSoftDeleted then true else notSoftDeleted (rr_takedownId rr)))
      joined in
  map (fun '((dh, _), p) =>
    {| ar_did := dh_did dh;
       ar_handle := dh_handle dh;
       ar_profileUri := profile_uri <$> p;
       ar_displayName := p ≫= profile_displayName;
       ar_description := p ≫= profile_description;
       ar_avatarCid := p ≫= profile_avatarCid;
       ar_indexedAt := profile_indexedAt <$> p;
       ar_requesterFollowing :=
         subselect (follow db)
           (fun f => String.eqb (follow_creator f) requester
                     && String.eqb (follow_subjectDid f) (dh_did dh))
           follow_uri;
       ar_requesterFollowedBy :=
         subselect (follow db)
           (fun f => String.eqb (follow_creator f) (dh_did dh)
                     && String.eqb (follow_subjectDid f) requester)
           follow_uri;
       ar_requesterBlocking :=
         subselect (actor_block db)
           (fun b => String.eqb (ab_creator b) requester
                     && String.eqb (ab_subjectDid b) (dh_did dh))
           ab_uri;
       ar_requesterBlockedBy :=
         subselect (actor_block db)
           (fun b => String.eqb (ab_creator b) (dh_did dh)
                     && String.eqb (ab_subjectDid b) requester)
           ab_uri;
       ar_requesterMuted :=
         subselect (mute db)
           (fun m => String.eqb (mute_did m) (dh_did dh)
                     && String.eqb (mute_mutedByDid m) requester)
           mute_did |}) rows.

Definition actorInfoOf (skipLabels : bool) (labels : Labels)
    (listMutes : gmap string ListViewBasic) (cur : ActorRow) : ActorInfo :=
  let actorLabels := default [] (labels !! ar_did cur) in
  {| ai_did := ar_did cur;
     ai_handle := ar_handle cur;
     ai_displayName := or_undefined (truncateUtf8 (ar_displayName cur) 64);
     ai_avatar :=
       if truthy (ar_avatarCid cur)
       then getCommonSignedUri "avatar" <$> ar_avatarCid cur
       else None;
     ai_viewer := Some
       {| muted := Some (truthy (ar_requesterMuted cur)
                         || bool_decide (is_Some (listMutes !! ar_did cur)));
          mutedByList := listMutes !! ar_did cur;
          blockedBy := Some (truthy (ar_requesterBlockedBy cur));
          blocking := or_undef (ar_requesterBlocking cur);
          following := or_undef (ar_requesterFollowing cur);
          followedBy := or_undef (ar_requesterFollowedBy cur) |};
     ai_labels := if skipLabels then None else Some actorLabels |}.

Definition getActorInfos (dids : list string) (requester : string)
    (opts : option ActorOpts) : IO ActorInfoMap :=
  if (length dids <? 1)%nat then ret ∅
  else
    let skip := default false (opts ≫= skipLabels) in
    let soft := default false (opts ≫= includeSoftDeleted) in
    let* actors :=
      call (SelectActors dids requester soft)
        (selectActors dids requester soft) in
    let* labels := getLabelsForSubjects (if skip then [] else dids) in
    let* listMutes := getListMutes dids requester in
    ret (fold_left
           (fun acc cur => <[ar_did cur := actorInfoOf skip labels listMutes cur]> acc)
           actors ∅).

(** ** [getPostInfos] *)

Definition selectPosts (postUris : list string) (requester : string)
  : list PostInfo :=
  let joined :=
    innerJoin (fun '(((p, _), _), _) r => String.eqb (record_uri r) (post_uri p))
      (innerJoin (fun '((p, _), _) rr => String.eqb (rr_did rr) (post_creator p))
         (innerJoin (fun '(p, _) b =>
                       String.eqb (ipld_cid b) (post_cid p)
                       && String.eqb (ipld_creator b) (post_creator p))
            (leftJoin (fun p a => String.eqb (agg_uri a) (post_uri p))
               (post db) (post_agg db))
            (ipld_block db))
         (repo_root db))
      (record db) in
  let rows :=
    List.filter (fun '((((p, _), _), rr), r) =>
      in_ (post_uri p) postUris
      && notSoftDeleted (rr_takedownId rr)
      && notSoftDeleted (record_takedownId r)) joined in
  map (fun '((((p, agg), b), _), _) =>
    {| pi_uri := post_uri p;
       pi_cid := post_cid p;
       pi_creator := post_creator p;
       pi_indexedAt := post_indexedAt p;
       pi_recordBytes := ipld_content b;
       pi_likeCount := agg_likeCount <$> agg;
       pi_repostCount := agg_repostCount <$> agg;
       pi_replyCount := agg_replyCount <$> agg;
       pi_requesterRepost :=
         subselect (repost db)
           (fun r => String.eqb (repost_creator r) requester
                     && String.eqb (repost_subject r) (post_uri p))
           repost_uri;
       pi_requesterLike :=
         subselect (like db)
           (fun l => String.eqb (like_creator l) requester
                     && String.eqb (like_subject l) (post_uri p))
           like_uri |}) rows.

Definition getPostInfos (postUris : list string) (requester : string)
  : IO PostInfoMap :=
  if (length postUris <? 1)%nat then ret ∅
  else
    let* posts :=
      call (SelectPosts postUris requester)
        (selectPosts postUris requester) in
    ret (fold_left (fun acc cur => <[pi_uri cur := cur]> acc) posts ∅).

(** ** [selectFeedGeneratorQb] and [getFeedGeneratorInfos] *)

Definition selectFeedGeneratorQb (requester : string) : list FeedGenInfo :=
  let joined :=
    innerJoin (fun '((fg, _), _) r => String.eqb (record_uri r) (fg_uri fg))
      (innerJoin (fun '(fg, _) rr => String.eqb (rr_did rr) (fg_creator fg))
         (innerJoin (fun fg dh => String.eqb (dh_did dh) (fg_creator fg))
            (feed_generator db) (did_handle db))
         (repo_root db))
      (record db) in
  let rows :=
    List.filter (fun '(((_, _), creator_repo), r) =>
      notSoftDeleted (rr_takedownId creator_repo)
      && notSoftDeleted (record_takedownId r)) joined in
  map (fun '(((fg, dh), _), _) =>
    {| fgi_generator := fg;
       fgi_handle := dh_handle dh;
       fgi_likeCount :=
         Z.of_nat (length (List.filter
           (fun l => String.eqb (like_subject l) (fg_uri fg)) (like db)));
       fgi_viewerLike :=
         subselect (like db)
           (fun l => String.eqb (like_creator l) requester
                     && String.eqb (like_subject l) (fg_uri fg))
           like_uri |}) rows.

Definition getFeedGeneratorInfos (generatorUris : list string)
    (requester : string) : IO FeedGenInfoMap :=
  if (length generatorUris <? 1)%nat then ret ∅
  else
    let* feedGens :=
      call (SelectFeedGenerators generatorUris requester)
        (List.filter
           (fun cur => in_ (fg_uri (fgi_generator cur)) generatorUris)
           (selectFeedGeneratorQb requester)) in
    ret (fold_left
           (fun acc cur => <[fg_uri (fgi_generator cur) := cur]> acc)
           feedGens ∅).

(** ** Embed views *)

Definition imagesEmbedView (images : list Image) : list ImageView :=
  map (fun img =>
    {| iv_thumb := getCommonSignedUri "feed_thumbnail" (image_ref img);
       iv_fullsize := getCommonSignedUri "feed_fullsize" (image_ref img);
       iv_alt := image_alt img |}) images.

Definition externalEmbedView (external : External) : ExternalView :=
  {| ev_uri := external_uri external;
     ev_title := external_title external;
     ev_description := external_description external;
     ev_thumb :=
       if truthy (external_thumb external)
       then getCommonSignedUri "feed_thumbnail" <$> external_thumb external
       else None |}.

(** ** [nestedRecordUris] *)

Definition nestedRecordUris (posts : list PostRecord) : list string :=
  fold_left (fun uris post =>
    match embed post with
    | None => uris
    | Some (EmbedRecord record) => uris ++ [ref_uri record]
    | Some (EmbedRecordWithMedia record _) => uris ++ [ref_uri record]
    | Some _ => uris
    end) posts [].

(** ** [nestedRecordViews] *)

(** The body of the first loop: one uri added to the set of dids and to
    the array of its collection. *)
Definition nestedPartitionStep (acc : Nested) (uri : string) : Nested :=
  let dids := set_add (hostname uri) (nestedDidsSet acc) in
  if String.eqb (collection uri) AppBskyFeedPost then
    {| nestedPostUris := nestedPostUris acc ++ [uri];
       nestedFeedGenUris := nestedFeedGenUris acc;
       nestedListUris := nestedListUris acc;
       nestedDidsSet := dids |}
  else if String.eqb (collection uri) AppBskyFeedGenerator then
    {| nestedPostUris := nestedPostUris acc;
       nestedFeedGenUris := nestedFeedGenUris acc ++ [uri];
       nestedListUris := nestedListUris acc;
       nestedDidsSet := dids |}
  else if String.eqb (collection uri) AppBskyGraphList then
    {| nestedPostUris := nestedPostUris acc;
       nestedFeedGenUris := nestedFeedGenUris acc;
       nestedListUris := nestedListUris acc ++ [uri];
       nestedDidsSet := dids |}
  else
    {| nestedPostUris := nestedPostUris acc;
       nestedFeedGenUris := nestedFeedGenUris acc;
       nestedListUris := nestedListUris acc;
       nestedDidsSet := dids |}.

(** The first loop: the uris by collection, and the set of their dids. *)
Definition nestedPartition (nestedUris : list string) : Nested :=
  fold_left nestedPartitionStep nestedUris
    {| nestedPostUris := []; nestedFeedGenUris := [];
       nestedListUris := []; nestedDidsSet := [] |}.

(** The body of the second loop. The branch of a hydrated post formats
    the post and assigns nothing. *)
Definition recordEmbedStep (postInfos : PostInfoMap)
    (actorInfos : ActorInfoMap) (labelViews : Labels)
    (feedGenInfos : FeedGenInfoMap) (listViews : gmap string ListInfo)
    (recordEmbedViews : gmap string RecordEmbedViewRecord) (uri : string)
  : gmap string RecordEmbedViewRecord :=
  let collection := collection uri in
  match String.eqb collection AppBskyFeedGenerator, feedGenInfos !! uri with
  | true, Some info =>
      <[uri := GeneratorViewRecord
                 (formatFeedGeneratorView info actorInfos labelViews)]>
        recordEmbedViews
  | _, _ =>
  match String.eqb collection AppBskyGraphList, listViews !! uri with
  | true, Some list =>
      <[uri := ListViewRecord (formatListView list actorInfos)]>
        recordEmbedViews
  | _, _ =>
  match String.eqb collection AppBskyFeedPost, postInfos !! uri with
  | true, Some _ =>
      let deepEmbedViews : PostEmbedViews := ∅ in
      let formatted :=
        formatPostView uri actorInfos postInfos deepEmbedViews labelViews in
      recordEmbedViews
  | _, _ => <[uri := ViewNotFound uri]> recordEmbedViews
  end end end.

(** What the second loop leaves at [uri]: a view, or nothing when the
    uri is a post that was hydrated. *)
Definition recordEmbedAssigned (postInfos : PostInfoMap)
    (actorInfos : ActorInfoMap) (labelViews : Labels)
    (feedGenInfos : FeedGenInfoMap) (listViews : gmap string ListInfo)
    (uri : string) : option RecordEmbedViewRecord :=
  match String.eqb (collection uri) AppBskyFeedGenerator, feedGenInfos !! uri with
  | true, Some info =>
      Some (GeneratorViewRecord
              (formatFeedGeneratorView info actorInfos labelViews))
  | _, _ =>
  match String.eqb (collection uri) AppBskyGraphList, listViews !! uri with
  | true, Some list => Some (ListViewRecord (formatListView list actorInfos))
  | _, _ =>
  match String.eqb (collection uri) AppBskyFeedPost, postInfos !! uri with
  | true, Some _ => None
  | _, _ => Some (ViewNotFound uri)
  end end end.

Definition nestedRecordViews (posts : list PostRecord) (requester : string)
  : IO (gmap string RecordEmbedViewRecord) :=
  let nestedUris := nestedRecordUris posts in
  if (length nestedUris <? 1)%nat then ret ∅
  else
    let nested := nestedPartition nestedUris in
    let nestedDids := nestedDidsSet nested in
    let* postInfos := getPostInfos (nestedPostUris nested) requester in
    let* actorInfos :=
      getActorInfos nestedDids requester
        (Some {| skipLabels := Some true; includeSoftDeleted := None |}) in
    let* labelViews :=
      getLabelsForSubjects (nestedPostUris nested ++ nestedDids) in
    let* feedGenInfos :=
      getFeedGeneratorInfos (nestedFeedGenUris nested) requester in
    let* listViews := getListViews (nestedListUris nested) requester in
    ret (fold_left
           (recordEmbedStep postInfos actorInfos labelViews feedGenInfos
              listViews)
           nestedUris ∅).

(** What the five lookups of [nestedRecordViews] return for a batch. *)
Definition nestedHydration (posts : list PostRecord) (requester : string)
  : NestedHydration :=
  let nested := nestedPartition (nestedRecordUris posts) in
  {| nh_postInfos := (getPostInfos (nestedPostUris nested) requester).1;
     nh_actorInfos :=
       (getActorInfos (nestedDidsSet nested) requester
          (Some {| skipLabels := Some true; includeSoftDeleted := None |})).1;
     nh_labelViews :=
       (getLabelsForSubjects
          (nestedPostUris nested ++ nestedDidsSet nested)).1;
     nh_feedGenInfos :=
       (getFeedGeneratorInfos (nestedFeedGenUris nested) requester).1;
     nh_listViews := (getListViews (nestedListUris nested) requester).1 |}.

(** ** [postRecordsFromInfos] and [embedsForPosts] *)

(** [postRecordsFromInfos] returns the empty object. *)
Definition postRecordsFromInfos (infos : PostInfoMap)
  : gmap string PostRecord := ∅.

(** The body of the loop of [embedsForPosts]. *)
Definition postEmbedStep
    (recordEmbedViews : gmap string RecordEmbedViewRecord)
    (postEmbedViews : PostEmbedViews) (entry : string * PostRecord)
  : PostEmbedViews :=
  let '(uri, post) := entry in
  match embed post with
  | None => postEmbedViews
  | Some (EmbedImages images) =>
      <[uri := ImagesEmbedView (imagesEmbedView images)]> postEmbedViews
  | Some (EmbedExternal external) =>
      <[uri := ExternalEmbedView (externalEmbedView external)]> postEmbedViews
  | Some (EmbedRecord record) =>
      obj_set uri (RecordEmbedView <$> recordEmbedViews !! ref_uri record)
        postEmbedViews
  | Some (EmbedRecordWithMedia record media) =>
      match media with
      | MediaImages images =>
          <[uri := RecordWithMediaView (recordEmbedViews !! ref_uri record)
                     (MediaImagesView (imagesEmbedView images))]>
            postEmbedViews
      | MediaExternal external =>
          <[uri := RecordWithMediaView (recordEmbedViews !! ref_uri record)
                     (MediaExternalView (externalEmbedView external))]>
            postEmbedViews
      | MediaOther _ => postEmbedViews
      end
  | Some (EmbedOther _) => postEmbedViews
  end.

Definition embedsForPosts (postInfos : PostInfoMap) (requester : string)
    (excludeNested : option bool) : IO PostEmbedViews :=
  let postMap := postRecordsFromInfos postInfos in
  let posts := (map_to_list postMap).*2 in
  if (length posts <? 1)%nat then ret ∅
  else
    let* recordEmbedViews :=
      if default false excludeNested then ret ∅
      else nestedRecordViews posts requester in
    ret (fold_left (postEmbedStep recordEmbedViews) (map_to_list postMap) ∅).

(** ** [getPostViews] *)

Definition getPostViews (postUris : list string) (requester : string)
    (precomputed : option Precomputed) : IO PostViews :=
  let uris := dedupeStrs postUris in
  let dids := dedupeStrs (map hostname postUris) in
  let* actors :=
    match precomputed ≫= pre_actors with
    | Some actors => ret actors
    | None =>
        getActorInfos dids requester
          (Some {| skipLabels := Some true; includeSoftDeleted := None |})
    end in
  let* posts :=
    match precomputed ≫= pre_posts with
    | Some posts => ret posts
    | None => getPostInfos uris requester
    end in
  let* labels :=
    match precomputed ≫= pre_labels with
    | Some labels => ret labels
    | None => getLabelsForSubjects (uris ++ dids)
    end in
  let* embeds :=
    match precomputed ≫= pre_embeds with
    | Some embeds => ret embeds
    | None => embedsForPosts posts requester None
    end in
  ret (fold_left (fun acc cur =>
         match formatPostView cur actors posts embeds labels with
         | Some view => <[cur := view]> acc
         | None => acc
         end) uris ∅).

(** ** [hydrateFeed] *)

(** The body of the loop of [hydrateFeed]: one item added to the two
    sets. *)
Definition feedIdsStep (sets : list string * list string) (item : FeedRow)
  : list string * list string :=
  let '(actorDids, postUris) := sets in
  let actorDids := set_add (fr_postAuthorDid item) actorDids in
  let postUris := set_add (fr_postUri item) postUris in
  let actorDids :=
    if negb (String.eqb (fr_postAuthorDid item) (fr_originatorDid item))
    then set_add (fr_originatorDid item) actorDids
    else actorDids in
  let '(actorDids, postUris) :=
    match fr_replyParent item with
    | None | Some "" => (actorDids, postUris)
    | Some replyParent =>
        (set_add (hostname replyParent) actorDids,
         set_add replyParent postUris)
    end in
  match fr_replyRoot item with
  | None | Some "" => (actorDids, postUris)
  | Some replyRoot =>
      (set_add (hostname replyRoot) actorDids,
       set_add replyRoot postUris)
  end.

(** The two sets [actorDids] and [postUris] after the loop. *)
Definition feedIds (items : list FeedRow) : list string * list string :=
  fold_left feedIdsStep items ([], []).

Definition hydrateFeed (items : list FeedRow) (requester : string)
    (usePostViewUnion : option bool) : IO (list FeedViewPost) :=
  let '(actorDids, postUris) := feedIds items in
  let* actors :=
    getActorInfos actorDids requester
      (Some {| skipLabels := Some true; includeSoftDeleted := None |}) in
  let* posts := getPostInfos postUris requester in
  let* labels := getLabelsForSubjects (postUris ++ actorDids) in
  let* embeds := embedsForPosts posts requester None in
  ret (formatFeed items actors posts embeds labels usePostViewUnion).
End Service.

End FeedService.

(* ================================================================== *)
(** * The post indexer: the second file of [app-view/services/feed/index.ts] *)
(* ================================================================== *)

Module PostPlugin.

(** ** Rows *)

(** [DatabaseSchemaType['post']], as [insertFn] writes it. *)
Record Post := {
  uri : string;
  cid : string;
  creator : string;
  text : string;
  createdAt : string;
  replyRoot : option string;
  replyRootCid : option string;
  replyParent : option string;
  replyParentCid : option string;
  indexedAt : string
}.

Record PostEmbedImage := {
  pei_postUri : string;
  position : nat;
  imageCid : string;
  alt : string
}.

Record PostEmbedExternal := {
  pee_postUri : string;
  pee_uri : string;
  title : string;
  description : string;
  thumbCid : option string
}.

Record PostEmbedRecord := {
  per_postUri : string;
  embedUri : string;
  embedCid : string
}.

Record PostHierarchy := {
  ph_uri : string;
  ancestorUri : string;
  depth : Z
}.

(** [{ type: 'mention' | 'link'; value: string }] *)
Inductive FacetType := Mention | Link.
Record Facet := { facet_type : FacetType; facet_value : string }.

(** [PostEmbedImage[] | PostEmbedExternal | PostEmbedRecord] *)
Inductive IndexedEmbed :=
  | EmbedImages (images : list PostEmbedImage)
  | EmbedExternal (external : PostEmbedExternal)
  | EmbedRecord (record : PostEmbedRecord).

Record IndexedPost := {
  post : Post;
  facets : list Facet;
  embed : option IndexedEmbed;
  ancestors : list PostHierarchy
}.

(** The tables the plugin deletes from and reads. *)
Record Tables := {
  tbl_post : list Post;
  tbl_post_embed_image : list PostEmbedImage;
  tbl_post_embed_external : list PostEmbedExternal;
  tbl_post_embed_record : list PostEmbedRecord;
  tbl_post_hierarchy : list PostHierarchy
}.

(** ** Messages *)

Inductive Reason := ReasonMention | ReasonReply.

(** The messages of [event-stream/messages], by the function that builds
    them and its argument: [createNotification({ userDid, author,
    recordUri, recordCid, reason, reasonSubject })] and
    [deleteNotifications(recordUri)]. *)
Inductive Message :=
  | CreateNotification (userDid author recordUri recordCid : string)
      (reason : Reason) (reasonSubject : option string)
  | DeleteNotifications (recordUri : string).

(** ** [Array.prototype.sort] by depth *)

(** [[...obj.ancestors].sort((a, b) => a.depth - b.depth)]: the sort of an
    array is stable, so its result is the one of an insertion sort that
    puts a row before the rows after it that are not less deep. *)
Fixpoint insertByDepth (x : PostHierarchy) (l : list PostHierarchy)
  : list PostHierarchy :=
  match l with
  | [] => [x]
  | y :: l' =>
      if (depth x <=? depth y)%Z then x :: l else y :: insertByDepth x l'
  end.

Definition sortByDepth (l : list PostHierarchy) : list PostHierarchy :=
  fold_right insertByDepth [] l.

Section Events.
(** [new AtUri(uri).host] and [new AtUri(uri).toString()] *)
Variable host : string -> string.
Variable toString : string -> string.

(** ** [eventsForInsert] *)

(** The two notifications [eventsForInsert] creates. *)
Definition mentionNotification (obj : IndexedPost) (facet : Facet) : Message :=
  CreateNotification (facet_value facet) (creator (post obj))
    (uri (post obj)) (cid (post obj)) ReasonMention None.

Definition replyNotification (obj : IndexedPost) (ancestorUri : string)
  : Message :=
  CreateNotification (host ancestorUri) (creator (post obj))
    (uri (post obj)) (cid (post obj)) ReasonReply
    (Some (toString ancestorUri)).

(** The body of the first loop: a mention of somebody else is notified. *)
Definition mentionStep (obj : IndexedPost) (notifs : list Message)
    (facet : Facet) : list Message :=
  match facet_type facet with
  | Mention =>
      if negb (String.eqb (facet_value facet) (creator (post obj))) then
        notifs ++ [mentionNotification obj facet]
      else notifs
  | Link => notifs
  end.

(** The body of the second loop, on the array [notifs] and the set
    [notified]. *)
Definition replyStep (obj : IndexedPost)
    (state : list Message * list string) (relation : PostHierarchy)
  : list Message * list string :=
  let '(notifs, notified) := state in
  let ancestorUri := ancestorUri relation in
  if negb (bool_decide (host ancestorUri ∈ notified)) then
    (notifs ++ [replyNotification obj ancestorUri],
     notified ++ [host ancestorUri])
  else (notifs, notified).

Definition eventsForInsert (obj : IndexedPost) : list Message :=
  let notifs := fold_left (mentionStep obj) (facets obj) [] in
  let notified := [creator (post obj)] in
  let ancestors := sortByDepth (ancestors obj) in
  (fold_left (replyStep obj) ancestors (notifs, notified)).1.

(** ** [eventsForDelete] *)

Definition eventsForDelete (deleted : IndexedPost)
    (replacedBy : option IndexedPost) : list Message :=
  let replacedNotifications :=
    match replacedBy with
    | Some replacedBy => eventsForInsert replacedBy
    | None => []
    end in
  DeleteNotifications (uri (post deleted)) :: replacedNotifications.
End Events.

(** ** [deleteFn] *)

(** [deleteFn(db, uri)] on the tables: the tables it leaves and the value
    it returns; [uri] is [uri.toString()]. A [deleteFrom ... returningAll]
    removes every row that matches; [executeTakeFirst] returns the first of
    them and [execute] all of them. *)
Definition deleteFn (db : Tables) (uri_ : string)
  : Tables * option IndexedPost :=
  let is_post (p : Post) := String.eqb (uri p) uri_ in
  let deleted := List.find is_post (tbl_post db) in
  let posts := List.filter (fun p => negb (is_post p)) (tbl_post db) in
  let is_img (i : PostEmbedImage) := String.eqb (pei_postUri i) uri_ in
  let deletedImgs := List.filter is_img (tbl_post_embed_image db) in
  let images :=
    List.filter (fun i => negb (is_img i)) (tbl_post_embed_image db) in
  let deletedEmbed :=
    match deletedImgs with
    | [] => None
    | _ => Some (EmbedImages deletedImgs)
    end in
  let is_ext (e : PostEmbedExternal) := String.eqb (pee_postUri e) uri_ in
  let '(externals, deletedEmbed) :=
    match deletedEmbed with
    | Some _ => (tbl_post_embed_external db, deletedEmbed)
    | None =>
        (List.filter (fun e => negb (is_ext e)) (tbl_post_embed_external db),
         EmbedExternal <$> List.find is_ext (tbl_post_embed_external db))
    end in
  let is_rec (r : PostEmbedRecord) := String.eqb (per_postUri r) uri_ in
  let '(records, deletedEmbed) :=
    match deletedEmbed with
    | Some _ => (tbl_post_embed_record db, deletedEmbed)
    | None =>
        (List.filter (fun r => negb (is_rec r)) (tbl_post_embed_record db),
         EmbedRecord <$> List.find is_rec (tbl_post_embed_record db))
    end in
  let ancestors :=
    List.filter (fun h => String.eqb (ph_uri h) uri_ && (0 <? depth h)%Z)
      (tbl_post_hierarchy db) in
  ({| tbl_post := posts;
      tbl_post_embed_image := images;
      tbl_post_embed_external := externals;
      tbl_post_embed_record := records;
      tbl_post_hierarchy := tbl_post_hierarchy db |},
   match deleted with
   | Some deleted =>
       Some {| post := deleted; facets := []; embed := deletedEmbed;
               ancestors := ancestors |}
   | None => None
   end).

End PostPlugin.

(* ================================================================== *)
(** * References                                                        *)
(* ================================================================== *)

Module AtUri.
Local Open Scope string_scope.

(** Modelled from the spec: [AtUri] of [@atproto/uri], which is not among the
    sources. A reference has the form
    [at://{authority}/{collection}/{record-key}]; [hostname] is the
    authority and [collection] the segment after it. *)
Fixpoint segments (s : string) : list string :=
  match s with
  | EmptyString => [EmptyString]
  | String c rest =>
      if Ascii.eqb c "/"%char then EmptyString :: segments rest
      else match segments rest with
           | seg :: tl => String c seg :: tl
           | [] => [String c EmptyString]
           end
  end.

Definition hostname (uri : string) : string := nth 2 (segments uri) "".
Definition collection (uri : string) : string := nth 3 (segments uri) "".

End AtUri.

(* ================================================================== *)
(** * A small instance: four actors, three posts, one feed             *)
(* ================================================================== *)

Module Demo.
Local Open Scope string_scope.

Definition alice : string := "did:example:alice".
Definition bob : string := "did:example:bob".
Definition carol : string := "did:example:carol".
Definition dave : string := "did:example:dave".

Definition post_of (did rkey : string) : string :=
  "at://" ++ did ++ "/app.bsky.feed.post/" ++ rkey.

(** ** The feed handler *)

Definition demo_feed : string :=
  "at://did:example:gen/app.bsky.feed.generator/hot".

(** A feed the application knows and its generator does not. *)
Definition demo_gone_feed : string :=
  "at://did:example:gen/app.bsky.feed.generator/gone".

(** What hydration knows of the viewer's relationships. *)
Record DemoHydration := {
  demo_blocked : list string;
  demo_muted : list string
}.

(** Modelled from the spec: [feedItemBlocksAndMutes] of the views, which is
    not among the sources; the flags of an item compare the author of the
    post and the originator of the repost with the actors the viewer blocks
    (in either direction) or mutes. *)
Definition demo_blocksAndMutes (item : GetFeed.AlgoResponseItem)
    (h : DemoHydration) : GetFeed.BlocksAndMutes :=
  let author := AtUri.hostname (GetFeed.post_uri item) in
  let originator :=
    match GetFeed.repost_uri item with
    | Some repost => AtUri.hostname repost
    | None => author
    end in
  {| GetFeed.authorBlocked := bool_decide (author ∈ demo_blocked h);
     GetFeed.authorMuted := bool_decide (author ∈ demo_muted h);
     GetFeed.originatorBlocked := bool_decide (originator ∈ demo_blocked h);
     GetFeed.originatorMuted := bool_decide (originator ∈ demo_muted h);
     GetFeed.ancestorAuthorBlocked := false |}.

(** The upstream skeleton: postA, a repost by bob of carol's postC, postD. *)
Definition demo_skeleton_feed : list GetFeed.SkeletonFeedPost :=
  [ {| GetFeed.sfp_post := post_of alice "a";
       GetFeed.sfp_reason := None;
       GetFeed.sfp_feedContext := None |};
    {| GetFeed.sfp_post := post_of carol "c";
       GetFeed.sfp_reason :=
         Some (GetFeed.ReasonRepost
                 ("at://" ++ bob ++ "/app.bsky.feed.repost/b"));
       GetFeed.sfp_feedContext := Some "ctx-b" |};
    {| GetFeed.sfp_post := post_of dave "d";
       GetFeed.sfp_reason := None;
       GetFeed.sfp_feedContext := None |} ].

Definition demo_response : GetFeed.UpstreamResponse :=
  {| GetFeed.data_feed := demo_skeleton_feed;
     GetFeed.data_rest :=
       {[ "cursor" := GetFeed.JStr "cursor-1";
          "reqId" := GetFeed.JStr "r-42" ]};
     GetFeed.res_headers := {[ "content-language" := "en" ]} |}.

(** The three items of the demo feed. *)
Definition demo_postA : GetFeed.AlgoResponseItem :=
  {| GetFeed.post_uri := post_of alice "a";
     GetFeed.repost_uri := None;
     GetFeed.feedContext := None |}.

Definition demo_repostB : GetFeed.AlgoResponseItem :=
  {| GetFeed.post_uri := post_of carol "c";
     GetFeed.repost_uri := Some ("at://" ++ bob ++ "/app.bsky.feed.repost/b");
     GetFeed.feedContext := Some "ctx-b" |}.

Definition demo_postD : GetFeed.AlgoResponseItem :=
  {| GetFeed.post_uri := post_of dave "d";
     GetFeed.repost_uri := None;
     GetFeed.feedContext := None |}.

(** The viewer mutes bob. *)
Definition demo_hydration : DemoHydration :=
  {| demo_blocked := []; demo_muted := [bob] |}.

#[export] Instance demo_ctx : GetFeed.Ctx DemoHydration string string := {|
  GetFeed.feedGenDid feed :=
    if String.eqb feed demo_feed || String.eqb feed demo_gone_feed
    then Some "did:web:gen.example" else None;
  GetFeed.getIdentityByDid did := inr did;
  GetFeed.feedGenEndpoint ident := Some ("https://gen.example/" ++ ident);
  GetFeed.getFeedSkeleton call :=
    if String.eqb (GetFeed.call_feed call) demo_feed then inr demo_response
    else inl (GetFeed.UnknownFeedError GetFeed.InvalidRequest "unknown feed");
  GetFeed.hydrateFeedItems _ := demo_hydration;
  GetFeed.feedItemBlocksAndMutes := demo_blocksAndMutes;
  GetFeed.feedViewPost item _ := Some (GetFeed.post_uri item);
  GetFeed.serverTimingHeader timers :=
    String.concat ", " (map GetFeed.timer_name timers)
|}.

Definition demo_params : GetFeed.QueryParams :=
  {| GetFeed.feed := demo_feed;
     GetFeed.limit := 50;
     GetFeed.param_cursor := None |}.

Definition demo_gone_params : GetFeed.QueryParams :=
  {| GetFeed.feed := demo_gone_feed;
     GetFeed.limit := 50;
     GetFeed.param_cursor := None |}.

Definition demo_headers1 : GetFeed.IncomingHttpHeaders :=
  {[ "authorization" := GetFeed.HSingle "Bearer t";
     "x-bsky-topics" := GetFeed.HMulti ["cats"; "dogs"];
     "cookie" := GetFeed.HSingle "session=1" ]}.

Definition demo_headers2 : GetFeed.IncomingHttpHeaders :=
  {[ "authorization" := GetFeed.HSingle "Bearer t";
     "x-bsky-topics" := GetFeed.HMulti ["cats"; "dogs"];
     "x-forwarded-for" := GetFeed.HSingle "203.0.113.7" ]}.

(** The state the skeleton stage leaves for the demo feed. *)
Definition demo_state : GetFeed.Skeleton :=
  match GetFeed.skeleton demo_params demo_headers1 12 0 with
  | inr sk => sk
  | inl _ =>
      {| GetFeed.items := []; GetFeed.passthrough := ∅;
         GetFeed.resHeaders := None; GetFeed.cursor := None;
         GetFeed.timerSkele := {| GetFeed.timer_name := ""; GetFeed.timer_ms := 0 |};
         GetFeed.timerHydr := {| GetFeed.timer_name := ""; GetFeed.timer_ms := 0 |} |}
  end.

(** ** The feed service *)

Import FeedService.

#[export] Instance demo_lexicon : Lexicon := {|
  Label := string;
  ListViewBasic := string;
  ListInfo := string;
  GeneratorView := string;
  ListView := string;
  FeedViewPost := string
|}.

(** Modelled from the spec: [formatPostView] of the views, which is not
    among the sources; the view of a post is assembled from the hydrated
    maps (author view, body, embed view, labels) and is absent when the post
    or its author was not hydrated. *)
Definition demo_formatPostView (uri : string) (actors : ActorInfoMap)
    (posts : PostInfoMap) (embeds : PostEmbedViews) (labels : Labels)
  : option PostView :=
  match posts !! uri with
  | None => None
  | Some info =>
      match actors !! pi_creator info with
      | None => None
      | Some author =>
          Some {| pv_uri := pi_uri info;
                  pv_cid := pi_cid info;
                  pv_author := author;
                  pv_record := {| text := ""; createdAt := pi_indexedAt info;
                                  embed := None |};
                  pv_embed := embeds !! uri;
                  pv_labels := labels !! uri;
                  pv_indexedAt := pi_indexedAt info |}
      end
  end.

#[export] Instance demo_services : Services := {|
  hostname := AtUri.hostname;
  collection := AtUri.collection;
  getCommonSignedUri id cid := id ++ "/" ++ cid;
  labelsForSubjects _ := ∅;
  listMutesFor _ _ := ∅;
  listViewsFor _ _ := ∅;
  formatListView info _ := info;
  formatFeedGeneratorView info _ _ := fg_uri (fgi_generator info);
  formatPostView := demo_formatPostView;
  formatFeed items _ _ _ _ _ := map fr_postUri items
|}.

(** Bob and carol each have one post; carol blocks alice; dave's account
    is taken down. *)
Definition demo_db : Database :=
  {| did_handle :=
       [ {| dh_did := alice; dh_handle := "alice.test" |};
         {| dh_did := bob; dh_handle := "bob.test" |};
         {| dh_did := carol; dh_handle := "carol.test" |};
         {| dh_did := dave; dh_handle := "dave.test" |} ];
     repo_root :=
       [ {| rr_did := alice; rr_takedownId := None |};
         {| rr_did := bob; rr_takedownId := None |};
         {| rr_did := carol; rr_takedownId := None |};
         {| rr_did := dave; rr_takedownId := Some 7%Z |} ];
     profile :=
       [ {| profile_uri := "at://did:example:bob/app.bsky.actor.profile/self";
            profile_creator := bob;
            profile_displayName := Some [0x42; 0x6F; 0x62]%Z;
            profile_description := None;
            profile_avatarCid := None;
            profile_indexedAt := "2023-07-01T00:00:00Z" |} ];
     follow := [];
     actor_block :=
       [ {| ab_uri := "at://did:example:carol/app.bsky.graph.block/1";
            ab_creator := carol; ab_subjectDid := alice |} ];
     mute := [];
     post :=
       [ {| post_uri := post_of bob "1"; post_cid := "cid-bob-1";
            post_creator := bob; post_indexedAt := "2023-07-01T00:00:00Z";
            post_replyParent := None; post_replyRoot := None |};
         {| post_uri := post_of carol "1"; post_cid := "cid-carol-1";
            post_creator := carol; post_indexedAt := "2023-07-02T00:00:00Z";
            post_replyParent := None; post_replyRoot := None |};
         {| post_uri := post_of dave "1"; post_cid := "cid-dave-1";
            post_creator := dave; post_indexedAt := "2023-07-03T00:00:00Z";
            post_replyParent := None; post_replyRoot := None |} ];
     post_agg := [];
     ipld_block :=
       [ {| ipld_cid := "cid-bob-1"; ipld_creator := bob; ipld_content := [] |};
         {| ipld_cid := "cid-carol-1"; ipld_creator := carol; ipld_content := [] |};
         {| ipld_cid := "cid-dave-1"; ipld_creator := dave; ipld_content := [] |} ];
     record :=
       [ {| record_uri := post_of bob "1"; record_takedownId := None |};
         {| record_uri := post_of carol "1"; record_takedownId := None |};
         {| record_uri := post_of dave "1"; record_takedownId := None |} ];
     repost := [];
     like := [];
     feed_generator := [] |}.

Definition bob1 : string := post_of bob "1".
Definition carol1 : string := post_of carol "1".
Definition dave1 : string := post_of dave "1".

(** A post of alice that quotes the post at [uri]. *)
Definition quote_of (uri cid : string) : PostRecord :=
  {| text := "look at this";
     createdAt := "2023-07-04T00:00:00Z";
     embed := Some (EmbedRecord {| ref_uri := uri; ref_cid := cid |}) |}.

Definition picture : PostRecord :=
  {| text := "a picture";
     createdAt := "2023-07-04T00:00:00Z";
     embed := Some (EmbedImages [ {| image_ref := "cid-img"; image_alt := "" |} ]) |}.

(** A display name of 67 bytes: 62 letters, U+1F600 (a surrogate pair, four
    bytes), one letter. *)
Definition name67 : Utf8.jsstring :=
  (repeat 0x61%Z 62 ++ [0xD83D; 0xDE00; 0x62]%Z)%list.

(** A display name of 70 bytes: 58 letters, U+FFFD twice, 6 letters. *)
Definition name70 : Utf8.jsstring :=
  (repeat 0x61%Z 58 ++ [0xFFFD; 0xFFFD]%Z ++ repeat 0x62%Z 6)%list.

End Demo.

(* ================================================================== *)
(** * A second instance: a feed generator and a thread                 *)
(* ================================================================== *)

Module GeneratorDemo.
Import Demo FeedService.
Local Open Scope string_scope.

(** A feed generator of bob. *)
Definition hot_feed : string :=
  "at://did:example:bob/app.bsky.feed.generator/hot".

(** The demo database with the generator, two likes of it, a follow and
    a mute. *)
Definition demo_db_gen : Database :=
  {| did_handle := did_handle demo_db;
     repo_root := repo_root demo_db;
     profile := profile demo_db;
     follow :=
       [ {| follow_uri := "at://did:example:alice/app.bsky.graph.follow/1";
            follow_creator := alice; follow_subjectDid := bob |} ];
     actor_block := actor_block demo_db;
     mute := [ {| mute_did := carol; mute_mutedByDid := alice |} ];
     post := post demo_db;
     post_agg :=
       [ {| agg_uri := bob1; agg_likeCount := 2; agg_repostCount := 0;
            agg_replyCount := 1 |} ];
     ipld_block := ipld_block demo_db;
     record :=
       {| record_uri := hot_feed; record_takedownId := None |}
         :: record demo_db;
     repost := [];
     like :=
       [ {| like_uri := "at://did:example:alice/app.bsky.feed.like/1";
            like_creator := alice; like_subject := hot_feed |};
         {| like_uri := "at://did:example:carol/app.bsky.feed.like/1";
            like_creator := carol; like_subject := hot_feed |} ];
     feed_generator :=
       [ {| fg_uri := hot_feed; fg_cid := "cid-hot"; fg_creator := bob;
            fg_feedDid := "did:web:gen.example" |} ] |}.

End GeneratorDemo.

Module PluginDemo.
Import Demo PostPlugin.
Local Open Scope string_scope.

(** Alice answers bob's answer to carol, in a thread in which she had
    answered before; she mentions dave and herself and adds a link. *)
Definition demo_reply : Post :=
  {| uri := post_of alice "r";
     cid := "cid-alice-r";
     creator := alice;
     text := "thanks";
     createdAt := "2023-07-05T00:00:00Z";
     replyRoot := Some (post_of carol "1");
     replyRootCid := Some "cid-carol-1";
     replyParent := Some (post_of bob "2");
     replyParentCid := Some "cid-bob-2";
     indexedAt := "2023-07-05T00:00:01Z" |}.

Definition demo_ancestors : list PostHierarchy :=
  [ {| ph_uri := post_of alice "r"; ancestorUri := post_of carol "1"; depth := 4 |};
    {| ph_uri := post_of alice "r"; ancestorUri := post_of bob "1"; depth := 3 |};
    {| ph_uri := post_of alice "r"; ancestorUri := post_of alice "q"; depth := 2 |};
    {| ph_uri := post_of alice "r"; ancestorUri := post_of bob "2"; depth := 1 |} ].

Definition demo_indexed : IndexedPost :=
  {| post := demo_reply;
     facets :=
       [ {| facet_type := Mention; facet_value := dave |};
         {| facet_type := Link; facet_value := "https://example.com" |};
         {| facet_type := Mention; facet_value := alice |} ];
     embed := None;
     ancestors := demo_ancestors |}.

Definition demo_tables : Tables :=
  {| tbl_post := [demo_reply];
     tbl_post_embed_image := [];
     tbl_post_embed_external :=
       [ {| pee_postUri := post_of alice "r";
            pee_uri := "https://example.com";
            title := "example"; description := ""; thumbCid := None |} ];
     tbl_post_embed_record := [];
     tbl_post_hierarchy :=
       {| ph_uri := post_of alice "r"; ancestorUri := post_of alice "r";
          depth := 0 |} :: demo_ancestors |}.

End PluginDemo.

(* ================================================================== *)
(** * Properties                                                        *)
(* ================================================================== *)

Module Utf8Facts.
Import Utf8.
Local Open Scope Z_scope.

(** ** Bit operations as arithmetic *)

Lemma land_shiftl_small (x y k : Z) :
  0 <= k -> 0 <= y < 2 ^ k -> Z.land (Z.shiftl x k) y = 0.
Proof.
  intros Hk Hy. apply Z.bits_inj'. intros n Hn.
  rewrite Z.land_spec, Z.bits_0.
  destruct (Z.ltb_spec n k) as [Hlt | Hge].
  - rewrite Z.shiftl_spec_low by lia. reflexivity.
  - rewrite <- (Z.mod_small y (2 ^ k)) by lia.
    rewrite Z.mod_pow2_bits_high by lia. apply andb_false_r.
Qed.

Lemma lor_shiftl_small (x y k : Z) :
  0 <= k -> 0 <= y < 2 ^ k -> Z.lor (Z.shiftl x k) y = x * 2 ^ k + y.
Proof.
  intros Hk Hy.
  rewrite <- Z.add_nocarry_lor by (apply land_shiftl_small; lia).
  rewrite Z.shiftl_mul_pow2 by lia. reflexivity.
Qed.

Lemma land_low6 (x : Z) : Z.land x 0x3F = x mod 64.
Proof. change 0x3F with (Z.ones 6). rewrite Z.land_ones by lia. reflexivity. Qed.

Lemma land_low5 (x : Z) : Z.land x 0x1F = x mod 32.
Proof. change 0x1F with (Z.ones 5). rewrite Z.land_ones by lia. reflexivity. Qed.

Lemma land_low4 (x : Z) : Z.land x 0xF = x mod 16.
Proof. change 0xF with (Z.ones 4). rewrite Z.land_ones by lia. reflexivity. Qed.

Lemma land_low3 (x : Z) : Z.land x 0x7 = x mod 8.
Proof. change 0x7 with (Z.ones 3). rewrite Z.land_ones by lia. reflexivity. Qed.

Lemma land_low10 (x : Z) : Z.land x 0x3FF = x mod 1024.
Proof. change 0x3FF with (Z.ones 10). rewrite Z.land_ones by lia. reflexivity. Qed.

Lemma continuation_byte (x : Z) : Z.lor 0x80 (Z.land x 0x3F) = 128 + x mod 64.
Proof.
  rewrite land_low6. change 0x80 with (Z.shiftl 2 6).
  rewrite lor_shiftl_small; [reflexivity | lia | ].
  change (2 ^ 6) with 64. apply Z.mod_pos_bound. lia.
Qed.

Lemma shift_in (cp b : Z) :
  Z.lor (Z.shiftl cp 6) (Z.land b 0x3F) = cp * 64 + b mod 64.
Proof.
  rewrite land_low6, lor_shiftl_small; [reflexivity | lia | ].
  change (2 ^ 6) with 64. apply Z.mod_pos_bound. lia.
Qed.

Lemma shiftr6 (c : Z) : Z.shiftr c 6 = c / 64.
Proof. rewrite Z.shiftr_div_pow2 by lia. reflexivity. Qed.
Lemma shiftr12 (c : Z) : Z.shiftr c 12 = c / 4096.
Proof. rewrite Z.shiftr_div_pow2 by lia. reflexivity. Qed.
Lemma shiftr18 (c : Z) : Z.shiftr c 18 = c / 262144.
Proof. rewrite Z.shiftr_div_pow2 by lia. reflexivity. Qed.
Lemma shiftr10 (c : Z) : Z.shiftr c 10 = c / 1024.
Proof. rewrite Z.shiftr_div_pow2 by lia. reflexivity. Qed.

(** The encoder in arithmetic form. *)
Lemma encode_cp_arith (c : Z) :
  encode_cp c =
    if c <=? 0x7F then [c]
    else if c <=? 0x7FF then [c / 64 + 192; 128 + c mod 64]
    else if c <=? 0xFFFF then
      [c / 4096 + 224; 128 + (c / 64) mod 64; 128 + c mod 64]
    else [c / 262144 + 240; 128 + (c / 4096) mod 64;
          128 + (c / 64) mod 64; 128 + c mod 64].
Proof.
  unfold encode_cp.
  rewrite !continuation_byte, shiftr6, shiftr12, shiftr18. reflexivity.
Qed.

Lemma handle_arith (st : DecState) (b : Z) :
  handle st b =
    if bytes_needed st =? 0 then lead b
    else if negb ((lower_boundary st <=? b) && (b <=? upper_boundary st)) then
      let '(st', out) := lead b in (st', REPLACEMENT :: out)
    else
      let cp := code_point st * 64 + b mod 64 in
      let seen := bytes_seen st + 1 in
      if seen =? bytes_needed st then (dec_init, [cp])
      else (mkDec cp seen (bytes_needed st) 0x80 0xBF, []).
Proof. unfold handle. rewrite shift_in. reflexivity. Qed.

Lemma lead_arith (b : Z) :
  lead b =
    if (0x00 <=? b) && (b <=? 0x7F) then (dec_init, [b])
    else if (0xC2 <=? b) && (b <=? 0xDF) then
      (mkDec (b mod 32) 0 1 0x80 0xBF, [])
    else if (0xE0 <=? b) && (b <=? 0xEF) then
      (mkDec (b mod 16) 0 2
         (if b =? 0xE0 then 0xA0 else 0x80)
         (if b =? 0xED then 0x9F else 0xBF), [])
    else if (0xF0 <=? b) && (b <=? 0xF4) then
      (mkDec (b mod 8) 0 3
         (if b =? 0xF0 then 0x90 else 0x80)
         (if b =? 0xF4 then 0x8F else 0xBF), [])
    else (dec_init, [REPLACEMENT]).
Proof. unfold lead. rewrite land_low5, land_low4, land_low3. reflexivity. Qed.


Ltac zbool :=
  repeat (match goal with
  | |- context [Z.leb ?a ?b] => destruct (Z.leb_spec a b); try lia
  | |- context [Z.ltb ?a ?b] => destruct (Z.ltb_spec a b); try lia
  | |- context [Z.eqb ?a ?b] => destruct (Z.eqb_spec a b); try lia
  end; cbn [andb negb orb bytes_needed bytes_seen code_point lower_boundary
            upper_boundary dec_init]).

Ltac decode_steps :=
  cbn [run app]; rewrite ?handle_arith;
  cbn [bytes_needed bytes_seen code_point lower_boundary upper_boundary dec_init];
  rewrite ?lead_arith.

Lemma mod_offset (x k m q : Z) :
  k = q * m -> 0 <= x < m -> (x + k) mod m = x /\ (k + x) mod m = x.
Proof.
  intros -> H. rewrite (Z.add_comm (q * m)), Z.mod_add by lia.
  rewrite Z.mod_small by lia. auto.
Qed.


Lemma handle_init (b : Z) : handle dec_init b = lead b.
Proof. reflexivity. Qed.

Lemma lead_1 (c : Z) : 0 <= c <= 0x7F -> lead c = (dec_init, [c]).
Proof. intros H. rewrite lead_arith. zbool. reflexivity. Qed.

Lemma lead_2 (a : Z) : 2 <= a < 32 -> lead (a + 192) = (mkDec a 0 1 0x80 0xBF, []).
Proof.
  intros H. rewrite lead_arith.
  rewrite (proj1 (mod_offset a 192 32 6 eq_refl ltac:(lia))).
  zbool. reflexivity.
Qed.

Lemma lead_3 (a : Z) : 0 <= a < 16 ->
  lead (a + 224) =
    (mkDec a 0 2 (if a =? 0 then 0xA0 else 0x80) (if a =? 13 then 0x9F else 0xBF), []).
Proof.
  intros H. rewrite lead_arith.
  rewrite (proj1 (mod_offset a 224 16 14 eq_refl ltac:(lia))).
  zbool; reflexivity.
Qed.

Lemma lead_4 (a : Z) : 0 <= a <= 4 ->
  lead (a + 240) =
    (mkDec a 0 3 (if a =? 0 then 0x90 else 0x80) (if a =? 4 then 0x8F else 0xBF), []).
Proof.
  intros H. rewrite lead_arith.
  rewrite (proj1 (mod_offset a 240 8 30 eq_refl ltac:(lia))).
  zbool; reflexivity.
Qed.

(** A continuation byte within the bounds is shifted into the code point. *)
Lemma handle_continuation (cp seen needed lo hi x : Z) :
  0 <= x < 64 -> needed <> 0 -> lo <= 128 + x <= hi ->
  handle (mkDec cp seen needed lo hi) (128 + x) =
    if seen + 1 =? needed
    then (dec_init, [cp * 64 + x])
    else (mkDec (cp * 64 + x) (seen + 1) needed 0x80 0xBF, []).
Proof.
  intros Hx Hn Hbd. rewrite handle_arith.
  cbn [bytes_needed bytes_seen code_point lower_boundary upper_boundary].
  rewrite (proj2 (mod_offset x 128 64 2 eq_refl ltac:(lia))).
  destruct (Z.eqb_spec needed 0); [lia|].
  destruct (Z.leb_spec lo (128 + x)); [|lia].
  destruct (Z.leb_spec (128 + x) hi); [|lia].
  reflexivity.
Qed.

Lemma handle_cont_last (cp seen needed lo hi x : Z) :
  0 <= x < 64 -> needed <> 0 -> lo <= 128 + x <= hi -> seen + 1 = needed ->
  handle (mkDec cp seen needed lo hi) (128 + x) = (dec_init, [cp * 64 + x]).
Proof.
  intros. rewrite handle_continuation by assumption.
  destruct (Z.eqb_spec (seen + 1) needed); [reflexivity | lia].
Qed.

Lemma handle_cont_more (cp seen needed lo hi x : Z) :
  0 <= x < 64 -> needed <> 0 -> lo <= 128 + x <= hi -> seen + 1 <> needed ->
  handle (mkDec cp seen needed lo hi) (128 + x) =
    (mkDec (cp * 64 + x) (seen + 1) needed 0x80 0xBF, []).
Proof.
  intros. rewrite handle_continuation by assumption.
  destruct (Z.eqb_spec (seen + 1) needed); [lia | reflexivity].
Qed.

Lemma encode_cp_encoded (c : Z) : is_scalar c -> encoded c (encode_cp c).
Proof.
  intros [Hc Hs]. rewrite encode_cp_arith.
  destruct (Z.leb_spec c 0x7F); [constructor; lia|].
  destruct (Z.leb_spec c 0x7FF).
  { replace c with (c / 64 * 64 + c mod 64) at 1 by (Z.div_mod_to_equations; lia).
    constructor; Z.div_mod_to_equations; lia. }
  destruct (Z.leb_spec c 0xFFFF).
  { replace c with ((c / 4096 * 64 + (c / 64) mod 64) * 64 + c mod 64) at 1
      by (Z.div_mod_to_equations; lia).
    constructor; Z.div_mod_to_equations; lia. }
  replace c with
    (((c / 262144 * 64 + (c / 4096) mod 64) * 64 + (c / 64) mod 64) * 64 + c mod 64) at 1
    by (Z.div_mod_to_equations; lia).
  constructor; Z.div_mod_to_equations; lia.
Qed.

Ltac step_lead :=
  cbn [run app]; rewrite handle_init;
  first [ rewrite lead_1 by lia | rewrite lead_2 by lia
        | rewrite lead_3 by lia | rewrite lead_4 by lia ];
  cbn [app].

Ltac step_cont :=
  cbn [run app];
  first [ rewrite handle_cont_last by (zbool; lia)
        | rewrite handle_cont_more by (zbool; lia) ];
  cbn [app].

Lemma run_encoded (c : Z) (bytes rest : list Z) :
  encoded c bytes -> run dec_init (bytes ++ rest) = c :: run dec_init rest.
Proof.
  intros H. destruct H.
  - step_lead. reflexivity.
  - step_lead. step_cont. reflexivity.
  - step_lead. step_cont. step_cont. reflexivity.
  - step_lead. step_cont. step_cont. step_cont. reflexivity.
Qed.


Lemma run_truncated (c : Z) (bytes : list Z) (k : nat) :
  encoded c bytes -> (0 < k < length bytes)%nat ->
  run dec_init (firstn k bytes) = [REPLACEMENT].
Proof.
  intros H Hk.
  destruct H; cbn [length] in Hk;
    destruct k as [|[|[|[|k]]]]; try lia; cbn [firstn];
    step_lead; repeat step_cont; reflexivity.
Qed.

Lemma encoded_length (c : Z) (bytes : list Z) :
  encoded c bytes -> (1 <= length bytes <= 4)%nat.
Proof. intros H. destruct H; cbn [length]; lia. Qed.

Lemma encode_cp_length (c : Z) :
  is_scalar c -> (1 <= length (encode_cp c) <= 4)%nat.
Proof. intros H. eapply encoded_length, encode_cp_encoded, H. Qed.

(** Decoding undoes encoding, code point by code point. *)
Lemma utf8_decode_encode_app (cps : list Z) (rest : list Z) :
  Forall is_scalar cps ->
  utf8_decode (utf8_encode cps ++ rest) = cps ++ utf8_decode rest.
Proof.
  unfold utf8_decode, utf8_encode.
  induction 1 as [|c cps Hc _ IH]; [reflexivity|].
  cbn [flat_map]. rewrite <- app_assoc.
  rewrite (run_encoded c) by (apply encode_cp_encoded, Hc).
  rewrite IH. reflexivity.
Qed.

Lemma utf8_decode_encode (cps : list Z) :
  Forall is_scalar cps -> utf8_decode (utf8_encode cps) = cps.
Proof.
  intros H. rewrite <- (app_nil_r (utf8_encode cps)).
  rewrite utf8_decode_encode_app by assumption. apply app_nil_r.
Qed.

Lemma firstn_utf8_encode (cps : list Z) : forall n : nat,
  exists P Q p,
    cps = P ++ Q /\
    firstn n (utf8_encode cps) = utf8_encode P ++ p /\
    cut_tail Q p.
Proof.
  induction cps as [|c cps IH]; intros n.
  - exists [], [], []. rewrite firstn_nil. repeat split. constructor.
  - cbn [utf8_encode flat_map]. fold (utf8_encode cps).
    destruct (Nat.le_gt_cases (length (encode_cp c)) n) as [Hle | Hlt].
    + destruct (IH (n - length (encode_cp c))%nat) as (P & Q & p & -> & Hf & Hcut).
      exists (c :: P), Q, p. split; [reflexivity|]. split; [|assumption].
      rewrite firstn_app, firstn_all2 by assumption.
      rewrite Hf. cbn [utf8_encode flat_map]. rewrite app_assoc. reflexivity.
    + destruct n as [|n].
      * exists [], (c :: cps), []. repeat split. constructor.
      * exists [], (c :: cps), (firstn (S n) (encode_cp c)).
        split; [reflexivity|]. split; [|constructor; lia].
        rewrite firstn_app.
        replace (S n - length (encode_cp c))%nat with 0%nat by lia.
        rewrite firstn_O, app_nil_r. reflexivity.
Qed.

Lemma utf8_decode_cut (P Q p : list Z) :
  Forall is_scalar (P ++ Q) -> cut_tail Q p ->
  utf8_decode (utf8_encode P ++ p) =
    P ++ (match p with [] => [] | _ => [REPLACEMENT] end).
Proof.
  intros Hs Hcut. apply Forall_app in Hs as [HP HQ].
  rewrite utf8_decode_encode_app by assumption. f_equal.
  destruct Hcut as [Q | c Q k Hk]; [reflexivity|].
  apply Forall_cons in HQ as [Hc _].
  unfold utf8_decode.
  rewrite (run_truncated c) by (auto using encode_cp_encoded).
  destruct (firstn k (encode_cp c)) eqn:E; [|reflexivity].
  apply (f_equal (@length Z)) in E. rewrite length_firstn in E.
  cbn in E. lia.
Qed.


(** ** UTF-16 *)

Lemma pair_induction {A : Type} (P : list A -> Prop) :
  P [] -> (forall x, P [x]) ->
  (forall x y l, P l -> P (y :: l) -> P (x :: y :: l)) ->
  forall l, P l.
Proof.
  intros H0 H1 H2 l.
  enough (P l /\ forall x, P (x :: l)) by tauto.
  induction l as [|y l [IH1 IH2]]; split; auto.
Qed.

Lemma REPLACEMENT_scalar : is_scalar REPLACEMENT.
Proof. unfold is_scalar, REPLACEMENT. lia. Qed.

Lemma wf_jsstring_Forall (s : jsstring) :
  wf_jsstring s -> Forall (fun u => 0 <= u < 0x10000) s.
Proof.
  unfold wf_jsstring. rewrite forallb_forall, List.Forall_forall.
  intros H u Hu. specialize (H u Hu). unfold is_code_unit in H.
  apply andb_true_iff in H as [H1 H2]. lia.
Qed.

Lemma to_scalars_scalar (s : jsstring) :
  wf_jsstring s -> Forall is_scalar (to_scalars s).
Proof.
  intros Hwf%wf_jsstring_Forall. revert Hwf.
  induction s as [| u | u v s IH1 IH2] using pair_induction; intros Hwf.
  - constructor.
  - apply Forall_cons in Hwf as [Hu _].
    cbn [to_scalars]. unfold is_high_surrogate, is_low_surrogate.
    zbool; (constructor; [|constructor]);
      first [apply REPLACEMENT_scalar | unfold is_scalar; lia].
  - pose proof Hwf as Hwf'.
    apply Forall_cons in Hwf as [Hu Hwf]. pose proof (IH2 Hwf) as IHv.
    apply Forall_cons in Hwf as [Hv Hwf]. pose proof (IH1 Hwf) as IHs.
    change (to_scalars (u :: v :: s)) with
      (if is_high_surrogate u then
         if is_low_surrogate v
         then (0x10000 + (u - 0xD800) * 0x400 + (v - 0xDC00)) :: to_scalars s
         else REPLACEMENT :: to_scalars (v :: s)
       else if is_low_surrogate u then REPLACEMENT :: to_scalars (v :: s)
       else u :: to_scalars (v :: s)).
    unfold is_high_surrogate at 1. unfold is_low_surrogate at 1 2.
    zbool; (constructor; [|assumption]);
      first [apply REPLACEMENT_scalar | unfold is_scalar; lia].
Qed.

Lemma units_of_arith (c : Z) :
  units_of c =
    if c <? 0x10000 then [c]
    else [0xD800 + (c - 0x10000) / 1024; 0xDC00 + (c - 0x10000) mod 1024].
Proof. unfold units_of. rewrite shiftr10, land_low10. reflexivity. Qed.

Lemma to_scalars_units_of (c : Z) (s : jsstring) :
  is_scalar c -> to_scalars (units_of c ++ s) = c :: to_scalars s.
Proof.
  intros [Hc Hs]. rewrite units_of_arith.
  destruct (Z.ltb_spec c 0x10000).
  - cbn [app to_scalars]. unfold is_high_surrogate, is_low_surrogate.
    zbool; try reflexivity; destruct s; reflexivity.
  - cbn [app to_scalars]. unfold is_high_surrogate, is_low_surrogate.
    assert (0 <= (c - 0x10000) / 1024 < 1024) by (Z.div_mod_to_equations; lia).
    assert (0 <= (c - 0x10000) mod 1024 < 1024) by (Z.div_mod_to_equations; lia).
    zbool. f_equal. Z.div_mod_to_equations; lia.
Qed.

Lemma to_from_scalars (cps : list Z) :
  Forall is_scalar cps -> to_scalars (from_scalars cps) = cps.
Proof.
  unfold from_scalars. induction 1 as [|c cps Hc _ IH]; [reflexivity|].
  cbn [flat_map]. rewrite to_scalars_units_of by assumption. congruence.
Qed.

(** The pattern [/\uFFFD$/] looks at one code unit; on a well-formed string
    that unit is a whole code point. *)
Lemma replace_trailing_from_scalars (cps : list Z) :
  Forall is_scalar cps ->
  replace_trailing_FFFD (from_scalars cps) =
    from_scalars (replace_trailing_FFFD cps).
Proof.
  unfold from_scalars.
  destruct cps as [|c0 cps0] using rev_ind; [reflexivity|]. clear IHcps0.
  intros Hs. apply Forall_app in Hs as [_ Hc].
  apply Forall_cons in Hc as [[Hc Hsur] _].
  unfold replace_trailing_FFFD at 2. rewrite last_snoc, removelast_last.
  rewrite flat_map_app. cbn [flat_map]. rewrite app_nil_r, units_of_arith.
  unfold replace_trailing_FFFD, REPLACEMENT.
  destruct (Z.ltb_spec c0 0x10000).
  - rewrite last_snoc, removelast_last.
    destruct (Z.eqb_spec c0 0xFFFD); [reflexivity|].
    rewrite flat_map_app. cbn [flat_map]. rewrite app_nil_r, units_of_arith.
    destruct (Z.ltb_spec c0 0x10000); [reflexivity | lia].
  - assert (0 <= (c0 - 0x10000) mod 1024 < 1024) by (Z.div_mod_to_equations; lia).
    change [?x; ?y] with ([x] ++ [y]). rewrite app_assoc, last_snoc.
    destruct (Z.eqb_spec (0xDC00 + (c0 - 0x10000) mod 1024) 0xFFFD); [lia|].
    destruct (Z.eqb_spec c0 0xFFFD); [lia|].
    rewrite flat_map_app. cbn [flat_map]. rewrite app_nil_r, units_of_arith.
    destruct (Z.ltb_spec c0 0x10000); [lia|]. rewrite <- app_assoc. reflexivity.
Qed.


Lemma last_to_scalars (s : jsstring) (u : Z) :
  last s = Some u -> is_high_surrogate u = false -> is_low_surrogate u = false ->
  last (to_scalars s) = Some u.
Proof.
  intros Hl Hh Hlo. revert Hl.
  induction s as [| x | x y s IH1 IH2] using pair_induction; intros Hl.
  - discriminate.
  - cbn in Hl. injection Hl as ->. cbn [to_scalars]. rewrite Hh, Hlo. reflexivity.
  - change (last (x :: y :: s)) with (last (y :: s)) in Hl.
    specialize (IH2 Hl).
    change (to_scalars (x :: y :: s)) with
      (if is_high_surrogate x then
         if is_low_surrogate y
         then (0x10000 + (x - 0xD800) * 0x400 + (y - 0xDC00)) :: to_scalars s
         else REPLACEMENT :: to_scalars (y :: s)
       else if is_low_surrogate x then REPLACEMENT :: to_scalars (y :: s)
       else x :: to_scalars (y :: s)).
    assert (forall z, last (z :: to_scalars (y :: s)) = Some u) as Hz.
    { intros z. destruct (to_scalars (y :: s)); [discriminate | exact IH2]. }
    destruct (is_high_surrogate x); [|destruct (is_low_surrogate x); apply Hz].
    destruct (is_low_surrogate y) eqn:Hy; [|apply Hz].
    destruct s as [|z s].
    + cbn in Hl. injection Hl as ->. congruence.
    + change (last (y :: z :: s)) with (last (z :: s)) in Hl.
      specialize (IH1 Hl). destruct (to_scalars (z :: s)); [discriminate | exact IH1].
Qed.

Lemma ends_with_FFFD_scalars (s : jsstring) :
  last s = Some REPLACEMENT -> REPLACEMENT ∈ to_scalars s.
Proof.
  intros H. apply last_to_scalars in H; [|reflexivity..].
  apply last_Some in H as [l ->]. apply elem_of_app. right. constructor.
Qed.

Lemma replace_trailing_prefix (l : list Z) : replace_trailing_FFFD l `prefix_of` l.
Proof.
  unfold replace_trailing_FFFD. destruct (last l) as [u|] eqn:E; [|reflexivity].
  destruct (u =? REPLACEMENT); [|reflexivity].
  apply last_Some in E as [l' ->]. rewrite removelast_last. by eexists.
Qed.

Lemma strip_bom_snoc (P : list Z) :
  strip_bom (P ++ [REPLACEMENT]) = strip_bom P ++ [REPLACEMENT].
Proof.
  destruct P as [|c P]; [reflexivity|]. cbn [app strip_bom].
  destruct (c =? BOM); reflexivity.
Qed.

Lemma strip_bom_prefix (P Q : list Z) : strip_bom P `prefix_of` strip_bom (P ++ Q).
Proof.
  destruct P as [|c P]; [apply prefix_nil|]. cbn [app strip_bom].
  destruct (c =? BOM); by eexists.
Qed.

Lemma strip_bom_incl (P : list Z) : strip_bom P = P \/ exists c, P = c :: strip_bom P.
Proof.
  destruct P as [|c P]; [by left|]. cbn [strip_bom].
  destruct (c =? BOM); eauto.
Qed.

Lemma Forall_strip_bom (R : Z -> Prop) (P : list Z) :
  Forall R P -> Forall R (strip_bom P).
Proof.
  intros H. destruct (strip_bom_incl P) as [-> | [c Hc]]; [assumption|].
  rewrite Hc in H. by apply Forall_cons in H as [_ H].
Qed.

Lemma utf8_encode_app (P Q : list Z) :
  utf8_encode (P ++ Q) = utf8_encode P ++ utf8_encode Q.
Proof. apply flat_map_app. Qed.

Lemma utf8_encode_prefix_length (P Q : list Z) :
  P `prefix_of` Q -> (length (utf8_encode P) <= length (utf8_encode Q))%nat.
Proof. intros [k ->]. rewrite utf8_encode_app, length_app. lia. Qed.

Lemma utf8_encode_strip_bom_length (P : list Z) :
  (length (utf8_encode (strip_bom P)) <= length (utf8_encode P))%nat.
Proof.
  destruct (strip_bom_incl P) as [-> | [c Hc]]; [lia|].
  rewrite Hc at 2. change (c :: ?l) with ([c] ++ l).
  rewrite utf8_encode_app, length_app. lia.
Qed.

(** What the truncating branch returns, in code points: the whole code
    points that fit, less a leading U+FEFF, less one trailing U+FFFD. *)
Lemma truncated_scalars (s : jsstring) (n : nat) :
  wf_jsstring s -> (n < length (TextEncoder_encode s))%nat ->
  exists Y : list Z,
    replace_trailing_FFFD (TextDecoder_decode (firstn n (TextEncoder_encode s)))
      = from_scalars Y /\
    Forall is_scalar Y /\
    Y `prefix_of` strip_bom (to_scalars s) /\
    (length (utf8_encode Y) <= n)%nat.
Proof.
  intros Hwf Hlen. unfold TextEncoder_encode in *.
  pose proof (to_scalars_scalar s Hwf) as Hs.
  destruct (firstn_utf8_encode (to_scalars s) n) as (P & Q & p & HPQ & Hf & Hcut).
  assert (length (utf8_encode P) <= n)%nat as HlenP.
  { apply (f_equal (@length Z)) in Hf.
    rewrite length_firstn, length_app in Hf. lia. }
  rewrite HPQ in Hs. pose proof Hs as HsP. apply Forall_app in HsP as [HsP _].
  unfold TextDecoder_decode. rewrite Hf, (utf8_decode_cut P Q p Hs Hcut).
  set (tail := match p with [] => [] | _ => [REPLACEMENT] end).
  assert (tail = [] \/ tail = [REPLACEMENT]) as [-> | ->]
    by (subst tail; destruct p; auto).
  - rewrite app_nil_r.
    pose proof (Forall_strip_bom _ _ HsP) as HsX.
    rewrite replace_trailing_from_scalars by assumption.
    pose proof (replace_trailing_prefix (strip_bom P)) as Hpre.
    exists (replace_trailing_FFFD (strip_bom P)). split; [reflexivity|].
    split; [|split].
    + destruct Hpre as [k Hk]. rewrite Hk in HsX. by apply Forall_app in HsX as [? _].
    + rewrite HPQ. etrans; [exact Hpre | apply strip_bom_prefix].
    + pose proof (utf8_encode_prefix_length _ _ Hpre).
      pose proof (utf8_encode_strip_bom_length P). lia.
  - rewrite strip_bom_snoc.
    pose proof (Forall_strip_bom _ _ HsP) as HsX.
    rewrite replace_trailing_from_scalars
      by (apply Forall_app; split; [assumption | repeat constructor; apply REPLACEMENT_scalar]).
    unfold replace_trailing_FFFD. rewrite last_snoc, removelast_last.
    change (REPLACEMENT =? REPLACEMENT) with true. cbn iota.
    exists (strip_bom P). split; [reflexivity|]. split; [assumption|]. split.
    + rewrite HPQ. apply strip_bom_prefix.
    + pose proof (utf8_encode_strip_bom_length P). lia.
Qed.

(** The result fits the budget. *)
Lemma truncateUtf8_length (s r : jsstring) (N : nat) :
  wf_jsstring s -> truncateUtf8 (Some s) N = Some r ->
  (length (TextEncoder_encode r) <= N)%nat.
Proof.
  intros Hwf. unfold truncateUtf8. destruct s as [|u s'].
  { intros [= <-]. cbn. lia. }
  set (s := u :: s') in *. cbv zeta.
  destruct (Nat.ltb_spec N (length (TextEncoder_encode s))) as [Hlt | Hge].
  - destruct (truncated_scalars s N Hwf Hlt) as (Y & -> & HsY & _ & Hlen).
    intros [= <-]. unfold TextEncoder_encode.
    by rewrite to_from_scalars.
  - by intros [= <-].
Qed.

(** C6 (amended). For every well-formed string [s] and byte budget [N],
    [truncateUtf8(s, N)] returns a string [r] whose UTF-8 encoding has at
    most [N] bytes; [r] consists of whole code points of [s]: its code
    points are a prefix of those of [s], or of those of [s] after its
    leading U+FEFF, which the decoder drops; [r] does not end in U+FFFD
    provided [s] has no U+FFFD and no lone surrogate; and a string whose
    encoding already has at most [N] bytes is returned unchanged. *)
Theorem truncateUtf8_spec (s : jsstring) (N : nat) :
  wf_jsstring s ->
  exists r : jsstring,
    truncateUtf8 (Some s) N = Some r /\
    (length (TextEncoder_encode r) <= N)%nat /\
    (to_scalars r `prefix_of` to_scalars s \/
     to_scalars r `prefix_of` strip_bom (to_scalars s)) /\
    (REPLACEMENT ∉ to_scalars s -> last r <> Some REPLACEMENT) /\
    ((length (TextEncoder_encode s) <= N)%nat -> r = s).
Proof.
  intros Hwf.
  assert (forall r : jsstring,
    (to_scalars r `prefix_of` to_scalars s \/
     to_scalars r `prefix_of` strip_bom (to_scalars s)) ->
    REPLACEMENT ∉ to_scalars s -> last r <> Some REPLACEMENT) as Hclean.
  { intros r Hpre Hno Hl. apply Hno. apply ends_with_FFFD_scalars in Hl.
    destruct Hpre as [[k Hk] | [k Hk]].
    - rewrite Hk. apply elem_of_app. by left.
    - destruct (strip_bom_incl (to_scalars s)) as [E | [c E]].
      + rewrite <- E, Hk. apply elem_of_app. by left.
      + rewrite E, Hk. right. apply elem_of_app. by left. }
  unfold truncateUtf8. destruct s as [|u s'].
  { exists []. split; [reflexivity|]. split; [cbn; lia|].
    split; [by left|]. split; [|reflexivity]. intros _. discriminate. }
  set (s := u :: s') in *. cbv zeta.
  destruct (Nat.ltb_spec N (length (TextEncoder_encode s))) as [Hlt | Hge].
  - destruct (truncated_scalars s N Hwf Hlt) as (Y & -> & HsY & Hpre & Hlen).
    exists (from_scalars Y). split; [reflexivity|].
    assert (to_scalars (from_scalars Y) = Y) as HY by (by apply to_from_scalars).
    split; [unfold TextEncoder_encode; by rewrite HY|].
    split; [right; by rewrite HY|].
    split; [apply Hclean; right; by rewrite HY | lia].
  - exists s. split; [reflexivity|]. split; [assumption|].
    split; [by left|]. split; [apply Hclean; by left | reflexivity].
Qed.


End Utf8Facts.

Module GetFeedFacts.
Import GetFeed.

Section Facts.
Context {HydrationState FeedViewPost Identity : Type}.
Context `{ctx : Ctx HydrationState FeedViewPost Identity}.

Lemma lookup_obj_set {V : Type} (k : string) (v : option V) (o : gmap string V) :
  obj_set k v o !! k = v.
Proof.
  destruct v; cbn; [apply lookup_insert_eq | apply lookup_delete_eq].
Qed.

Lemma lookup_obj_set_ne {V : Type} (k k' : string) (v : option V)
    (o : gmap string V) :
  k <> k' -> obj_set k v o !! k' = o !! k'.
Proof.
  intros Hne. destruct v; cbn;
    [by apply lookup_insert_ne | by apply lookup_delete_ne].
Qed.

Lemma noBlocksOrMutes_frame (sk : Skeleton) (h : HydrationState) :
  cursor (noBlocksOrMutes sk h) = cursor sk /\
  passthrough (noBlocksOrMutes sk h) = passthrough sk /\
  resHeaders (noBlocksOrMutes sk h) = resHeaders sk.
Proof. by repeat split. Qed.

Lemma presentation_cursor (params : QueryParams) (sk : Skeleton)
    (h : HydrationState) :
  passthrough sk !! "cursor" = None ->
  out_body (presentation params sk h) !! "cursor" = BJson <$> cursor sk.
Proof.
  intros Hpt. cbn [presentation out_body].
  rewrite lookup_union_r by (by rewrite lookup_fmap, Hpt).
  apply lookup_obj_set.
Qed.

Lemma skeleton_passthrough (params : QueryParams)
    (headers : IncomingHttpHeaders) (t1 t2 : Z) (sk : Skeleton) :
  skeleton params headers t1 t2 = inr sk ->
  passthrough sk !! "cursor" = None /\
  exists algo, skeletonFromFeedGen params headers = inr algo /\
    cursor sk = algo_skele algo !! "cursor".
Proof.
  unfold skeleton. destruct (skeletonFromFeedGen params headers) as [e|algo];
    [discriminate|].
  intros [= <-]. cbn. split; [|eauto].
  rewrite lookup_delete_ne by done. apply lookup_delete_eq.
Qed.

Lemma pipeline_stages (params : QueryParams) (headers : IncomingHttpHeaders)
    (t1 t2 t3 : Z) (out : Output FeedViewPost) :
  pipeline params headers t1 t2 t3 = inr out ->
  exists sk : Skeleton,
    skeleton params headers t1 t2 = inr sk /\
    out = presentation params
            (noBlocksOrMutes (hydration sk t3).2 (hydration sk t3).1)
            (hydration sk t3).1.
Proof.
  unfold pipeline.
  destruct (skeleton params headers t1 t2) as [e|sk]; [discriminate|].
  cbn. intros [= <-]. by exists sk.
Qed.

(** The same for a whole request. *)
Lemma pipeline_cursor (params : QueryParams) (headers : IncomingHttpHeaders)
    (t1 t2 t3 : Z) (out : Output FeedViewPost) :
  pipeline params headers t1 t2 t3 = inr out ->
  exists sk : Skeleton,
    skeleton params headers t1 t2 = inr sk /\
    out_body out !! "cursor" = BJson <$> cursor sk.
Proof.
  intros (sk & Hsk & ->)%pipeline_stages. exists sk. split; [assumption|].
  apply skeleton_passthrough in Hsk as [Hpt _].
  by rewrite presentation_cursor.
Qed.

(** C3. When the skeleton stage succeeds, the [cursor] of the response
    body is the cursor the skeleton stage produced: the hydration stage
    and the rules stage leave [skeleton.cursor] as it is, and neither the
    filtering of [skeleton.items] nor the truncation to [limit] nor the
    spread of [passthrough] changes the [cursor] property. *)
Theorem cursor_unchanged (params : QueryParams) (headers : IncomingHttpHeaders)
    (t1 t2 t3 : Z) (sk : Skeleton) :
  skeleton params headers t1 t2 = inr sk ->
  let h := (hydration sk t3).1 in
  let hydrated := (hydration sk t3).2 in
  cursor hydrated = cursor sk /\
  cursor (noBlocksOrMutes hydrated h) = cursor sk /\
  out_body (presentation params (noBlocksOrMutes hydrated h) h) !! "cursor"
    = BJson <$> cursor sk.
Proof.
  intros Hsk. cbv zeta. split; [reflexivity|]. split; [reflexivity|].
  apply skeleton_passthrough in Hsk as [Hpt _].
  by rewrite presentation_cursor.
Qed.

(** C4. The [catch] block of [skeletonFromFeedGen] maps what the
    outbound call throws: an [UnknownFeedError] becomes an
    [InvalidRequestError] named UnknownFeed with the upstream message; any
    other [XRPCError] of status [Unknown] becomes the
    [UpstreamFailureError] "feed unavailable"; one of status
    [InvalidResponse] becomes the [UpstreamFailureError] named
    InvalidFeedResponse; every other error is thrown again as it is; and
    [skeletonFromFeedGen] fails with the mapped error. *)
Theorem upstream_error_taxonomy :
  (forall status message,
     mapUpstreamError (UnknownFeedError status message)
       = InvalidRequestError message (Some "UnknownFeed")) /\
  (forall error message,
     mapUpstreamError (XRPCError Unknown error message)
       = UpstreamFailureError "feed unavailable" None) /\
  (forall error message,
     mapUpstreamError (XRPCError InvalidResponse error message)
       = UpstreamFailureError "feed provided an invalid response"
           (Some "InvalidFeedResponse")) /\
  (forall status error message,
     status <> Unknown -> status <> InvalidResponse ->
     mapUpstreamError (XRPCError status error message)
       = RethrownUpstream (XRPCError status error message)) /\
  (forall description,
     mapUpstreamError (OtherError description)
       = RethrownUpstream (OtherError description)) /\
  (forall params headers fgEndpoint err,
     resolveEndpoint params = inr fgEndpoint ->
     getFeedSkeleton (outboundCall fgEndpoint params headers) = inl err ->
     skeletonFromFeedGen params headers = inl (mapUpstreamError err)).
Proof.
  repeat split; try done.
  - intros status error message H1 H2. by destruct status.
  - intros params headers fgEndpoint err Hep Hcall.
    unfold skeletonFromFeedGen. by rewrite Hep, Hcall.
Qed.

Lemma forwardedHeaders_lookup (headers : IncomingHttpHeaders) (k : string) :
  forwardedHeaders headers !! k =
    if decide (k = "x-bsky-topics") then
      match headers !! "x-bsky-topics" with
      | Some (HMulti vs) => Some (HSingle (String.concat "," vs))
      | other => other
      end
    else if decide (k = "accept-language") then headers !! "accept-language"
    else if decide (k = "authorization") then headers !! "authorization"
    else None.
Proof.
  unfold forwardedHeaders, noUndefinedVals. cbn [fold_left fst snd].
  repeat case_decide; subst;
    repeat (rewrite lookup_obj_set || rewrite lookup_obj_set_ne by done);
    done.
Qed.

(** C8. The headers of the outbound call are the three allow-listed
    ones: two requests whose headers agree on [authorization],
    [accept-language] and [x-bsky-topics] send the same headers and make
    the same outbound call, whatever their other headers are. *)
Theorem forwarded_headers_allow_list (h1 h2 : IncomingHttpHeaders) :
  h1 !! "authorization" = h2 !! "authorization" ->
  h1 !! "accept-language" = h2 !! "accept-language" ->
  h1 !! "x-bsky-topics" = h2 !! "x-bsky-topics" ->
  forwardedHeaders h1 = forwardedHeaders h2 /\
  dom (forwardedHeaders h1) ⊆ list_to_set allow_list /\
  (forall fgEndpoint params,
     outboundCall fgEndpoint params h1 = outboundCall fgEndpoint params h2) /\
  (forall params, skeletonFromFeedGen params h1 = skeletonFromFeedGen params h2).
Proof.
  intros Hauth Hlang Htopics.
  assert (forwardedHeaders h1 = forwardedHeaders h2) as Heq.
  { apply map_eq. intros k. rewrite !forwardedHeaders_lookup.
    by rewrite Hauth, Hlang, Htopics. }
  assert (forall fgEndpoint params,
    outboundCall fgEndpoint params h1 = outboundCall fgEndpoint params h2) as Hcall.
  { intros. unfold outboundCall. by rewrite Heq. }
  split; [exact Heq|]. split; [|split; [exact Hcall|]].
  - intros k Hk. apply elem_of_dom in Hk as [v Hv].
    rewrite forwardedHeaders_lookup in Hv. unfold allow_list.
    repeat case_decide; subst; try done; set_solver.
  - intros params. unfold skeletonFromFeedGen.
    destruct (resolveEndpoint params); [done|]. by rewrite Hcall.
Qed.

(** C5. [noBlocksOrMutes] is a function of the skeleton and the hydration
    state alone; it keeps exactly the items none of whose five flags
    (author blocked, author muted, originator blocked, originator muted,
    reply-ancestor author blocked) is set, in their original order, and
    leaves the cursor as it is; of three items whose second has a muted
    author or originator, the first and the third remain. *)
Theorem noBlocksOrMutes_filters (sk : Skeleton) (h : HydrationState) :
  let kept := items (noBlocksOrMutes sk h) in
  (forall item, item ∈ kept <->
     item ∈ items sk /\
     authorBlocked (feedItemBlocksAndMutes item h) = false /\
     authorMuted (feedItemBlocksAndMutes item h) = false /\
     originatorBlocked (feedItemBlocksAndMutes item h) = false /\
     originatorMuted (feedItemBlocksAndMutes item h) = false /\
     ancestorAuthorBlocked (feedItemBlocksAndMutes item h) = false) /\
  kept `sublist_of` items sk /\
  cursor (noBlocksOrMutes sk h) = cursor sk /\
  (forall postA postB postD,
     items sk = [postA; postB; postD] ->
     allowed (feedItemBlocksAndMutes postA h) = true ->
     authorMuted (feedItemBlocksAndMutes postB h) = true \/
       originatorMuted (feedItemBlocksAndMutes postB h) = true ->
     allowed (feedItemBlocksAndMutes postD h) = true ->
     kept = [postA; postD]).
Proof.
  cbn [noBlocksOrMutes items cursor]. split; [|split; [|split; [done|]]].
  - intros item. rewrite !list_elem_of_In, filter_In. unfold allowed.
    rewrite !andb_true_iff, !negb_true_iff. tauto.
  - induction (items sk) as [|x l IH]; cbn; [constructor|].
    destruct (allowed _); by constructor.
  - intros postA postB postD -> HA HB HD. cbn [List.filter].
    rewrite HA, HD.
    assert (allowed (feedItemBlocksAndMutes postB h) = false) as ->; [|done].
    unfold allowed. destruct HB as [-> | ->]; cbn;
      rewrite ?andb_false_r; done.
Qed.


End Facts.
End GetFeedFacts.

Module FeedServiceFacts.
Import FeedService.

(** ** Sets of strings *)

Lemma set_add_NoDup (x : string) (s : list string) :
  NoDup s -> NoDup (set_add x s).
Proof.
  intros Hs. unfold set_add. case_bool_decide; [assumption|].
  apply NoDup_app. split; [assumption|]. split; [|apply NoDup_singleton].
  intros y Hy ->%list_elem_of_singleton. contradiction.
Qed.

Lemma set_add_elem (x y : string) (s : list string) :
  y ∈ set_add x s <-> y = x \/ y ∈ s.
Proof.
  unfold set_add. case_bool_decide.
  - split; [auto|]. intros [-> | ?]; assumption.
  - rewrite elem_of_app, list_elem_of_singleton. tauto.
Qed.

Lemma dedupeStrs_NoDup (strs : list string) : NoDup (dedupeStrs strs).
Proof.
  unfold dedupeStrs.
  enough (forall acc, NoDup acc -> NoDup (fold_left (fun s x => set_add x s) strs acc))
    as H by (apply H; constructor).
  induction strs as [|x strs IH]; intros acc Hacc; [assumption|].
  cbn. apply IH, set_add_NoDup, Hacc.
Qed.

Lemma dedupeStrs_elem (strs : list string) (x : string) :
  x ∈ dedupeStrs strs <-> x ∈ strs.
Proof.
  unfold dedupeStrs.
  enough (forall acc, x ∈ fold_left (fun s y => set_add y s) strs acc
                      <-> x ∈ strs \/ x ∈ acc) as H.
  { rewrite H. split; [intros [?|[]%elem_of_nil]; assumption | auto]. }
  induction strs as [|y strs IH]; intros acc; cbn.
  - split; [auto | intros [[]%elem_of_nil | ?]; assumption].
  - rewrite IH, set_add_elem, elem_of_cons. tauto.
Qed.

(** ** Joins *)

Lemma in_innerJoin {A B : Type} (on : A -> B -> bool) (l : list A) (r : list B)
    (a : A) (b : B) :
  In (a, b) (innerJoin on l r) <-> In a l /\ In b r /\ on a b = true.
Proof.
  unfold innerJoin. rewrite in_flat_map. split.
  - intros (a' & Ha & Hin). apply in_map_iff in Hin as (b' & [= -> ->] & Hb).
    apply filter_In in Hb. tauto.
  - intros (Ha & Hb & Hon). exists a. split; [assumption|].
    apply in_map, filter_In. tauto.
Qed.

Lemma in_leftJoin {A B : Type} (on : A -> B -> bool) (l : list A) (r : list B)
    (a : A) (ob : option B) :
  In (a, ob) (leftJoin on l r) -> In a l.
Proof.
  unfold leftJoin. rewrite in_flat_map. intros (a' & Ha & Hin).
  destruct (List.filter (on a') r) as [|b0 m].
  - destruct Hin as [[= -> _] | []]. assumption.
  - apply in_map_iff in Hin as (b' & [= -> _] & _). assumption.
Qed.

Lemma fold_left_ext {A B : Type} (f g : A -> B -> A) (l : list B) (a : A) :
  (forall a b, f a b = g a b) -> fold_left f l a = fold_left g l a.
Proof.
  intros H. revert a. induction l as [|b l IH]; intros a; cbn; [reflexivity|].
  by rewrite H, IH.
Qed.

(** A map built by assigning [acc[key cur] = val cur] row by row holds
    only keys of rows. *)
Lemma lookup_fold_insert {R V : Type} (key : R -> string) (val : R -> V)
    (rows : list R) (acc : gmap string V) (k : string) (v : V) :
  fold_left (fun acc cur => <[key cur := val cur]> acc) rows acc !! k = Some v ->
  (exists cur, In cur rows /\ key cur = k /\ val cur = v) \/ acc !! k = Some v.
Proof.
  revert acc. induction rows as [|cur rows IH]; intros acc; cbn [fold_left].
  - auto.
  - intros H. apply IH in H as [(c & Hc & Hk & Hv) | H].
    + left. exists c. cbn. auto.
    + destruct (decide (key cur = k)) as [<- | Hne].
      * rewrite lookup_insert_eq in H. injection H as <-.
        left. exists cur. cbn. auto.
      * rewrite lookup_insert_ne in H by assumption. by right.
Qed.

Section Facts.
Context `{services : Services}.
Variable db : Database.

(** ** The loaders on an empty set of identifiers *)

Lemma nestedRecordViews_no_refs (posts : list PostRecord) (requester : string) :
  nestedRecordUris posts = [] ->
  nestedRecordViews db posts requester = (∅, []).
Proof. intros H. unfold nestedRecordViews. rewrite H. reflexivity. Qed.

(** C9. With an empty list of identifiers [getActorInfos], [getPostInfos]
    and [getFeedGeneratorInfos] return the empty map and make no call; so
    does [nestedRecordViews] on posts without a record reference. *)
Theorem empty_id_set_no_calls (requester : string) (opts : option ActorOpts)
    (posts : list PostRecord) :
  nestedRecordUris posts = [] ->
  getActorInfos db [] requester opts = (∅, []) /\
  getPostInfos db [] requester = (∅, []) /\
  getFeedGeneratorInfos db [] requester = (∅, []) /\
  nestedRecordViews db posts requester = (∅, []).
Proof.
  intros H. repeat split. by apply nestedRecordViews_no_refs.
Qed.

(** ** The sets of [hydrateFeed] *)

Lemma feedIdsStep_NoDup (sets : list string * list string) (item : FeedRow) :
  NoDup sets.1 /\ NoDup sets.2 ->
  NoDup (feedIdsStep sets item).1 /\ NoDup (feedIdsStep sets item).2.
Proof.
  destruct sets as [actorDids postUris]. cbn [fst snd]. intros [Ha Hp].
  unfold feedIdsStep.
  destruct (negb _), (fr_replyParent item) as [[|? ?]|],
    (fr_replyRoot item) as [[|? ?]|]; cbn [fst snd];
    split; auto using set_add_NoDup.
Qed.

Lemma feedIds_NoDup (items : list FeedRow) :
  NoDup (feedIds items).1 /\ NoDup (feedIds items).2.
Proof.
  unfold feedIds.
  enough (forall sets : list string * list string,
    NoDup sets.1 /\ NoDup sets.2 ->
    NoDup (fold_left feedIdsStep items sets).1 /\
    NoDup (fold_left feedIdsStep items sets).2) as H.
  { apply (H ([], [])). split; constructor. }
  induction items as [|item items IH]; intros sets Hsets; [assumption|].
  cbn [fold_left]. apply IH, feedIdsStep_NoDup, Hsets.
Qed.

Lemma nestedPartition_dids_NoDup (nestedUris : list string) :
  NoDup (nestedDidsSet (nestedPartition nestedUris)).
Proof.
  unfold nestedPartition.
  enough (forall acc, NoDup (nestedDidsSet acc) ->
    NoDup (nestedDidsSet (fold_left nestedPartitionStep nestedUris acc))) as H
    by (apply H; constructor).
  induction nestedUris as [|uri l IH]; intros acc Hacc; [assumption|].
  cbn [fold_left]. apply IH. unfold nestedPartitionStep.
  repeat (destruct (String.eqb _ _)); cbn; by apply set_add_NoDup.
Qed.

(** ** The uris [nestedRecordViews] collects *)

(** The loop of [nestedRecordUris] keeps one uri for every record embed,
    in the order of the posts. *)
Lemma nestedRecordUris_flat_map (posts : list PostRecord) :
  nestedRecordUris posts =
    flat_map (fun post =>
      match embed post with
      | Some (EmbedRecord record) | Some (EmbedRecordWithMedia record _) =>
          [ref_uri record]
      | _ => []
      end) posts.
Proof.
  unfold nestedRecordUris.
  enough (forall uris,
    fold_left (fun uris post =>
      match embed post with
      | None => uris
      | Some (EmbedRecord record) => uris ++ [ref_uri record]
      | Some (EmbedRecordWithMedia record _) => uris ++ [ref_uri record]
      | Some _ => uris
      end) posts uris
    = uris ++ flat_map (fun post =>
        match embed post with
        | Some (EmbedRecord record) | Some (EmbedRecordWithMedia record _) =>
            [ref_uri record]
        | _ => []
        end) posts) as H by apply (H []).
  induction posts as [|post posts IH]; intros uris; cbn [fold_left flat_map].
  - by rewrite app_nil_r.
  - rewrite IH. destruct (embed post) as [[]|]; cbn [app];
      by rewrite <- ?app_assoc.
Qed.

(** The post uris handed to [getPostInfos] are the uris of the post
    collection, each as often as it was collected. *)
Lemma nestedPartition_postUris (nestedUris : list string) :
  nestedPostUris (nestedPartition nestedUris) =
    List.filter (fun uri => String.eqb (collection uri) AppBskyFeedPost)
      nestedUris.
Proof.
  unfold nestedPartition.
  enough (forall acc,
    nestedPostUris (fold_left nestedPartitionStep nestedUris acc)
    = nestedPostUris acc
      ++ List.filter (fun uri => String.eqb (collection uri) AppBskyFeedPost)
           nestedUris) as H by (by rewrite H).
  induction nestedUris as [|uri l IH]; intros acc; cbn [fold_left List.filter].
  - by rewrite app_nil_r.
  - rewrite IH. unfold nestedPartitionStep.
    destruct (String.eqb (collection uri) AppBskyFeedPost);
      [cbn; by rewrite <- app_assoc|].
    by repeat (destruct (String.eqb _ _)).
Qed.

(** Every lookup [hydrateFeed] starts carries a list without duplicates. *)
Lemma hydrateFeed_calls_NoDup (items : list FeedRow) (requester : string)
    (usePostViewUnion : option bool) :
  Forall (fun c => is_loader_call c = true -> NoDup (call_ids c))
    (hydrateFeed db items requester usePostViewUnion).2.
Proof.
  unfold hydrateFeed. pose proof (feedIds_NoDup items) as [Ha Hp].
  destruct (feedIds items) as [actorDids postUris]. cbn [fst snd] in Ha, Hp.
  unfold getActorInfos, getPostInfos, getLabelsForSubjects, getListMutes,
    embedsForPosts, bind, call, ret.
  destruct (length actorDids <? 1)%nat, (length postUris <? 1)%nat;
    cbn; repeat constructor; try discriminate; intros _; assumption.
Qed.

(** ** The rows the loaders select *)

Lemma selectActors_row (dids : list string) (requester : string)
    (soft : bool) (row : ActorRow) :
  In row (selectActors db dids requester soft) ->
  ar_did row ∈ dids /\
  exists dh rr,
    In dh (did_handle db) /\ In rr (repo_root db) /\
    dh_did dh = ar_did row /\ rr_did rr = ar_did row /\
    (soft = false -> rr_takedownId rr = None).
Proof.
  unfold selectActors. intros Hin.
  apply in_map_iff in Hin as ([[dh rr] p] & <- & Hin).
  apply filter_In in Hin as [Hin Hwhere].
  apply in_leftJoin, in_innerJoin in Hin as (Hdh & Hrr & Hon).
  apply andb_true_iff in Hwhere as [Hdids Hsoft].
  apply bool_decide_eq_true in Hdids. apply String.eqb_eq in Hon.
  cbn [ar_did]. split; [assumption|].
  exists dh, rr. repeat split; try assumption.
  intros ->. unfold notSoftDeleted in Hsoft. by destruct (rr_takedownId rr).
Qed.

Lemma selectPosts_row (postUris : list string) (requester : string)
    (info : PostInfo) :
  In info (selectPosts db postUris requester) ->
  pi_uri info ∈ postUris /\
  exists p rr r,
    In p (post db) /\ In rr (repo_root db) /\ In r (record db) /\
    post_uri p = pi_uri info /\ post_creator p = pi_creator info /\
    rr_did rr = post_creator p /\ rr_takedownId rr = None /\
    record_uri r = post_uri p /\ record_takedownId r = None.
Proof.
  unfold selectPosts. intros Hin.
  apply in_map_iff in Hin as ([[[[p agg] b] rr] r] & <- & Hin).
  apply filter_In in Hin as [Hin Hwhere].
  apply in_innerJoin in Hin as (Hin & Hr & Hon_r).
  apply in_innerJoin in Hin as (Hin & Hrr & Hon_rr).
  apply in_innerJoin in Hin as (Hin & Hb & Hon_b).
  apply in_leftJoin in Hin.
  apply andb_true_iff in Hwhere as [Hwhere Hrec].
  apply andb_true_iff in Hwhere as [Huris Hrepo].
  apply bool_decide_eq_true in Huris.
  apply String.eqb_eq in Hon_r, Hon_rr.
  cbn [pi_uri pi_creator]. split; [assumption|].
  exists p, rr, r. unfold notSoftDeleted in *.
  destruct (rr_takedownId rr), (record_takedownId r); try discriminate.
  repeat split; assumption.
Qed.

Lemma selectFeedGeneratorQb_row (requester : string) (info : FeedGenInfo) :
  In info (selectFeedGeneratorQb db requester) ->
  exists rr r,
    In (fgi_generator info) (feed_generator db) /\
    In rr (repo_root db) /\ In r (record db) /\
    rr_did rr = fg_creator (fgi_generator info) /\ rr_takedownId rr = None /\
    record_uri r = fg_uri (fgi_generator info) /\ record_takedownId r = None.
Proof.
  unfold selectFeedGeneratorQb. intros Hin.
  apply in_map_iff in Hin as ([[[fg dh] rr] r] & <- & Hin).
  apply filter_In in Hin as [Hin Hwhere].
  apply in_innerJoin in Hin as (Hin & Hr & Hon_r).
  apply in_innerJoin in Hin as (Hin & Hrr & Hon_rr).
  apply in_innerJoin in Hin as (Hfg & Hdh & Hon_dh).
  apply andb_true_iff in Hwhere as [Hrepo Hrec].
  apply String.eqb_eq in Hon_r, Hon_rr.
  cbn [fgi_generator]. exists rr, r. unfold notSoftDeleted in *.
  destruct (rr_takedownId rr), (record_takedownId r); try discriminate.
  repeat split; assumption.
Qed.

(** ** The keys of the maps the loaders return *)

Lemma getPostInfos_entry (postUris : list string) (requester uri : string)
    (info : PostInfo) :
  (getPostInfos db postUris requester).1 !! uri = Some info ->
  uri ∈ postUris /\
  exists p rr r,
    In p (post db) /\ In rr (repo_root db) /\ In r (record db) /\
    post_uri p = uri /\ rr_did rr = post_creator p /\
    rr_takedownId rr = None /\
    record_uri r = uri /\ record_takedownId r = None.
Proof.
  unfold getPostInfos.
  destruct (length postUris <? 1)%nat; [cbn; by rewrite lookup_empty|].
  cbn. intros H.
  apply (lookup_fold_insert pi_uri id) in H as [(row & Hrow & <- & _) | H];
    [|by rewrite lookup_empty in H].
  apply selectPosts_row in Hrow as (Hin & p & rr & r & H).
  split; [assumption|]. exists p, rr, r. intuition congruence.
Qed.

(** C10. Every key of the map [getActorInfos] returns is a requested did,
    and every key of the maps [getPostInfos] and [getFeedGeneratorInfos]
    return is a requested uri; an entry comes from rows that are not taken
    down (for an actor unless [includeSoftDeleted] is set; for a post and
    a feed generator both the record and the repository of its author),
    so a post whose author's repository is taken down has no entry. *)
Theorem loader_keys_requested (dids postUris generatorUris : list string)
    (requester : string) (opts : option ActorOpts) :
  (forall did info,
     (getActorInfos db dids requester opts).1 !! did = Some info ->
     did ∈ dids /\
     exists dh rr,
       In dh (did_handle db) /\ In rr (repo_root db) /\
       dh_did dh = did /\ rr_did rr = did /\
       (default false (opts ≫= includeSoftDeleted) = false ->
        rr_takedownId rr = None)) /\
  (forall uri info,
     (getPostInfos db postUris requester).1 !! uri = Some info ->
     uri ∈ postUris /\
     exists p rr r,
       In p (post db) /\ In rr (repo_root db) /\ In r (record db) /\
       post_uri p = uri /\ rr_did rr = post_creator p /\
       rr_takedownId rr = None /\
       record_uri r = uri /\ record_takedownId r = None) /\
  (forall uri info,
     (getFeedGeneratorInfos db generatorUris requester).1 !! uri = Some info ->
     uri ∈ generatorUris /\
     exists fg rr r,
       In fg (feed_generator db) /\ In rr (repo_root db) /\ In r (record db) /\
       fg_uri fg = uri /\ rr_did rr = fg_creator fg /\
       rr_takedownId rr = None /\
       record_uri r = uri /\ record_takedownId r = None) /\
  (forall uri,
     (forall p rr, In p (post db) -> In rr (repo_root db) ->
        post_uri p = uri -> rr_did rr = post_creator p ->
        rr_takedownId rr <> None) ->
     (getPostInfos db postUris requester).1 !! uri = None).
Proof.
  split; [|split; [|split]].
  - intros did info. unfold getActorInfos.
    destruct (length dids <? 1)%nat; [cbn; by rewrite lookup_empty|].
    cbn. intros H.
    apply lookup_fold_insert in H as [(row & Hrow & <- & _) | H];
      [|by rewrite lookup_empty in H].
    by apply selectActors_row in Hrow.
  - intros uri info. apply getPostInfos_entry.
  - intros uri info. unfold getFeedGeneratorInfos.
    destruct (length generatorUris <? 1)%nat; [cbn; by rewrite lookup_empty|].
    cbn. intros H.
    apply (lookup_fold_insert (fun cur => fg_uri (fgi_generator cur)) id) in H
      as [(row & Hrow & <- & _) | H]; [|by rewrite lookup_empty in H].
    apply filter_In in Hrow as [Hrow Hin].
    apply bool_decide_eq_true in Hin. split; [assumption|].
    apply selectFeedGeneratorQb_row in Hrow as (rr & r & H).
    exists (fgi_generator row), rr, r. intuition congruence.
  - intros uri Hdown.
    destruct ((getPostInfos db postUris requester).1 !! uri) as [info|] eqn:E;
      [|reflexivity].
    apply getPostInfos_entry in E as (_ & p & rr & r & Hp & Hrr & _ & Hu & Hd & Ht & _).
    by destruct (Hdown p rr Hp Hrr Hu Hd).
Qed.

(** The display name of an actor: at most 64 bytes. *)
Lemma actorInfoOf_displayName (skip : bool) (labels : Labels)
    (listMutes : gmap string ListViewBasic) (cur : ActorRow)
    (name shown : Utf8.jsstring) :
  ar_displayName cur = Some name -> Utf8.wf_jsstring name ->
  ai_displayName (actorInfoOf skip labels listMutes cur) = Some shown ->
  length (Utf8.TextEncoder_encode shown) <= 64.
Proof.
  intros Hname Hwf. cbn [actorInfoOf ai_displayName]. rewrite Hname.
  destruct (Utf8.truncateUtf8 (Some name) 64) as [r|] eqn:E; [|discriminate].
  apply Utf8Facts.truncateUtf8_length in E; [|assumption].
  unfold Utf8.or_undefined. destruct r; [discriminate|].
  by intros [= <-].
Qed.

(** ** The embed resolver *)

Lemma getRecordEmbedView_tag (uri : string) (post : option PostView)
    (embeds : option (list PostEmbedView)) :
  (type_of (getRecordEmbedView uri post embeds)
     = "app.bsky.embed.record#viewNotFound" <-> post = None) /\
  (type_of (getRecordEmbedView uri post embeds)
     = "app.bsky.embed.record#viewBlocked" <->
     exists p, post = Some p /\ authorBlocks p = true).
Proof.
  unfold getRecordEmbedView, authorBlocks. destruct post as [p|].
  - destruct (truthy _ || default false _) eqn:E; cbn [type_of]; (split; split);
      try discriminate; eauto.
    intros (p' & Hp & Hb). injection Hp as <-. congruence.
  - cbn [type_of]. split; split; try done. intros (p & H & _). discriminate.
Qed.

Lemma recordEmbedStep_assigned (postInfos : PostInfoMap)
    (actorInfos : ActorInfoMap) (labelViews : Labels)
    (feedGenInfos : FeedGenInfoMap) (listViews : gmap string ListInfo)
    (acc : gmap string RecordEmbedViewRecord) (uri : string) :
  recordEmbedStep postInfos actorInfos labelViews feedGenInfos listViews acc uri
  = match recordEmbedAssigned postInfos actorInfos labelViews feedGenInfos
            listViews uri with
    | Some view => <[uri := view]> acc
    | None => acc
    end.
Proof.
  unfold recordEmbedStep, recordEmbedAssigned.
  destruct (String.eqb (collection uri) AppBskyFeedGenerator),
    (feedGenInfos !! uri),
    (String.eqb (collection uri) AppBskyGraphList), (listViews !! uri),
    (String.eqb (collection uri) AppBskyFeedPost), (postInfos !! uri);
    reflexivity.
Qed.

Lemma lookup_fold_assigned {V : Type} (assigned : string -> option V)
    (l : list string) (acc : gmap string V) (k : string) :
  fold_left (fun acc uri =>
               match assigned uri with
               | Some view => <[uri := view]> acc
               | None => acc
               end) l acc !! k
  = if bool_decide (k ∈ l) then
      match assigned k with Some view => Some view | None => acc !! k end
    else acc !! k.
Proof.
  revert acc. induction l as [|uri l IH]; intros acc; cbn [fold_left].
  - reflexivity.
  - rewrite IH. destruct (decide (k = uri)) as [-> | Hne].
    + rewrite (bool_decide_eq_true_2 (uri ∈ uri :: l)) by left.
      destruct (assigned uri) as [view|] eqn:E.
      * rewrite lookup_insert_eq. by case_bool_decide.
      * by case_bool_decide.
    + assert (match assigned uri with
              | Some view => <[uri := view]> acc
              | None => acc
              end !! k = acc !! k) as ->.
      { destruct (assigned uri); [by rewrite lookup_insert_ne|done]. }
      rewrite (bool_decide_ext (k ∈ uri :: l) (k ∈ l))
        by (rewrite elem_of_cons; tauto).
      reflexivity.
Qed.

Lemma nestedRecordViews_lookup (posts : list PostRecord) (requester uri : string) :
  (nestedRecordViews db posts requester).1 !! uri
  = if bool_decide (uri ∈ nestedRecordUris posts) then
      let h := nestedHydration db posts requester in
      recordEmbedAssigned (nh_postInfos h) (nh_actorInfos h) (nh_labelViews h)
        (nh_feedGenInfos h) (nh_listViews h) uri
    else None.
Proof.
  unfold nestedRecordViews, nestedHydration.
  destruct (nestedRecordUris posts) as [|u0 l] eqn:Huris.
  { cbn. by rewrite lookup_empty. }
  cbn [length Nat.ltb Nat.leb]. rewrite <- Huris.
  set (nested := nestedPartition _).
  unfold bind, getLabelsForSubjects, getListViews, call.
  destruct (getPostInfos db (nestedPostUris nested) requester) as [pI c1].
  destruct (getActorInfos db (nestedDidsSet nested) requester _) as [aI c2].
  destruct (getFeedGeneratorInfos db (nestedFeedGenUris nested) requester)
    as [fI c4].
  cbn [fst snd ret nh_postInfos nh_actorInfos nh_labelViews nh_feedGenInfos
       nh_listViews].
  rewrite (fold_left_ext _
    (fun acc uri =>
       match recordEmbedAssigned pI aI
               (labelsForSubjects (nestedPostUris nested ++ nestedDidsSet nested))
               fI (listViewsFor (nestedListUris nested) requester) uri with
       | Some view => <[uri := view]> acc
       | None => acc
       end)) by (intros; apply recordEmbedStep_assigned).
  rewrite lookup_fold_assigned, lookup_empty.
  case_bool_decide; [|reflexivity]. by destruct (recordEmbedAssigned _ _ _ _ _ _).
Qed.


(** A reference to a post that was hydrated gets no entry. *)
Lemma nestedRecordViews_hydrated_post (posts : list PostRecord)
    (requester uri : string) :
  collection uri = AppBskyFeedPost ->
  is_Some (nh_postInfos (nestedHydration db posts requester) !! uri) ->
  (nestedRecordViews db posts requester).1 !! uri = None.
Proof.
  intros Hcoll [info Hinfo]. rewrite nestedRecordViews_lookup.
  case_bool_decide; [|reflexivity]. cbv zeta.
  unfold recordEmbedAssigned. rewrite Hcoll, Hinfo. reflexivity.
Qed.

(** No entry carries the blocked tag. *)
Lemma nestedRecordViews_never_blocked (posts : list PostRecord)
    (requester uri uri' : string) :
  (nestedRecordViews db posts requester).1 !! uri <> Some (ViewBlocked uri').
Proof.
  rewrite nestedRecordViews_lookup. case_bool_decide; [|discriminate].
  cbv zeta. unfold recordEmbedAssigned.
  repeat match goal with
         | |- context [match ?x with _ => _ end] => destruct x
         end; discriminate.
Qed.

(** The not-found tag marks the references that no lookup resolved. *)
Lemma nestedRecordViews_not_found (posts : list PostRecord)
    (requester uri : string) :
  let h := nestedHydration db posts requester in
  (nestedRecordViews db posts requester).1 !! uri = Some (ViewNotFound uri)
  <->
  uri ∈ nestedRecordUris posts /\
  ~ (collection uri = AppBskyFeedGenerator /\ is_Some (nh_feedGenInfos h !! uri)) /\
  ~ (collection uri = AppBskyGraphList /\ is_Some (nh_listViews h !! uri)) /\
  ~ (collection uri = AppBskyFeedPost /\ is_Some (nh_postInfos h !! uri)).
Proof.
  cbv zeta. rewrite nestedRecordViews_lookup.
  case_bool_decide as Hin; [|split; [discriminate | tauto]].
  cbv zeta. unfold recordEmbedAssigned.
  set (h := nestedHydration db posts requester).
  destruct (String.eqb_spec (collection uri) AppBskyFeedGenerator) as [E1|E1],
    (nh_feedGenInfos h !! uri) as [info|] eqn:F1;
    try (split; [discriminate | intros (_ & N & _); exfalso; apply N; by eauto]);
  (destruct (String.eqb_spec (collection uri) AppBskyGraphList) as [E2|E2],
     (nh_listViews h !! uri) as [list|] eqn:F2;
     try (split; [discriminate | intros (_ & _ & N & _); exfalso; apply N; by eauto]));
  (destruct (String.eqb_spec (collection uri) AppBskyFeedPost) as [E3|E3],
     (nh_postInfos h !! uri) as [post|] eqn:F3;
     try (split; [discriminate | intros (_ & _ & _ & N); exfalso; apply N; by eauto]));
  (split; [intros _ | reflexivity]);
  (split; [assumption|]);
  (repeat split; intros [? [? ?]]; congruence).
Qed.

(** [postRecordsFromInfos] returns no post, so [embedsForPosts] resolves
    nothing. *)
Lemma embedsForPosts_nothing (postInfos : PostInfoMap) (requester : string)
    (excludeNested : option bool) :
  embedsForPosts db postInfos requester excludeNested = (∅, []).
Proof. reflexivity. Qed.

End Facts.
End FeedServiceFacts.

Module DemoFacts.
Import Demo.
Local Open Scope string_scope.

(** ** [truncateUtf8] on two display names *)

(** C6, witness: a name of 67 bytes whose 63rd to 66th bytes are one code
    point. *)
Lemma truncateUtf8_spec_witness :
  Utf8.wf_jsstring name67 /\
  exists r : Utf8.jsstring,
    Utf8.truncateUtf8 (Some name67) 64 = Some r /\
    (length (Utf8.TextEncoder_encode r) <= 64)%nat /\
    (Utf8.to_scalars r `prefix_of` Utf8.to_scalars name67 \/
     Utf8.to_scalars r `prefix_of` Utf8.strip_bom (Utf8.to_scalars name67)) /\
    (Utf8.REPLACEMENT ∉ Utf8.to_scalars name67 ->
     last r <> Some Utf8.REPLACEMENT) /\
    ((length (Utf8.TextEncoder_encode name67) <= 64)%nat -> r = name67).
Proof.
  split; [reflexivity|]. apply Utf8Facts.truncateUtf8_spec. reflexivity.
Defined.

Example truncateUtf8_name67 :
  Utf8.truncateUtf8 (Some name67) 64 = Some (repeat 0x61%Z 62).
Proof. vm_compute. reflexivity. Qed.

(** C6, counterexample: a well-formed name of 70 bytes whose 59th to 64th
    bytes are U+FFFD twice is cut to a string that ends in U+FFFD. *)
Lemma truncateUtf8_keeps_FFFD :
  Utf8.wf_jsstring name70 /\
  length (Utf8.TextEncoder_encode name70) = 70%nat /\
  Utf8.truncateUtf8 (Some name70) 64
    = Some (repeat 0x61%Z 58 ++ [Utf8.REPLACEMENT])%list /\
  last (repeat 0x61%Z 58 ++ [Utf8.REPLACEMENT])%list = Some Utf8.REPLACEMENT.
Proof. vm_compute. auto. Qed.

(** ** The feed handler on the demo feed *)

Section GetFeedDemo.
Import GetFeed.

Example demo_pipeline :
  exists out, pipeline demo_params demo_headers1 12 0 30 = inr out /\
    out_body out !! "feed" =
      Some (BFeed [(post_of alice "a", None); (post_of dave "d", None)]) /\
    out_body out !! "cursor" = Some (BJson (JStr "cursor-1")) /\
    out_body out !! "reqId" = Some (BJson (JStr "r-42")).
Proof. eexists. split; [vm_compute; reflexivity|]. vm_compute. auto. Qed.

(** C3, witness: the demo feed. *)
Lemma cursor_unchanged_witness :
  skeleton demo_params demo_headers1 12 0 = inr demo_state /\
  let h := (hydration demo_state 30).1 in
  let hydrated := (hydration demo_state 30).2 in
  cursor hydrated = cursor demo_state /\
  cursor (noBlocksOrMutes hydrated h) = cursor demo_state /\
  out_body (presentation demo_params (noBlocksOrMutes hydrated h) h) !! "cursor"
    = BJson <$> cursor demo_state.
Proof.
  split; [vm_compute; reflexivity|].
  apply (GetFeedFacts.cursor_unchanged demo_params demo_headers1 12 0 30).
  vm_compute. reflexivity.
Defined.

(** C4, witness: the generator does not know the feed. *)
Lemma upstream_error_taxonomy_witness :
  resolveEndpoint demo_gone_params = inr "https://gen.example/did:web:gen.example" /\
  skeletonFromFeedGen demo_gone_params demo_headers1
    = inl (InvalidRequestError "unknown feed" (Some "UnknownFeed")).
Proof.
  split; [reflexivity|].
  exact (proj2 (proj2 (proj2 (proj2 (proj2
           GetFeedFacts.upstream_error_taxonomy))))
           demo_gone_params demo_headers1 _ _ eq_refl eq_refl).
Defined.

(** C5, witness: the repost by bob, whom the viewer mutes, is dropped. *)
Lemma noBlocksOrMutes_filters_witness :
  items demo_state = [demo_postA; demo_repostB; demo_postD] /\
  originatorMuted (feedItemBlocksAndMutes demo_repostB demo_hydration) = true /\
  items (noBlocksOrMutes demo_state demo_hydration) = [demo_postA; demo_postD] /\
  cursor (noBlocksOrMutes demo_state demo_hydration) = cursor demo_state.
Proof.
  split; [vm_compute; reflexivity|]. split; [reflexivity|].
  destruct (GetFeedFacts.noBlocksOrMutes_filters demo_state demo_hydration)
    as (_ & _ & Hcursor & Hscenario).
  split; [|exact Hcursor].
  apply (Hscenario demo_postA demo_repostB demo_postD);
    [vm_compute; reflexivity | reflexivity | right; reflexivity
                   | reflexivity].
Defined.

(** C8, witness: two requests that differ in [cookie] and
    [x-forwarded-for]. *)
Lemma forwarded_headers_allow_list_witness :
  demo_headers1 !! "cookie" <> demo_headers2 !! "cookie" /\
  forwardedHeaders demo_headers1 = forwardedHeaders demo_headers2 /\
  forwardedHeaders demo_headers1 !! "x-bsky-topics" = Some (HSingle "cats,dogs") /\
  forwardedHeaders demo_headers1 !! "cookie" = None.
Proof.
  split; [vm_compute; discriminate|].
  split; [|split; vm_compute; reflexivity].
  apply (GetFeedFacts.forwarded_headers_allow_list demo_headers1 demo_headers2);
    vm_compute; reflexivity.
Defined.

End GetFeedDemo.

(** ** The feed service on the demo database *)

Section FeedServiceDemo.
Import FeedService.

Example demo_getActorInfos_keys :
  (getActorInfos demo_db [bob; dave] alice None).1 !! dave = None /\
  is_Some ((getActorInfos demo_db [bob; dave] alice None).1 !! bob).
Proof. split; [vm_compute; reflexivity | vm_compute; eauto]. Qed.

(** C1, failing input: alice quotes bob's post, which is hydrated; the map
    [nestedRecordViews] returns has no entry for it. *)
Theorem nested_post_embed_missing :
  let posts := [quote_of bob1 "cid-bob-1"] in
  nestedRecordUris posts = [bob1] /\
  collection bob1 = AppBskyFeedPost /\
  is_Some (nh_postInfos (nestedHydration demo_db posts alice) !! bob1) /\
  (nestedRecordViews demo_db posts alice).1 !! bob1 = None /\
  (nestedRecordViews demo_db posts alice).1 = ∅.
Proof.
  cbv zeta. split; [reflexivity|]. split; [reflexivity|].
  split; [vm_compute; eauto|]. split; vm_compute; reflexivity.
Qed.

(** C2, failing input: alice quotes a post of carol, who blocks alice; the
    post is hydrated and [getRecordEmbedView] would tag its view as blocked,
    but the map [nestedRecordViews] returns has no entry for it. *)
Theorem blocked_author_embed_untagged :
  let posts := [quote_of carol1 "cid-carol-1"] in
  let h := nestedHydration demo_db posts alice in
  (exists formatted : PostView,
     formatPostView carol1 (nh_actorInfos h) (nh_postInfos h) ∅ (nh_labelViews h)
       = Some formatted /\
     authorBlocks formatted = true /\
     getRecordEmbedView carol1 (Some formatted) None = ViewBlocked carol1) /\
  (nestedRecordViews demo_db posts alice).1 !! carol1 = None.
Proof.
  cbv zeta. split; [|vm_compute; reflexivity].
  eexists. split; [vm_compute; reflexivity|]. split; vm_compute; reflexivity.
Qed.

(** A reference whose target is gone is tagged not-found. *)
Example deleted_target_not_found :
  (nestedRecordViews demo_db [quote_of (post_of bob "2") "cid-bob-2"] alice).1
    !! post_of bob "2" = Some (ViewNotFound (post_of bob "2")) /\
  (nestedRecordViews demo_db [quote_of dave1 "cid-dave-1"] alice).1
    !! dave1 = Some (ViewNotFound dave1).
Proof. split; vm_compute; reflexivity. Qed.

(** C7, failing input: two posts of a batch quote bob's post; the list of
    post uris handed to [getPostInfos], and sent to the database, holds the
    uri twice. *)
Theorem nested_post_uris_duplicated :
    let posts := [quote_of bob1 "cid-bob-1"; quote_of bob1 "cid-bob-1"] in
    nestedPostUris (nestedPartition (nestedRecordUris posts)) = [bob1; bob1] /\
    nestedDidsSet (nestedPartition (nestedRecordUris posts)) = [bob] /\
    ~ NoDup [bob1; bob1] /\
    In (SelectPosts [bob1; bob1] alice) (nestedRecordViews demo_db posts alice).2 /\
    Exists (fun c => is_loader_call c = true /\ ~ NoDup (call_ids c))
      (nestedRecordViews demo_db posts alice).2.
Proof.
    cbv zeta.
    assert (~ NoDup [bob1; bob1]) as Hdup.
    { intros H. apply NoDup_cons in H as [H _]. apply H. left. }
    split; [reflexivity|]. split; [reflexivity|]. split; [exact Hdup|].
    split; [vm_compute; auto|].
    apply Exists_exists. exists (SelectPosts [bob1; bob1] alice).
    split; [apply list_elem_of_In; vm_compute; auto|].
    split; [reflexivity | exact Hdup].
Qed.

(** C9, witness: a batch whose only embed is a picture. *)
Lemma empty_id_set_no_calls_witness :
  nestedRecordUris [picture] = [] /\
  getActorInfos demo_db [] alice None = (∅, []) /\
  getPostInfos demo_db [] alice = (∅, []) /\
  getFeedGeneratorInfos demo_db [] alice = (∅, []) /\
  nestedRecordViews demo_db [picture] alice = (∅, []).
Proof.
  split; [reflexivity|].
  apply (FeedServiceFacts.empty_id_set_no_calls demo_db alice None [picture]).
  reflexivity.
Defined.

(** C10, witness: dave's repository is taken down, bob's is not. *)
Lemma loader_keys_requested_witness :
  is_Some ((getPostInfos demo_db [bob1; dave1] alice).1 !! bob1) /\
  bob1 ∈ [bob1; dave1] /\
  (getPostInfos demo_db [bob1; dave1] alice).1 !! dave1 = None.
Proof.
  destruct (FeedServiceFacts.loader_keys_requested demo_db
              [bob; dave] [bob1; dave1] [] alice None)
    as (_ & Hposts & _ & Hdown).
  assert (is_Some ((getPostInfos demo_db [bob1; dave1] alice).1 !! bob1))
    as Hbob by (vm_compute; eauto).
  split; [exact Hbob|]. split.
  - destruct Hbob as [info Hinfo]. exact (proj1 (Hposts bob1 info Hinfo)).
  - apply Hdown. intros p rr Hp Hrr Hu Hd.
    cbn in Hp, Hrr.
    destruct Hp as [<- | [<- | [<- | []]]]; try discriminate Hu.
    destruct Hrr as [<- | [<- | [<- | [<- | []]]]]; try discriminate Hd.
    discriminate.
Defined.

End FeedServiceDemo.

End DemoFacts.

Module HandlerFacts.
Import GetFeed.
Local Open Scope string_scope.

Section Facts.
Context {HydrationState FeedViewPost Identity : Type}.
Context `{ctx : Ctx HydrationState FeedViewPost Identity}.

(** The state the skeleton stage leaves when the feed generator answers. *)
Lemma skeleton_answered (params : QueryParams) (headers : IncomingHttpHeaders)
    (t1 t2 : Z) (fgEndpoint : string) (result : UpstreamResponse) :
  resolveEndpoint params = inr fgEndpoint ->
  getFeedSkeleton (outboundCall fgEndpoint params headers) = inr result ->
  skeleton params headers t1 t2 =
    inr {| cursor := delete "feed" (data_rest result) !! "cursor";
           items := map feedItemOf (data_feed result);
           timerSkele := {| timer_name := "skele"; timer_ms := t1 |};
           timerHydr := {| timer_name := "hydr"; timer_ms := t2 |};
           resHeaders :=
             match res_headers result !! "content-language" with
             | None | Some "" => None
             | Some lang => Some {[ "content-language" := lang ]}
             end;
           passthrough :=
             delete "resHeaders"
               (delete "cursor"
                  (delete "feedItems" (delete "feed" (data_rest result)))) |}.
Proof.
  intros Hep Hcall. unfold skeleton, skeletonFromFeedGen.
  by rewrite Hep, Hcall.
Qed.

Lemma omap_filter_sublist {A B : Type} (f : A -> option B) (p : A -> bool)
    (l : list A) :
  omap f (List.filter p l) `sublist_of` omap f l.
Proof.
  induction l as [|x l IH]; cbn; [constructor|].
  destruct (p x); cbn; destruct (f x); by repeat constructor.
Qed.

(** X1. Before the outbound call [skeletonFromFeedGen] resolves the endpoint
    of the feed generator. It succeeds exactly with a non-empty endpoint
    read from the identity of a non-empty did; it fails with an
    [InvalidRequestError] without a custom name whose message tells the
    step that failed, or throws the error of the dataplane again when
    that is not [NotFound]; it never fails with an upstream error. *)
Theorem resolveEndpoint_outcomes (params : QueryParams) :
  match resolveEndpoint params with
  | inr fgEndpoint =>
      fgEndpoint <> "" /\
      exists feedDid ident,
        feedGenDid (feed params) = Some feedDid /\ feedDid <> "" /\
        getIdentityByDid feedDid = inr ident /\
        feedGenEndpoint ident = Some fgEndpoint
  | inl (InvalidRequestError message name) =>
      name = None /\
      ((message = "could not find feed" /\
        (feedGenDid (feed params) = None \/ feedGenDid (feed params) = Some ""))
       \/
       exists feedDid,
         feedGenDid (feed params) = Some feedDid /\
         ((message = "could not resolve identity: " ++ feedDid /\
           getIdentityByDid feedDid = inl DpNotFound)
          \/
          (message =
             "invalid feed generator service details in did document: "
               ++ feedDid /\
           exists ident,
             getIdentityByDid feedDid = inr ident /\
             (feedGenEndpoint ident = None \/ feedGenEndpoint ident = Some ""))))
  | inl (RethrownDataplane err) =>
      err <> DpNotFound /\
      exists feedDid,
        feedGenDid (feed params) = Some feedDid /\
        getIdentityByDid feedDid = inl err
  | inl (UpstreamFailureError _ _) | inl (RethrownUpstream _) => False
  end.
Proof.
  unfold resolveEndpoint.
  destruct (feedGenDid (feed params)) as [[|c feedDid]|] eqn:Hdid;
    [split; [done|left; auto] | | split; [done|left; auto]].
  destruct (getIdentityByDid (String c feedDid)) as [[|d]|ident] eqn:Hid.
  - split; [done|]. right. eexists. split; [done|]. left. done.
  - split; [done|]. eauto.
  - destruct (feedGenEndpoint ident) as [[|c' ep]|] eqn:Hep.
    + split; [done|]. right. eexists. split; [done|]. right. split; [done|].
      eauto.
    + split; [done|]. exists (String c feedDid), ident. done.
    + split; [done|]. right. eexists. split; [done|]. right. split; [done|].
      eauto.
Qed.


(** X3. The body of the response: [feed] is always the feed this handler
    computed, [cursor] is the upstream cursor, the keys [feedItems] and
    [resHeaders] never appear, and every other property of the upstream
    response is passed on as it is. *)
Theorem response_body_keys (params : QueryParams)
    (headers : IncomingHttpHeaders) (t1 t2 t3 : Z) (fgEndpoint : string)
    (result : UpstreamResponse) :
  resolveEndpoint params = inr fgEndpoint ->
  getFeedSkeleton (outboundCall fgEndpoint params headers) = inr result ->
  exists sk,
    skeleton params headers t1 t2 = inr sk /\
    let h := (hydration sk t3).1 in
    let out := presentation params (noBlocksOrMutes (hydration sk t3).2 h) h in
    (exists feed, out_body out !! "feed" = Some (BFeed feed)) /\
    out_body out !! "cursor" = BJson <$> data_rest result !! "cursor" /\
    out_body out !! "feedItems" = None /\
    out_body out !! "resHeaders" = None /\
    (forall k,
       k <> "feed" -> k <> "cursor" -> k <> "feedItems" -> k <> "resHeaders" ->
       out_body out !! k = BJson <$> data_rest result !! k).
Proof.
  intros Hep Hcall. eexists. split; [exact (skeleton_answered _ _ _ _ _ _ Hep Hcall)|].
  cbn [hydration fst snd noBlocksOrMutes presentation out_body passthrough
       cursor]. cbv zeta.
  assert (forall k, (BJson (FeedViewPost := FeedViewPost) <$>
      delete "resHeaders"
        (delete "cursor"
           (delete "feedItems" (delete "feed" (data_rest result))))) !! k
    = if bool_decide (k ∈ ["feed"; "feedItems"; "cursor"; "resHeaders"])
      then None else BJson <$> data_rest result !! k) as Hpt.
  { intros k. rewrite lookup_fmap. case_bool_decide as Hk.
    - repeat (apply elem_of_cons in Hk as [-> | Hk]);
        [..|by apply elem_of_nil in Hk];
        repeat (rewrite lookup_delete_eq || rewrite lookup_delete_ne by done);
        done.
    - rewrite !lookup_delete_ne; [done|..]; intros <-; apply Hk;
        repeat constructor. }
  split; [|split; [|split; [|split]]].
  - eexists. rewrite lookup_union_r by (by rewrite Hpt).
    rewrite GetFeedFacts.lookup_obj_set_ne by done. apply lookup_singleton_eq.
  - rewrite lookup_union_r by (by rewrite Hpt).
    rewrite GetFeedFacts.lookup_obj_set. by rewrite lookup_delete_ne.
  - rewrite lookup_union_r by (by rewrite Hpt).
    rewrite GetFeedFacts.lookup_obj_set_ne by done. by apply lookup_singleton_ne.
  - rewrite lookup_union_r by (by rewrite Hpt).
    rewrite GetFeedFacts.lookup_obj_set_ne by done. by apply lookup_singleton_ne.
  - intros k H1 H2 H3 H4.
    assert (k ∉ ["feed"; "feedItems"; "cursor"; "resHeaders"]) as Hk.
    { intros Hk. repeat (apply elem_of_cons in Hk as [-> | Hk]); try done.
      by apply elem_of_nil in Hk. }
    destruct (data_rest result !! k) as [j|] eqn:Hj.
    + apply lookup_union_Some_l. rewrite Hpt, bool_decide_eq_false_2 by done.
      by rewrite Hj.
    + rewrite lookup_union_r
        by (by rewrite Hpt, bool_decide_eq_false_2, Hj by done).
      rewrite GetFeedFacts.lookup_obj_set_ne by done.
      by apply lookup_singleton_ne.
Qed.

(** X4. The feed of the response holds at most [limit] entries; each is the
    view of an item of the skeleton none of whose five flags is set,
    together with the feed context of that item, and the entries keep the
    order of the skeleton. *)
Theorem response_feed_allowed (params : QueryParams)
    (headers : IncomingHttpHeaders) (t1 t2 t3 : Z) (fgEndpoint : string)
    (result : UpstreamResponse) :
  resolveEndpoint params = inr fgEndpoint ->
  getFeedSkeleton (outboundCall fgEndpoint params headers) = inr result ->
  exists sk feed,
    skeleton params headers t1 t2 = inr sk /\
    let h := hydrateFeedItems (items sk) in
    let out := presentation params (noBlocksOrMutes (hydration sk t3).2 h) h in
    out_body out !! "feed" = Some (BFeed feed) /\
    length feed <= limit params /\
    (forall post context,
       (post, context) ∈ feed ->
       exists item,
         item ∈ items sk /\
         allowed (feedItemBlocksAndMutes item h) = true /\
         feedViewPost item h = Some post /\
         feedContext item = context) /\
    feed `sublist_of`
      omap (fun item =>
              match feedViewPost item h with
              | None => None
              | Some post => Some (post, feedContext item)
              end) (items sk).
Proof.
  intros Hep Hcall. eexists. eexists. split; [exact (skeleton_answered _ _ _ _ _ _ Hep Hcall)|].
  cbn [hydration fst snd noBlocksOrMutes presentation out_body passthrough
       cursor items]. cbv zeta.
  set (its := map feedItemOf (data_feed result)).
  set (h := hydrateFeedItems its).
  split; [|split; [|split]].
  - rewrite lookup_union_r.
    + rewrite GetFeedFacts.lookup_obj_set_ne by done.
      apply lookup_singleton_eq.
    + rewrite lookup_fmap.
      rewrite !lookup_delete_ne by done. by rewrite lookup_delete_eq.
  - rewrite length_firstn. lia.
  - intros post context Hin.
    apply (subseteq_take _ _) in Hin.
    unfold mapDefined in Hin. apply list_elem_of_omap in Hin as (item & Hitem & Hv).
    exists item. apply list_elem_of_In, filter_In in Hitem as [Hitem Hallowed].
    apply list_elem_of_In in Hitem.
    subst h its. revert Hv.
    destruct (feedViewPost item _) as [p|] eqn:Hp; [|discriminate].
    by intros [= <- <-].
  - etransitivity; [apply sublist_take|]. apply omap_filter_sublist.
Qed.

(** X5. The headers of the response: [server-timing] built from the timer of
    the skeleton stage and the timer the hydration stage stopped, the
    [content-language] of the upstream response when it is not empty, and
    nothing else. *)
Theorem response_headers (params : QueryParams)
    (headers : IncomingHttpHeaders) (t1 t2 t3 : Z) (fgEndpoint : string)
    (result : UpstreamResponse) :
  resolveEndpoint params = inr fgEndpoint ->
  getFeedSkeleton (outboundCall fgEndpoint params headers) = inr result ->
  exists sk,
    skeleton params headers t1 t2 = inr sk /\
    let h := (hydration sk t3).1 in
    let out := presentation params (noBlocksOrMutes (hydration sk t3).2 h) h in
    out_headers out !! "server-timing" =
      Some (serverTimingHeader
              [ {| timer_name := "skele"; timer_ms := t1 |};
                {| timer_name := "hydr"; timer_ms := t3 |} ]) /\
    out_headers out !! "content-language" =
      match res_headers result !! "content-language" with
      | None | Some "" => None
      | Some lang => Some lang
      end /\
    (forall k, k <> "server-timing" -> k <> "content-language" ->
       out_headers out !! k = None).
Proof.
  intros Hep Hcall. eexists. split; [exact (skeleton_answered _ _ _ _ _ _ Hep Hcall)|].
  cbn [hydration fst snd noBlocksOrMutes presentation out_headers resHeaders
       timerSkele timerHydr]. cbv zeta.
  split; [apply lookup_insert_eq|]. split.
  - rewrite lookup_insert_ne by done.
    destruct (res_headers result !! "content-language") as [[|c l]|]; cbn;
      [done | apply lookup_singleton_eq | done].
  - intros k H1 H2. rewrite lookup_insert_ne by done.
    destruct (res_headers result !! "content-language") as [[|c l]|]; cbn;
      [done | by apply lookup_singleton_ne | done].
Qed.

(** X6. What is forwarded: [authorization] and [accept-language] as they were
    received; [x-bsky-topics] as it was received when it has one value and
    as the comma-joined list when it has several; a header that was not
    received is not sent. *)
Theorem forwardedHeaders_values (headers : IncomingHttpHeaders) :
  forwardedHeaders headers !! "authorization" = headers !! "authorization" /\
  forwardedHeaders headers !! "accept-language"
    = headers !! "accept-language" /\
  (forall vs, headers !! "x-bsky-topics" = Some (HMulti vs) ->
     forwardedHeaders headers !! "x-bsky-topics"
       = Some (HSingle (String.concat "," vs))) /\
  (forall v, headers !! "x-bsky-topics" = Some (HSingle v) ->
     forwardedHeaders headers !! "x-bsky-topics" = Some (HSingle v)) /\
  (forall k, k ∈ dom (forwardedHeaders headers) <->
     k ∈ allow_list /\ is_Some (headers !! k)).
Proof.
  split; [|split; [|split; [|split]]].
  - by rewrite GetFeedFacts.forwardedHeaders_lookup.
  - by rewrite GetFeedFacts.forwardedHeaders_lookup.
  - intros vs Hvs. by rewrite GetFeedFacts.forwardedHeaders_lookup, Hvs.
  - intros v Hv. by rewrite GetFeedFacts.forwardedHeaders_lookup, Hv.
  - intros k. rewrite elem_of_dom, GetFeedFacts.forwardedHeaders_lookup.
    unfold allow_list. repeat case_decide; subst.
    + destruct (headers !! "x-bsky-topics") as [[]|]; split;
        try (intros [_ [? [=]]]); try (intros [? [=]]);
        (split; [set_solver | eauto]) || eauto.
    + split; [intros ?; split; [set_solver | done] | by intros [_ ?]].
    + split; [intros ?; split; [set_solver | done] | by intros [_ ?]].
    + split; [by intros [? [=]]|]. intros [Hk _].
      repeat (apply elem_of_cons in Hk as [-> | Hk]); try done.
      by apply elem_of_nil in Hk.
Qed.

(** X7. The rule is idempotent: applied to its own result it removes
    nothing more, and it never adds an item. *)
Theorem noBlocksOrMutes_idempotent (sk : Skeleton) (h : HydrationState) :
  noBlocksOrMutes (noBlocksOrMutes sk h) h = noBlocksOrMutes sk h /\
  length (items (noBlocksOrMutes sk h)) <= length (items sk).
Proof.
  unfold noBlocksOrMutes. cbn [items passthrough resHeaders cursor timerSkele
    timerHydr]. split.
  - f_equal. induction (items sk) as [|x l IH]; [done|]. cbn.
    destruct (allowed _) eqn:E; cbn; rewrite ?E, IH; done.
  - apply filter_length_le.
Qed.

End Facts.
End HandlerFacts.

Module LoaderFacts.
Import FeedService.

(** ** Joins and folds *)

Lemma in_leftJoin_intro {A B : Type} (on : A -> B -> bool) (l : list A)
    (r : list B) (a : A) :
  In a l -> exists ob, In (a, ob) (leftJoin on l r).
Proof.
  intros Ha. unfold leftJoin.
  destruct (List.filter (on a) r) as [|b0 m] eqn:E.
  - exists None. apply in_flat_map. exists a. split; [assumption|].
    rewrite E. by left.
  - exists (Some b0). apply in_flat_map. exists a. split; [assumption|].
    rewrite E. by left.
Qed.

Lemma in_leftJoin_match {A B : Type} (on : A -> B -> bool) (l : list A)
    (r : list B) (a : A) (ob : option B) :
  In (a, ob) (leftJoin on l r) ->
  match ob with
  | Some b => In b r /\ on a b = true
  | None => forall b, In b r -> on a b = false
  end.
Proof.
  unfold leftJoin. rewrite in_flat_map. intros (a' & Ha & Hin).
  destruct (List.filter (on a') r) as [|b0 m] eqn:E.
  - destruct Hin as [[= -> <-] | []]. intros b Hb.
    destruct (on a b) eqn:Hon; [|reflexivity].
    assert (In b (List.filter (on a) r)) as Hf by (apply filter_In; auto).
    rewrite E in Hf. destruct Hf.
  - apply in_map_iff in Hin as (b' & [= -> <-] & Hb').
    rewrite <- E in Hb'. by apply filter_In in Hb'.
Qed.

(** A map built by assigning [acc[key cur] = val cur] row by row holds an
    entry for the key of every row: the value of the last row of that
    key. *)
Lemma lookup_fold_insert_In {R V : Type} (key : R -> string) (val : R -> V)
    (rows : list R) (acc : gmap string V) (cur : R) :
  In cur rows ->
  exists cur', In cur' rows /\ key cur' = key cur /\
    fold_left (fun acc cur => <[key cur := val cur]> acc) rows acc !! key cur
      = Some (val cur').
Proof.
  induction rows as [|c rows IH] using rev_ind; [intros []|].
  intros Hin. rewrite fold_left_app. cbn [fold_left].
  destruct (decide (key c = key cur)) as [E|E].
  - exists c. rewrite in_app_iff. cbn. rewrite <- E, lookup_insert_eq. auto.
  - rewrite lookup_insert_ne by assumption.
    apply in_app_iff in Hin as [Hin | [-> | []]]; [|done].
    destruct (IH Hin) as (c' & Hc' & Hk & Hl). exists c'.
    rewrite in_app_iff. auto.
Qed.

Lemma subselect_Some {A B : Type} (tbl : list A) (where_ : A -> bool)
    (col : A -> B) (v : B) :
  subselect tbl where_ col = Some v ->
  exists row, In row tbl /\ where_ row = true /\ col row = v.
Proof.
  unfold subselect. destruct (List.find where_ tbl) as [row|] eqn:E;
    [|discriminate].
  intros [= <-]. apply find_some in E. exists row. tauto.
Qed.


Lemma truthy_Some (s : option string) :
  truthy s = true -> exists v, s = Some v /\ v <> "".
Proof.
  unfold truthy. destruct s as [s|]; [|discriminate].
  destruct (String.eqb_spec s ""); cbn; [discriminate|]. eauto.
Qed.

Section Facts.
Context `{services : Services}.
Variable db : Database.

(** ** [getPostInfos] *)


(** X8. [getPostInfos] returns an entry for every requested post that is
    indexed with its record block, its record row and the repository of
    its author, when neither the record nor the repository is taken
    down; the entry is filed under the uri it carries. *)
Theorem getPostInfos_complete (postUris : list string) (requester : string)
    (p : Post) (b : IpldBlock) (rr : RepoRoot) (r : RecordRow) :
  In p (post db) -> In b (ipld_block db) ->
  In rr (repo_root db) -> In r (record db) ->
  ipld_cid b = post_cid p -> ipld_creator b = post_creator p ->
  rr_did rr = post_creator p -> record_uri r = post_uri p ->
  rr_takedownId rr = None -> record_takedownId r = None ->
  post_uri p ∈ postUris ->
  exists info,
    (getPostInfos db postUris requester).1 !! post_uri p = Some info /\
    pi_uri info = post_uri p.
Proof.
  intros Hp Hb Hrr Hr Hcid Hcreator Hdid Huri Hrepo Hrec Hreq.
  unfold getPostInfos.
  destruct postUris as [|u0 l]; [by apply elem_of_nil in Hreq|].
  cbn [length Nat.ltb Nat.leb bind call ret fst].
  destruct (in_leftJoin_intro
              (fun p a => String.eqb (agg_uri a) (post_uri p))
              (post db) (post_agg db) p Hp) as [agg Hagg].
  set (row := {| pi_uri := post_uri p; pi_cid := post_cid p;
     pi_creator := post_creator p; pi_indexedAt := post_indexedAt p;
     pi_recordBytes := ipld_content b;
     pi_likeCount := agg_likeCount <$> agg;
     pi_repostCount := agg_repostCount <$> agg;
     pi_replyCount := agg_replyCount <$> agg;
     pi_requesterRepost :=
       subselect (repost db)
         (fun r => String.eqb (repost_creator r) requester
                   && String.eqb (repost_subject r) (post_uri p))
         repost_uri;
     pi_requesterLike :=
       subselect (like db)
         (fun l => String.eqb (like_creator l) requester
                   && String.eqb (like_subject l) (post_uri p))
         like_uri |}).
  assert (In row (selectPosts db (u0 :: l) requester)) as Hrow.
  { unfold selectPosts. apply in_map_iff.
    exists ((((p, agg), b), rr), r). split; [reflexivity|].
    apply filter_In. split.
    - repeat (apply FeedServiceFacts.in_innerJoin; split; [|split]);
        try assumption.
      + rewrite Hcid, Hcreator, !String.eqb_refl. reflexivity.
      + rewrite Hdid. apply String.eqb_refl.
      + rewrite Huri. apply String.eqb_refl.
    - unfold in_. rewrite bool_decide_eq_true_2 by assumption.
      by rewrite Hrepo, Hrec. }
  destruct (lookup_fold_insert_In pi_uri id _ ∅ row Hrow)
    as (row' & _ & Hkey & Hlook).
  exists row'. split; [exact Hlook | exact Hkey].
Qed.


(** ** [getActorInfos] *)

Lemma selectActors_In (dids : list string) (requester : string) (soft : bool)
    (dh : DidHandle) (rr : RepoRoot) :
  In dh (did_handle db) -> In rr (repo_root db) -> rr_did rr = dh_did dh ->
  dh_did dh ∈ dids -> soft = true \/ rr_takedownId rr = None ->
  exists row, In row (selectActors db dids requester soft) /\
    ar_did row = dh_did dh /\ ar_handle row = dh_handle dh.
Proof.
  intros Hdh Hrr Hdid Hreq Hsoft.
  assert (In (dh, rr)
    (innerJoin (fun dh rr => String.eqb (rr_did rr) (dh_did dh))
       (did_handle db) (repo_root db))) as Hjoin.
  { apply FeedServiceFacts.in_innerJoin. repeat split; try assumption.
    rewrite Hdid. apply String.eqb_refl. }
  destruct (in_leftJoin_intro
    (fun '(dh, _) p => String.eqb (profile_creator p) (dh_did dh))
    _ (profile db) (dh, rr) Hjoin) as [prof Hprof].
  eexists. split.
  - unfold selectActors. apply in_map_iff. exists ((dh, rr), prof).
    split; [reflexivity|]. apply filter_In. split; [exact Hprof|].
    unfold in_. rewrite bool_decide_eq_true_2 by assumption. cbn.
    destruct Hsoft as [-> | ->]; [reflexivity | by destruct soft].
  - split; reflexivity.
Qed.

(** X10. [getActorInfos] returns an entry for every requested did that has a
    handle and a repository, when the repository is not taken down or
    [includeSoftDeleted] is set; the entry is filed under the did it
    carries. *)
Theorem getActorInfos_complete (dids : list string) (requester : string)
    (opts : option ActorOpts) (dh : DidHandle) (rr : RepoRoot) :
  In dh (did_handle db) -> In rr (repo_root db) -> rr_did rr = dh_did dh ->
  dh_did dh ∈ dids ->
  default false (opts ≫= includeSoftDeleted) = true \/ rr_takedownId rr = None ->
  exists info,
    (getActorInfos db dids requester opts).1 !! dh_did dh = Some info /\
    ai_did info = dh_did dh.
Proof.
  intros Hdh Hrr Hdid Hreq Hsoft. unfold getActorInfos.
  destruct dids as [|d0 l]; [by apply elem_of_nil in Hreq|].
  cbn [length Nat.ltb Nat.leb bind call ret fst getLabelsForSubjects
       getListMutes].
  destruct (selectActors_In (d0 :: l) requester
              (default false (opts ≫= includeSoftDeleted)) dh rr
              Hdh Hrr Hdid Hreq Hsoft) as (row & Hrow & Hk & _).
  set (val := actorInfoOf (default false (opts ≫= skipLabels))
    (labelsForSubjects (if default false (opts ≫= skipLabels) then [] else d0 :: l))
    (listMutesFor (d0 :: l) requester)).
  destruct (lookup_fold_insert_In ar_did val _ ∅ row Hrow)
    as (row' & _ & Hkey & Hlook).
  exists (val row'). rewrite <- Hk. split; [exact Hlook|].
  cbn. exact Hkey.
Qed.

Lemma getActorInfos_row (dids : list string) (requester : string)
    (opts : option ActorOpts) (did : string) (info : ActorInfo) :
  (getActorInfos db dids requester opts).1 !! did = Some info ->
  exists row,
    In row (selectActors db dids requester
              (default false (opts ≫= includeSoftDeleted))) /\
    ar_did row = did /\
    info = actorInfoOf (default false (opts ≫= skipLabels))
             (labelsForSubjects
                (if default false (opts ≫= skipLabels) then [] else dids))
             (listMutesFor dids requester) row.
Proof.
  unfold getActorInfos.
  destruct (length dids <? 1)%nat; [cbn; by rewrite lookup_empty|].
  cbn. intros H.
  apply FeedServiceFacts.lookup_fold_insert in H
    as [(row & Hrow & <- & <-) | H]; [|by rewrite lookup_empty in H].
  eauto.
Qed.



(** X12. The display name of an entry of [getActorInfos] is never empty and
    has at most 64 bytes in UTF-8; an avatar is set only for a non-empty
    [avatarCid] of a profile of the actor. *)
Theorem getActorInfos_displayName (dids : list string) (requester : string)
    (opts : option ActorOpts) (did : string) (info : ActorInfo) :
  (forall p name, In p (profile db) -> profile_displayName p = Some name ->
     Utf8.wf_jsstring name) ->
  (getActorInfos db dids requester opts).1 !! did = Some info ->
  (forall shown, ai_displayName info = Some shown ->
     shown <> [] /\ length (Utf8.TextEncoder_encode shown) <= 64) /\
  (forall url, ai_avatar info = Some url ->
     exists p cid, In p (profile db) /\ profile_creator p = did /\
       profile_avatarCid p = Some cid /\ cid <> "" /\
       url = getCommonSignedUri "avatar" cid).
Proof.
  intros Hwf (row & Hrow & <- & ->)%getActorInfos_row.
  unfold selectActors in Hrow.
  apply in_map_iff in Hrow as ([[dh rr] p] & <- & Hin).
  apply filter_In in Hin as [Hin _]. apply in_leftJoin_match in Hin.
  cbn [actorInfoOf ai_displayName ai_avatar ar_displayName ar_avatarCid ar_did].
  split.
  - intros shown Hshown.
    destruct p as [p|]; [|discriminate]. destruct Hin as [Hp _]. cbn in Hshown.
    destruct (profile_displayName p) as [name|] eqn:Hname; [|discriminate].
    destruct (Utf8.truncateUtf8 (Some name) 64) as [r|] eqn:E; [|discriminate].
    apply Utf8Facts.truncateUtf8_length in E; [|by apply (Hwf p)].
    destruct r; [discriminate|]. injection Hshown as <-. done.
  - intros url Hurl. destruct p as [p|]; [|discriminate].
    destruct Hin as [Hp Hon%String.eqb_eq]. cbn in Hurl.
    destruct (truthy (profile_avatarCid p)) eqn:Ht; [|discriminate].
    apply truthy_Some in Ht as (cid & Hcid & Hne). rewrite Hcid in Hurl.
    injection Hurl as <-. exists p, cid. done.
Qed.

(** X13. [getActorInfos] makes three calls for a non-empty list of dids: the
    query, the label lookup (for no subject when [skipLabels] is set) and
    the list-mute lookup; an entry has no labels exactly when [skipLabels]
    is set, and otherwise the labels looked up for its did, none when the
    lookup has none. *)
Theorem getActorInfos_labels (dids : list string) (requester : string)
    (opts : option ActorOpts) :
  dids <> [] ->
  let skip := default false (opts ≫= skipLabels) in
  (getActorInfos db dids requester opts).2 =
    [ SelectActors dids requester (default false (opts ≫= includeSoftDeleted));
      GetLabelsForSubjects (if skip then [] else dids);
      GetListMutes dids requester ] /\
  (forall did info,
     (getActorInfos db dids requester opts).1 !! did = Some info ->
     ai_labels info =
       if skip then None
       else Some (default [] (labelsForSubjects dids !! did))).
Proof.
  intros Hne. cbv zeta. split.
  - unfold getActorInfos. destruct dids; [done|]. reflexivity.
  - intros did info (row & Hrow & <- & ->)%getActorInfos_row.
    cbn [actorInfoOf ai_labels].
    by destruct (default false (opts ≫= skipLabels)).
Qed.

(** ** [getFeedGeneratorInfos] *)

(** X14. An entry of [getFeedGeneratorInfos] is filed under the uri of its
    generator; its like count is the number of like rows on that uri, and
    its viewer like is the uri of a like row of the requester on it. A
    requested generator whose record and whose creator's repository are
    not taken down, and whose creator has a handle, has an entry. *)
Theorem getFeedGeneratorInfos_entries (generatorUris : list string)
    (requester : string) :
  (forall uri info,
     (getFeedGeneratorInfos db generatorUris requester).1 !! uri = Some info ->
     fg_uri (fgi_generator info) = uri /\
     fgi_likeCount info =
       Z.of_nat (length (List.filter
         (fun l => String.eqb (like_subject l) uri) (like db))) /\
     (forall u, fgi_viewerLike info = Some u ->
        exists l, In l (like db) /\ like_uri l = u /\
          like_creator l = requester /\ like_subject l = uri)) /\
  (forall fg dh rr r,
     In fg (feed_generator db) -> In dh (did_handle db) ->
     In rr (repo_root db) -> In r (record db) ->
     dh_did dh = fg_creator fg -> rr_did rr = fg_creator fg ->
     record_uri r = fg_uri fg ->
     rr_takedownId rr = None -> record_takedownId r = None ->
     fg_uri fg ∈ generatorUris ->
     is_Some ((getFeedGeneratorInfos db generatorUris requester).1
                !! fg_uri fg)).
Proof.
  split.
  - intros uri info. unfold getFeedGeneratorInfos.
    destruct (length generatorUris <? 1)%nat; [cbn; by rewrite lookup_empty|].
    cbn. intros H.
    apply (FeedServiceFacts.lookup_fold_insert
             (fun cur => fg_uri (fgi_generator cur)) id) in H
      as [(row & Hrow & <- & <-) | H]; [|by rewrite lookup_empty in H].
    apply filter_In in Hrow as [Hrow _]. unfold selectFeedGeneratorQb in Hrow.
    apply in_map_iff in Hrow as ([[[fg dh] rr] r] & <- & _).
    cbn. repeat split.
    intros u (l & Hl & Hw & Hu)%subselect_Some.
    apply andb_true_iff in Hw as [H1%String.eqb_eq H2%String.eqb_eq]. eauto.
  - intros fg dh rr r Hfg Hdh Hrr Hr Hd1 Hd2 Hu Ht1 Ht2 Hreq.
    unfold getFeedGeneratorInfos.
    destruct generatorUris as [|u0 l]; [by apply elem_of_nil in Hreq|].
    cbn [length Nat.ltb Nat.leb bind call ret fst].
    set (row := {| fgi_generator := fg; fgi_handle := dh_handle dh;
      fgi_likeCount :=
        Z.of_nat (length (List.filter
          (fun l => String.eqb (like_subject l) (fg_uri fg)) (like db)));
      fgi_viewerLike :=
        subselect (like db)
          (fun l => String.eqb (like_creator l) requester
                    && String.eqb (like_subject l) (fg_uri fg))
          like_uri |}).
    assert (In row (List.filter
      (fun cur => in_ (fg_uri (fgi_generator cur)) (u0 :: l))
      (selectFeedGeneratorQb db requester))) as Hrow.
    { apply filter_In. split.
      - unfold selectFeedGeneratorQb. apply in_map_iff.
        exists (((fg, dh), rr), r). split; [reflexivity|].
        apply filter_In. split.
        + repeat (apply FeedServiceFacts.in_innerJoin; split; [|split]);
            try assumption.
          * rewrite Hd1. apply String.eqb_refl.
          * rewrite Hd2. apply String.eqb_refl.
          * rewrite Hu. apply String.eqb_refl.
        + by rewrite Ht1, Ht2.
      - unfold in_. by apply bool_decide_eq_true_2. }
    destruct (lookup_fold_insert_In (fun cur => fg_uri (fgi_generator cur)) id
                _ ∅ row Hrow) as (row' & _ & Hkey & Hlook).
    eexists. exact Hlook.
Qed.

End Facts.
End LoaderFacts.

Module HydrationFacts.
Import FeedService.

Lemma length_bind {A B : Type} (m : IO A) (k : A -> IO B) :
  length (bind m k).2 = length m.2 + length (k m.1).2.
Proof.
  unfold bind. destruct m as [a c1]. cbn [fst snd].
  destruct (k a) as [b c2]. cbn. apply length_app.
Qed.

Section Facts.
Context `{services : Services}.
Variable db : Database.

(** ** The first loop of [nestedRecordViews] *)

Lemma nestedPartition_fold (nestedUris : list string) (acc : Nested) :
  let nested := fold_left nestedPartitionStep nestedUris acc in
  nestedPostUris nested =
    nestedPostUris acc ++
    List.filter (fun uri => String.eqb (collection uri) AppBskyFeedPost)
      nestedUris /\
  nestedFeedGenUris nested =
    nestedFeedGenUris acc ++
    List.filter (fun uri => String.eqb (collection uri) AppBskyFeedGenerator)
      nestedUris /\
  nestedListUris nested =
    nestedListUris acc ++
    List.filter (fun uri => String.eqb (collection uri) AppBskyGraphList)
      nestedUris /\
  nestedDidsSet nested =
    fold_left (fun s x => set_add x s) (map hostname nestedUris)
      (nestedDidsSet acc).
Proof.
  revert acc. induction nestedUris as [|uri l IH]; intros acc; cbv zeta.
  - cbn. by rewrite !app_nil_r.
  - cbn [fold_left List.filter map].
    destruct (IH (nestedPartitionStep acc uri)) as (-> & -> & -> & ->).
    unfold nestedPartitionStep.
    destruct (String.eqb_spec (collection uri) AppBskyFeedPost) as [E|E].
    { rewrite E. cbn. by rewrite <- app_assoc. }
    destruct (String.eqb_spec (collection uri) AppBskyFeedGenerator) as [E'|E'].
    { rewrite E'. cbn. by rewrite <- app_assoc. }
    destruct (String.eqb_spec (collection uri) AppBskyGraphList) as [E''|E''].
    { cbn. by rewrite <- app_assoc. }
    done.
Qed.

(** X15. The first loop of [nestedRecordViews] files every uri under its
    collection, in order and as often as it occurs: posts, feed
    generators and lists each in an array of their own, a uri of another
    collection in none; the set of dids holds the authority of every uri
    once. *)
Theorem nestedPartition_by_collection (nestedUris : list string) :
  let nested := nestedPartition nestedUris in
  nestedPostUris nested =
    List.filter (fun uri => String.eqb (collection uri) AppBskyFeedPost)
      nestedUris /\
  nestedFeedGenUris nested =
    List.filter (fun uri => String.eqb (collection uri) AppBskyFeedGenerator)
      nestedUris /\
  nestedListUris nested =
    List.filter (fun uri => String.eqb (collection uri) AppBskyGraphList)
      nestedUris /\
  nestedDidsSet nested = dedupeStrs (map hostname nestedUris) /\
  NoDup (nestedDidsSet nested) /\
  (forall did, did ∈ nestedDidsSet nested <->
     exists uri, uri ∈ nestedUris /\ hostname uri = did).
Proof.
  cbv zeta. unfold nestedPartition.
  destruct (nestedPartition_fold nestedUris
    {| nestedPostUris := []; nestedFeedGenUris := [];
       nestedListUris := []; nestedDidsSet := [] |}) as (-> & -> & -> & ->).
  cbn [nestedPostUris nestedFeedGenUris nestedListUris nestedDidsSet app].
  change (fold_left (fun s x => set_add x s) (map hostname nestedUris) [])
    with (dedupeStrs (map hostname nestedUris)).
  repeat split.
  - apply FeedServiceFacts.dedupeStrs_NoDup.
  - intros Hin. apply (proj1 (FeedServiceFacts.dedupeStrs_elem _ _)) in Hin.
    apply list_elem_of_fmap in Hin as (uri & -> & Huri). eauto.
  - intros (uri & Huri & <-). apply FeedServiceFacts.dedupeStrs_elem.
    apply list_elem_of_fmap. eauto.
Qed.

(** ** The map [nestedRecordViews] returns *)

Lemma collections_distinct (c : string) :
  (c = AppBskyFeedGenerator -> c <> AppBskyGraphList /\ c <> AppBskyFeedPost) /\
  (c = AppBskyGraphList -> c <> AppBskyFeedPost).
Proof. split; intros ->; try split; discriminate. Qed.

Lemma recordEmbedAssigned_cases (postInfos : PostInfoMap)
    (actorInfos : ActorInfoMap) (labelViews : Labels)
    (feedGenInfos : FeedGenInfoMap) (listViews : gmap string ListInfo)
    (uri : string) :
  let assigned :=
    recordEmbedAssigned postInfos actorInfos labelViews feedGenInfos listViews
      uri in
  (forall view,
     assigned = Some (GeneratorViewRecord view) <->
     collection uri = AppBskyFeedGenerator /\
     exists info,
       feedGenInfos !! uri = Some info /\
       view = formatFeedGeneratorView info actorInfos labelViews) /\
  (forall view,
     assigned = Some (ListViewRecord view) <->
     collection uri = AppBskyGraphList /\
     exists list,
       listViews !! uri = Some list /\
       view = formatListView list actorInfos) /\
  (forall entry,
     assigned = Some entry ->
     entry = ViewNotFound uri \/
     (exists view, entry = GeneratorViewRecord view) \/
     (exists view, entry = ListViewRecord view)).
Proof.
  cbv zeta. unfold recordEmbedAssigned.
  pose proof (collections_distinct (collection uri)) as [Hg Hl].
  destruct (String.eqb_spec (collection uri) AppBskyFeedGenerator) as [E1|E1];
  destruct (feedGenInfos !! uri) as [info|] eqn:F1;
  destruct (String.eqb_spec (collection uri) AppBskyGraphList) as [E2|E2];
  destruct (listViews !! uri) as [list|] eqn:F2;
  destruct (String.eqb_spec (collection uri) AppBskyFeedPost) as [E3|E3];
  destruct (postInfos !! uri) as [pinfo|] eqn:F3;
  try (exfalso; destruct (Hg E1); contradiction);
  try (exfalso; specialize (Hl E2); contradiction);
  (split; [|split]);
  try (intros view; split;
       [ intros Hv; simplify_eq; eauto
       | intros (Hc & i & Hi & ->); congruence ]);
  try (intros entry He; simplify_eq; eauto).
Qed.
(** X16. The map [nestedRecordViews] returns holds a generator view exactly
    for the collected uris of the generator collection that were
    hydrated, a list view exactly for those of the list collection that
    were hydrated, and the not-found record of a uri exactly for the
    collected uris that no lookup resolved; it holds nothing else. *)
Theorem nestedRecordViews_entries (posts : list PostRecord)
    (requester uri : string) :
  let h := nestedHydration db posts requester in
  let views := (nestedRecordViews db posts requester).1 in
  (forall view,
     views !! uri = Some (GeneratorViewRecord view) <->
     uri ∈ nestedRecordUris posts /\
     collection uri = AppBskyFeedGenerator /\
     exists info,
       nh_feedGenInfos h !! uri = Some info /\
       view = formatFeedGeneratorView info (nh_actorInfos h) (nh_labelViews h)) /\
  (forall view,
     views !! uri = Some (ListViewRecord view) <->
     uri ∈ nestedRecordUris posts /\
     collection uri = AppBskyGraphList /\
     exists list,
       nh_listViews h !! uri = Some list /\
       view = formatListView list (nh_actorInfos h)) /\
  (forall entry,
     views !! uri = Some entry ->
     uri ∈ nestedRecordUris posts /\
     (entry = ViewNotFound uri \/
      (exists view, entry = GeneratorViewRecord view) \/
      (exists view, entry = ListViewRecord view))).
Proof.
  cbv zeta. rewrite FeedServiceFacts.nestedRecordViews_lookup.
  case_bool_decide as Hin.
  { cbv zeta.
    destruct (recordEmbedAssigned_cases
      (nh_postInfos (nestedHydration db posts requester))
      (nh_actorInfos (nestedHydration db posts requester))
      (nh_labelViews (nestedHydration db posts requester))
      (nh_feedGenInfos (nestedHydration db posts requester))
      (nh_listViews (nestedHydration db posts requester)) uri)
      as (Hgen & Hlist & Hall).
    split; [|split].
    - intros view. rewrite Hgen. tauto.
    - intros view. rewrite Hlist. tauto.
    - intros entry He. split; [assumption|]. by apply Hall. }
  split; [|split].
  - intros view. split; [discriminate | tauto].
  - intros view. split; [discriminate | tauto].
  - discriminate.
Qed.

(** ** The number of calls *)

Lemma getActorInfos_calls (dids : list string) (requester : string)
    (opts : option ActorOpts) :
  length (getActorInfos db dids requester opts).2 <= 3.
Proof. unfold getActorInfos. destruct (length dids <? 1)%nat; cbn; lia. Qed.

Lemma getPostInfos_calls (postUris : list string) (requester : string) :
  length (getPostInfos db postUris requester).2 <= 1.
Proof. unfold getPostInfos. destruct (length postUris <? 1)%nat; cbn; lia. Qed.

Lemma getFeedGeneratorInfos_calls (generatorUris : list string)
    (requester : string) :
  length (getFeedGeneratorInfos db generatorUris requester).2 <= 1.
Proof.
  unfold getFeedGeneratorInfos.
  destruct (length generatorUris <? 1)%nat; cbn; lia.
Qed.

Lemma nestedRecordViews_calls (posts : list PostRecord) (requester : string) :
  length (nestedRecordViews db posts requester).2 <= 7.
Proof.
  unfold nestedRecordViews.
  destruct (length (nestedRecordUris posts) <? 1)%nat; [cbn; lia|].
  rewrite !length_bind. cbn [ret snd length getLabelsForSubjects getListViews
    call fst].
  pose proof (getPostInfos_calls
    (nestedPostUris (nestedPartition (nestedRecordUris posts))) requester).
  pose proof (getActorInfos_calls
    (nestedDidsSet (nestedPartition (nestedRecordUris posts))) requester
    (Some {| skipLabels := Some true; includeSoftDeleted := None |})).
  pose proof (getFeedGeneratorInfos_calls
    (nestedFeedGenUris (nestedPartition (nestedRecordUris posts))) requester).
  lia.
Qed.

(** X17. The number of calls does not grow with the batch: [getActorInfos]
    makes at most three, [getPostInfos] and [getFeedGeneratorInfos] at
    most one each, [nestedRecordViews] at most seven for any number of
    posts, [hydrateFeed] at most five for any number of feed items and
    [getPostViews] at most five for any number of uris. *)
Theorem calls_bounded (requester : string) :
  (forall dids opts, length (getActorInfos db dids requester opts).2 <= 3) /\
  (forall postUris, length (getPostInfos db postUris requester).2 <= 1) /\
  (forall generatorUris,
     length (getFeedGeneratorInfos db generatorUris requester).2 <= 1) /\
  (forall posts, length (nestedRecordViews db posts requester).2 <= 7) /\
  (forall items usePostViewUnion,
     length (hydrateFeed db items requester usePostViewUnion).2 <= 5) /\
  (forall postUris precomputed,
     length (getPostViews db postUris requester precomputed).2 <= 5).
Proof.
  split; [intros; apply getActorInfos_calls|].
  split; [intros; apply getPostInfos_calls|].
  split; [intros; apply getFeedGeneratorInfos_calls|].
  split; [intros; apply nestedRecordViews_calls|].
  split.
  - intros items usePostViewUnion. unfold hydrateFeed.
    destruct (feedIds items) as [actorDids postUris].
    rewrite !length_bind, FeedServiceFacts.embedsForPosts_nothing.
    cbn [ret snd length getLabelsForSubjects call fst].
    pose proof (getActorInfos_calls actorDids requester
      (Some {| skipLabels := Some true; includeSoftDeleted := None |})).
    pose proof (getPostInfos_calls postUris requester).
    lia.
  - intros postUris precomputed. unfold getPostViews.
    rewrite !length_bind.
    pose proof (getActorInfos_calls (dedupeStrs (map hostname postUris))
      requester (Some {| skipLabels := Some true; includeSoftDeleted := None |})).
    pose proof (getPostInfos_calls (dedupeStrs postUris) requester).
    destruct (precomputed ≫= pre_actors), (precomputed ≫= pre_posts),
      (precomputed ≫= pre_labels), (precomputed ≫= pre_embeds);
      cbn [ret snd fst length getLabelsForSubjects call] in *;
      rewrite ?FeedServiceFacts.embedsForPosts_nothing;
      cbn [ret snd fst length getLabelsForSubjects call] in *; lia.
Qed.

(** ** The sets of [hydrateFeed] *)

Lemma feedIdsStep_elem (sets : list string * list string) (item : FeedRow)
    (x : string) :
  (x ∈ (feedIdsStep sets item).1 <->
     x ∈ sets.1 \/ x = fr_postAuthorDid item \/ x = fr_originatorDid item \/
     (exists parent, fr_replyParent item = Some parent /\ parent <> "" /\
        x = hostname parent) \/
     (exists root, fr_replyRoot item = Some root /\ root <> "" /\
        x = hostname root)) /\
  (x ∈ (feedIdsStep sets item).2 <->
     x ∈ sets.2 \/ x = fr_postUri item \/
     (exists parent, fr_replyParent item = Some parent /\ parent <> "" /\
        x = parent) \/
     (exists root, fr_replyRoot item = Some root /\ root <> "" /\ x = root)).
Proof.
  destruct sets as [actorDids postUris]. unfold feedIdsStep. cbn [fst snd].
  destruct (String.eqb_spec (fr_postAuthorDid item) (fr_originatorDid item))
    as [Eo|Eo]; cbn [negb];
  destruct (fr_replyParent item) as [[|c parent]|] eqn:Hp;
  destruct (fr_replyRoot item) as [[|c' root]|] eqn:Hr; cbn [fst snd];
  rewrite ?FeedServiceFacts.set_add_elem; rewrite <- ?Eo;
  (split; split;
   [ intros H; decompose [or] H; subst; eauto 10
   | intros H; decompose [or] H; subst; auto;
     repeat match goal with
            | H : exists _, _ |- _ => destruct H as (? & ? & ? & ?)
            end; simplify_eq; auto
   | intros H; decompose [or] H; subst; eauto 10
   | intros H; decompose [or] H; subst; auto;
     repeat match goal with
            | H : exists _, _ |- _ => destruct H as (? & ? & ? & ?)
            end; simplify_eq; auto ]).
Qed.

(** X18. The two sets [hydrateFeed] hydrates hold what the feed rows refer to
    and nothing else: the author and the originator of every row and the
    authority of its reply parent and reply root as actors; the post and
    its reply parent and reply root as posts; each once. *)
Theorem feedIds_cover (items : list FeedRow) (x : string) :
  (x ∈ (feedIds items).1 <->
     exists item, In item items /\
       (x = fr_postAuthorDid item \/ x = fr_originatorDid item \/
        (exists parent, fr_replyParent item = Some parent /\ parent <> "" /\
           x = hostname parent) \/
        (exists root, fr_replyRoot item = Some root /\ root <> "" /\
           x = hostname root))) /\
  (x ∈ (feedIds items).2 <->
     exists item, In item items /\
       (x = fr_postUri item \/
        (exists parent, fr_replyParent item = Some parent /\ parent <> "" /\
           x = parent) \/
        (exists root, fr_replyRoot item = Some root /\ root <> "" /\
           x = root))) /\
  NoDup (feedIds items).1 /\ NoDup (feedIds items).2.
Proof.
  split; [|split; [|apply FeedServiceFacts.feedIds_NoDup]].
  - unfold feedIds.
    enough (forall sets,
      x ∈ (fold_left feedIdsStep items sets).1 <->
      x ∈ sets.1 \/
      exists item, In item items /\
       (x = fr_postAuthorDid item \/ x = fr_originatorDid item \/
        (exists parent, fr_replyParent item = Some parent /\ parent <> "" /\
           x = hostname parent) \/
        (exists root, fr_replyRoot item = Some root /\ root <> "" /\
           x = hostname root))) as H.
    { rewrite H. cbn. rewrite elem_of_nil. tauto. }
    induction items as [|item items IH]; intros sets; cbn [fold_left].
    + split; [auto|]. intros [?|(? & [] & _)]. assumption.
    + rewrite IH, (proj1 (feedIdsStep_elem sets item x)). cbn [In]. split.
      * intros [[?|?]|(i & ? & ?)]; eauto 6.
      * intros [?|(i & [<-|?] & ?)]; eauto 6.
  - unfold feedIds.
    enough (forall sets,
      x ∈ (fold_left feedIdsStep items sets).2 <->
      x ∈ sets.2 \/
      exists item, In item items /\
       (x = fr_postUri item \/
        (exists parent, fr_replyParent item = Some parent /\ parent <> "" /\
           x = parent) \/
        (exists root, fr_replyRoot item = Some root /\ root <> "" /\
           x = root))) as H.
    { rewrite H. cbn. rewrite elem_of_nil. tauto. }
    induction items as [|item items IH]; intros sets; cbn [fold_left].
    + split; [auto|]. intros [?|(? & [] & _)]. assumption.
    + rewrite IH, (proj2 (feedIdsStep_elem sets item x)). cbn [In]. split.
      * intros [[?|?]|(i & ? & ?)]; eauto 6.
      * intros [?|(i & [<-|?] & ?)]; eauto 6.
Qed.

(** X19. [hydrateFeed] hands the rows to [formatFeed] as it received them,
    with the actors and the posts of the two sets, the labels of both
    looked up in one call, and an embed map that is always empty; no
    query of a loader carries an identifier twice. *)
Theorem hydrateFeed_formats (items : list FeedRow) (requester : string)
    (usePostViewUnion : option bool) :
  let actorDids := (feedIds items).1 in
  let postUris := (feedIds items).2 in
  let opts := Some {| skipLabels := Some true; includeSoftDeleted := None |} in
  hydrateFeed db items requester usePostViewUnion =
    (formatFeed items
       (getActorInfos db actorDids requester opts).1
       (getPostInfos db postUris requester).1
       ∅
       (labelsForSubjects (postUris ++ actorDids))
       usePostViewUnion,
     (getActorInfos db actorDids requester opts).2
       ++ (getPostInfos db postUris requester).2
       ++ [GetLabelsForSubjects (postUris ++ actorDids)]) /\
  Forall (fun c => is_loader_call c = true -> NoDup (call_ids c))
    (hydrateFeed db items requester usePostViewUnion).2.
Proof.
  cbv zeta. split; [|apply FeedServiceFacts.hydrateFeed_calls_NoDup].
  unfold hydrateFeed.
  destruct (feedIds items) as [actorDids postUris]. cbn [fst snd].
  unfold bind.
  destruct (getActorInfos db actorDids requester _) as [actors c1].
  destruct (getPostInfos db postUris requester) as [ps c2].
  rewrite FeedServiceFacts.embedsForPosts_nothing. cbn.
  by rewrite ?app_nil_r.
Qed.

(** ** [getPostViews] *)

(** X20. [getPostViews] looks up only what was not handed to it: a
    precomputed map replaces its lookup, and with the four maps
    precomputed no call is made. The result has the view of a uri exactly
    when the uri was asked for and [formatPostView] returns its view from
    the maps in use. *)
Theorem getPostViews_views (postUris : list string) (requester : string)
    (precomputed : option Precomputed) (uri : string) :
  let uris := dedupeStrs postUris in
  let dids := dedupeStrs (map hostname postUris) in
  let opts := Some {| skipLabels := Some true; includeSoftDeleted := None |} in
  let actors :=
    default (getActorInfos db dids requester opts).1
      (precomputed ≫= pre_actors) in
  let posts :=
    default (getPostInfos db uris requester).1 (precomputed ≫= pre_posts) in
  let labels :=
    default (labelsForSubjects (uris ++ dids)) (precomputed ≫= pre_labels) in
  let embeds := default ∅ (precomputed ≫= pre_embeds) in
  (getPostViews db postUris requester precomputed).1 !! uri =
    (if bool_decide (uri ∈ postUris)
     then formatPostView uri actors posts embeds labels else None) /\
  (getPostViews db postUris requester precomputed).2 =
    match precomputed ≫= pre_actors with
    | Some _ => []
    | None => (getActorInfos db dids requester opts).2
    end
    ++ match precomputed ≫= pre_posts with
       | Some _ => []
       | None => (getPostInfos db uris requester).2
       end
    ++ match precomputed ≫= pre_labels with
       | Some _ => []
       | None => [GetLabelsForSubjects (uris ++ dids)]
       end.
Proof.
  cbv zeta. unfold getPostViews, bind.
  destruct (getActorInfos db (dedupeStrs (map hostname postUris)) requester _)
    as [a c1].
  destruct (getPostInfos db (dedupeStrs postUris) requester) as [p c2].
  assert (forall acts ps es ls,
    fold_left (fun acc cur =>
        match formatPostView cur acts ps es ls with
        | Some view => <[cur := view]> acc
        | None => acc
        end) (dedupeStrs postUris) (∅ : PostViews) !! uri
    = if bool_decide (uri ∈ postUris)
      then formatPostView uri acts ps es ls else None) as Hfold.
  { intros acts ps es ls.
    rewrite (FeedServiceFacts.lookup_fold_assigned
               (fun cur => formatPostView cur acts ps es ls)).
    rewrite lookup_empty.
    rewrite (bool_decide_ext (uri ∈ dedupeStrs postUris) (uri ∈ postUris))
      by apply FeedServiceFacts.dedupeStrs_elem.
    case_bool_decide; [|reflexivity]. by destruct (formatPostView _ _ _ _ _). }
  destruct (precomputed ≫= pre_actors) as [pa|],
    (precomputed ≫= pre_posts) as [pp|],
    (precomputed ≫= pre_labels) as [pl|],
    (precomputed ≫= pre_embeds) as [pe|];
    cbn [ret fst snd default getLabelsForSubjects call app];
    rewrite ?FeedServiceFacts.embedsForPosts_nothing;
    cbn [ret fst snd default getLabelsForSubjects call app];
    rewrite ?app_nil_r; (split; [apply Hfold | reflexivity]).
Qed.

(** ** The loop of [embedsForPosts] *)

Lemma postEmbedStep_other
    (recordEmbedViews : gmap string RecordEmbedViewRecord)
    (acc : PostEmbedViews) (entry : string * PostRecord) (uri : string) :
  entry.1 <> uri ->
  postEmbedStep recordEmbedViews acc entry !! uri = acc !! uri.
Proof.
  destruct entry as [k post]. cbn [fst]. intros Hne. unfold postEmbedStep.
  destruct (embed post) as [[images|external|record|record [images|external|t]|t]|];
    try reflexivity;
    try (by rewrite lookup_insert_ne).
  destruct (recordEmbedViews !! ref_uri record); cbn;
    [by rewrite lookup_insert_ne | by rewrite lookup_delete_ne].
Qed.

Lemma postEmbedStep_own
    (recordEmbedViews : gmap string RecordEmbedViewRecord)
    (acc : PostEmbedViews) (uri : string) (post : PostRecord) :
  acc !! uri = None ->
  postEmbedStep recordEmbedViews acc (uri, post) !! uri
  = postEmbedStep recordEmbedViews ∅ (uri, post) !! uri.
Proof.
  intros Hacc. unfold postEmbedStep.
  destruct (embed post)
    as [[images|external|record|record [images|external|t]|t]|];
    rewrite ?lookup_insert_eq, ?lookup_empty; try done.
  destruct (recordEmbedViews !! ref_uri record); cbn;
    by rewrite ?lookup_insert_eq, ?lookup_delete_eq.
Qed.

Lemma embed_loop_other
    (recordEmbedViews : gmap string RecordEmbedViewRecord)
    (l : list (string * PostRecord)) (acc : PostEmbedViews) (uri : string) :
  uri ∉ l.*1 ->
  fold_left (postEmbedStep recordEmbedViews) l acc !! uri = acc !! uri.
Proof.
  revert acc. induction l as [|e l IH]; intros acc Hnot; [reflexivity|].
  cbn [fold_left]. cbn in Hnot. apply not_elem_of_cons in Hnot as [Hne Hnot].
  rewrite IH by assumption. apply postEmbedStep_other.
  intros E. apply Hne. symmetry. exact E.
Qed.

(** X21. The loop of [embedsForPosts], over any map of posts: the posts do
    not interfere. What the loop leaves at a uri is what its body computes
    for the post at that uri alone, and nothing when the map has no post
    there; so a post with images gets the views of its own images, a post
    with a record embed gets the record view found for the uri it refers
    to and no entry when that reference was not resolved, and a post
    without an embed gets no entry. *)
Theorem embed_loop_views
    (recordEmbedViews : gmap string RecordEmbedViewRecord)
    (postMap : gmap string PostRecord) (uri : string) :
  let views :=
    fold_left (postEmbedStep recordEmbedViews) (map_to_list postMap) ∅ in
  views !! uri =
    (postMap !! uri ≫= fun post =>
       postEmbedStep recordEmbedViews ∅ (uri, post) !! uri) /\
  (forall post images,
     postMap !! uri = Some post -> embed post = Some (EmbedImages images) ->
     views !! uri = Some (ImagesEmbedView (imagesEmbedView images))) /\
  (forall post record,
     postMap !! uri = Some post -> embed post = Some (EmbedRecord record) ->
     views !! uri = RecordEmbedView <$> recordEmbedViews !! ref_uri record) /\
  (forall post,
     postMap !! uri = Some post -> embed post = None -> views !! uri = None).
Proof.
  cbv zeta.
  assert (fold_left (postEmbedStep recordEmbedViews) (map_to_list postMap) ∅
            !! uri
          = postMap !! uri ≫= fun post =>
              postEmbedStep recordEmbedViews ∅ (uri, post) !! uri) as Hmain.
  { pose proof (NoDup_fst_map_to_list postMap) as Hnd.
    destruct (postMap !! uri) as [post|] eqn:Hlook; cbn [mbind option_bind].
    - apply elem_of_map_to_list in Hlook.
      assert ((∅ : PostEmbedViews) !! uri = None) as Hacc by apply lookup_empty.
      revert Hlook Hnd Hacc. generalize (∅ : PostEmbedViews) at 1 3.
      induction (map_to_list postMap) as [|[k p] l IH]; intros acc Hin Hnd Hacc.
      { by apply elem_of_nil in Hin. }
      cbn [fold_left]. cbn in Hnd. apply NoDup_cons in Hnd as [Hk Hnd].
      apply elem_of_cons in Hin as [[= <- <-] | Hin].
      + rewrite embed_loop_other by assumption. by apply postEmbedStep_own.
      + apply IH; [assumption..|].
        rewrite postEmbedStep_other; [assumption|].
        cbn. intros ->. apply Hk. apply list_elem_of_fmap. by exists (uri, post).
    - rewrite embed_loop_other; [apply lookup_empty|].
      intros Hin. apply list_elem_of_fmap in Hin as ([k p] & -> & Hin).
      apply elem_of_map_to_list in Hin. cbn in Hin, Hlook. congruence. }
  split; [exact Hmain|]. rewrite Hmain.
  split; [|split].
  - intros post images -> Hembed. cbn. unfold postEmbedStep. rewrite Hembed.
    apply lookup_insert_eq.
  - intros post record -> Hembed. cbn. unfold postEmbedStep. rewrite Hembed.
    destruct (recordEmbedViews !! ref_uri record); cbn;
      [apply lookup_insert_eq | apply lookup_delete_eq].
  - intros post -> Hembed. cbn. unfold postEmbedStep. by rewrite Hembed.
Qed.

End Facts.
End HydrationFacts.

Module TruncationFacts.
Import Utf8 Utf8Facts.
Local Open Scope Z_scope.

(** ** Strings of ASCII characters *)

Lemma to_scalars_ascii (s : jsstring) :
  Forall (fun u : Z => 0 <= u <= 0x7F) s -> to_scalars s = s.
Proof.
  induction 1 as [|u s Hu Hs IH]; [reflexivity|].
  cbn beta in Hu. cbn [to_scalars].
  unfold is_high_surrogate, is_low_surrogate. zbool. by rewrite IH.
Qed.

Lemma utf8_encode_ascii (s : list Z) :
  Forall (fun u : Z => 0 <= u <= 0x7F) s -> utf8_encode s = s.
Proof.
  induction 1 as [|u s Hu Hs IH]; [reflexivity|].
  cbn beta in Hu. unfold utf8_encode in *. cbn [flat_map].
  rewrite IH. unfold encode_cp. zbool. reflexivity.
Qed.

Lemma from_scalars_ascii (s : list Z) :
  Forall (fun u : Z => 0 <= u <= 0x7F) s -> from_scalars s = s.
Proof.
  induction 1 as [|u s Hu Hs IH]; [reflexivity|].
  cbn beta in Hu. unfold from_scalars in *. cbn [flat_map].
  rewrite IH. unfold units_of. zbool. reflexivity.
Qed.

Lemma ascii_scalar (s : list Z) : Forall (fun u : Z => 0 <= u <= 0x7F) s -> Forall is_scalar s.
Proof.
  intros H. eapply Forall_impl; [exact H|].
  intros u Hu. cbn beta in Hu. unfold is_scalar. lia.
Qed.

Lemma strip_bom_ascii (s : list Z) : Forall (fun u : Z => 0 <= u <= 0x7F) s -> strip_bom s = s.
Proof.
  intros Hs. destruct Hs as [|u s Hu Hs]; [reflexivity|].
  cbn beta in Hu. unfold strip_bom, BOM. zbool. reflexivity.
Qed.

Lemma replace_trailing_ascii (s : list Z) :
  Forall (fun u : Z => 0 <= u <= 0x7F) s -> replace_trailing_FFFD s = s.
Proof.
  intros Hs. unfold replace_trailing_FFFD.
  destruct (last s) as [u|] eqn:Hl; [|reflexivity].
  apply last_Some in Hl as [l' ->]. apply Forall_app in Hs as [_ Hu].
  apply Forall_cons in Hu as [Hu _]. cbn beta in Hu.
  unfold REPLACEMENT. zbool. reflexivity.
Qed.

(** X22. On a string of ASCII characters [truncateUtf8] keeps the first
    [length] characters. *)
Theorem truncateUtf8_ascii (s : jsstring) (N : nat) :
  Forall (fun u : Z => 0 <= u <= 0x7F) s -> truncateUtf8 (Some s) N = Some (firstn N s).
Proof.
  intros Hs. unfold truncateUtf8. destruct s as [|u s'].
  { by rewrite firstn_nil. }
  set (s := u :: s') in *. cbv zeta. unfold TextEncoder_encode.
  rewrite (to_scalars_ascii s Hs), (utf8_encode_ascii s Hs).
  destruct (Nat.ltb_spec N (length s)) as [Hlt | Hge].
  - f_equal. unfold TextDecoder_decode.
    assert (Forall (fun u : Z => 0 <= u <= 0x7F) (firstn N s)) as Hf by (by apply Forall_take).
    rewrite <- (utf8_encode_ascii (firstn N s) Hf) at 1.
    rewrite utf8_decode_encode by (by apply ascii_scalar).
    rewrite (strip_bom_ascii _ Hf), (from_scalars_ascii _ Hf).
    by apply replace_trailing_ascii.
  - by rewrite firstn_all2.
Qed.

(** ** Truncating twice *)

(** X23. [truncateUtf8] is idempotent: a string it returned is returned
    unchanged when it is truncated to the same length again. *)
Theorem truncateUtf8_idempotent (s r : jsstring) (N : nat) :
  wf_jsstring s ->
  truncateUtf8 (Some s) N = Some r ->
  truncateUtf8 (Some r) N = Some r.
Proof.
  intros Hwf Hr. apply truncateUtf8_length in Hr; [|assumption].
  unfold truncateUtf8. destruct r as [|u r']; [reflexivity|].
  cbv zeta. destruct (Nat.ltb_spec N (length (TextEncoder_encode (u :: r'))));
    [lia | reflexivity].
Qed.

(** ** Nothing more is dropped than must be *)

Lemma cut_tail_length (Q p : list Z) :
  cut_tail Q p ->
  match p with
  | [] => True
  | _ => exists c Q', Q = c :: Q' /\ (length p < length (encode_cp c))%nat
  end.
Proof.
  intros [Q0 | c Q0 k Hk]; [exact I|].
  destruct (firstn k (encode_cp c)) as [|b t] eqn:E.
  { apply (f_equal (@length Z)) in E. rewrite length_firstn in E. cbn in E. lia. }
  exists c, Q0. split; [reflexivity|]. rewrite <- E, length_firstn. lia.
Qed.

(** X24. When a string without U+FFFD, without a lone surrogate and without a
    leading U+FEFF is too long, [truncateUtf8] drops no more than it must:
    the result is a prefix of the code points of the string, and with the
    next code point of the string it would exceed the length. *)
Theorem truncateUtf8_maximal (s r : jsstring) (N : nat) :
  wf_jsstring s ->
  REPLACEMENT ∉ to_scalars s ->
  head (to_scalars s) <> Some BOM ->
  (N < length (TextEncoder_encode s))%nat ->
  truncateUtf8 (Some s) N = Some r ->
  exists c rest,
    to_scalars s = to_scalars r ++ c :: rest /\
    (N < length (TextEncoder_encode r) + length (encode_cp c))%nat /\
    (length (TextEncoder_encode r) <= N)%nat.
Proof.
  intros Hwf Hno Hbom Hlt Hr.
  pose proof (truncateUtf8_length s r N Hwf Hr) as Hfit.
  revert Hr. unfold truncateUtf8. destruct s as [|u s'].
  { cbn in Hlt. lia. }
  set (s := u :: s') in *. cbv zeta.
  destruct (Nat.ltb_spec N (length (TextEncoder_encode s))) as [_ | Hge]; [|lia].
  intros [= <-]. revert Hfit. unfold TextEncoder_encode in *.
  pose proof (to_scalars_scalar s Hwf) as Hs.
  destruct (firstn_utf8_encode (to_scalars s) N) as (P & Q & p & HPQ & Hf & Hcut).
  assert (length (utf8_encode P ++ p) = N) as HlenN.
  { rewrite <- Hf, length_firstn. lia. }
  rewrite HPQ in Hs. pose proof Hs as HsP. apply Forall_app in HsP as [HsP HsQ].
  assert (strip_bom P = P) as HstripP.
  { destruct P as [|c0 P']; [reflexivity|]. unfold strip_bom.
    destruct (Z.eqb_spec c0 BOM) as [->|]; [|reflexivity].
    rewrite HPQ in Hbom. by destruct Hbom. }
  assert (REPLACEMENT ∉ P) as HnoP.
  { intros Hin. apply Hno. rewrite HPQ. apply elem_of_app. by left. }
  assert (replace_trailing_FFFD P = P) as HrepP.
  { unfold replace_trailing_FFFD. destruct (last P) as [c0|] eqn:Hl; [|reflexivity].
    destruct (Z.eqb_spec c0 REPLACEMENT) as [->|]; [|reflexivity].
    apply last_Some in Hl as [l' ->]. exfalso. apply HnoP.
    apply elem_of_app. right. by left. }
  unfold TextDecoder_decode. rewrite Hf, (utf8_decode_cut P Q p Hs Hcut).
  pose proof (cut_tail_length Q p Hcut) as Htail.
  destruct p as [|b t].
  - rewrite app_nil_r, HstripP.
    rewrite replace_trailing_from_scalars, HrepP by assumption.
    rewrite to_from_scalars by assumption. intros _.
    rewrite app_nil_r in HlenN.
    destruct Q as [|c Q'].
    { exfalso. rewrite HPQ, app_nil_r in Hlt. lia. }
    exists c, Q'. split; [exact HPQ|].
    apply Forall_cons in HsQ as [Hc _]. pose proof (encode_cp_length c Hc). lia.
  - destruct Htail as (c & Q' & -> & Hk).
    assert (strip_bom (P ++ [REPLACEMENT]) = P ++ [REPLACEMENT]) as ->.
    { rewrite strip_bom_snoc. by rewrite HstripP. }
    rewrite replace_trailing_from_scalars
      by (apply Forall_app; split;
          [assumption | repeat constructor; apply REPLACEMENT_scalar]).
    assert (replace_trailing_FFFD (P ++ [REPLACEMENT]) = P) as ->.
    { unfold replace_trailing_FFFD. rewrite last_snoc, removelast_last.
      reflexivity. }
    rewrite to_from_scalars by assumption. intros _.
    exists c, Q'. split; [exact HPQ|].
    rewrite length_app in HlenN. lia.
Qed.

End TruncationFacts.

Module PostPluginFacts.
Import PostPlugin.

(** ** The sort *)

Lemma insertByDepth_elem (x y : PostHierarchy) (l : list PostHierarchy) :
  y ∈ insertByDepth x l <-> y = x \/ y ∈ l.
Proof.
  induction l as [|z l IH]; cbn [insertByDepth].
  - rewrite list_elem_of_singleton, elem_of_nil. tauto.
  - destruct (depth x <=? depth z)%Z.
    + by rewrite elem_of_cons.
    + rewrite !elem_of_cons, IH. tauto.
Qed.

Lemma sortByDepth_elem (y : PostHierarchy) (l : list PostHierarchy) :
  y ∈ sortByDepth l <-> y ∈ l.
Proof.
  induction l as [|x l IH]; [reflexivity|].
  cbn [sortByDepth fold_right]. fold (sortByDepth l).
  rewrite insertByDepth_elem, IH, elem_of_cons. tauto.
Qed.

Lemma insertByDepth_sorted (x : PostHierarchy) (l : list PostHierarchy) :
  ForallOrdPairs (fun a b => (depth a <= depth b)%Z) l ->
  ForallOrdPairs (fun a b => (depth a <= depth b)%Z) (insertByDepth x l).
Proof.
  induction 1 as [|z l Hz Hl IH]; cbn [insertByDepth].
  - repeat constructor.
  - destruct (Z.leb_spec (depth x) (depth z)) as [Hle | Hgt].
    + constructor; [|by constructor].
      constructor; [assumption|].
      eapply Forall_impl; [exact Hz|]. intros b Hb. cbn in Hb. lia.
    + constructor; [|assumption].
      apply Forall_forall. intros b Hb.
      apply insertByDepth_elem in Hb as [-> | Hb]; [lia|].
      by apply (proj1 (Forall_forall _ _) Hz).
Qed.

Lemma sortByDepth_sorted (l : list PostHierarchy) :
  ForallOrdPairs (fun a b => (depth a <= depth b)%Z) (sortByDepth l).
Proof.
  induction l as [|x l IH]; [constructor|].
  cbn [sortByDepth fold_right]. by apply insertByDepth_sorted.
Qed.

(** ** The tables after [deleteFn] *)

Lemma deleteFn_parts (db : Tables) (uri_ : string) :
  exists externals records deletedEmbed,
    deleteFn db uri_ =
      ({| tbl_post :=
            List.filter (fun p => negb (String.eqb (uri p) uri_)) (tbl_post db);
          tbl_post_embed_image :=
            List.filter (fun i => negb (String.eqb (pei_postUri i) uri_))
              (tbl_post_embed_image db);
          tbl_post_embed_external := externals;
          tbl_post_embed_record := records;
          tbl_post_hierarchy := tbl_post_hierarchy db |},
       match List.find (fun p => String.eqb (uri p) uri_) (tbl_post db) with
       | Some deleted =>
           Some {| post := deleted; facets := []; embed := deletedEmbed;
                   ancestors :=
                     List.filter
                       (fun h => String.eqb (ph_uri h) uri_ && (0 <? depth h)%Z)
                       (tbl_post_hierarchy db) |}
       | None => None
       end) /\
    (externals = tbl_post_embed_external db \/
     externals = List.filter (fun e => negb (String.eqb (pee_postUri e) uri_))
                   (tbl_post_embed_external db)) /\
    (records = tbl_post_embed_record db \/
     records = List.filter (fun r => negb (String.eqb (per_postUri r) uri_))
                 (tbl_post_embed_record db)).
Proof.
  unfold deleteFn.
  destruct (List.filter (fun i => String.eqb (pei_postUri i) uri_)
              (tbl_post_embed_image db)) as [|i0 imgs].
  - destruct (List.find (fun e => String.eqb (pee_postUri e) uri_)
                (tbl_post_embed_external db)) as [e|]; cbn [fmap option_fmap option_map];
      do 3 eexists; (split; [reflexivity|]); auto.
  - do 3 eexists. split; [reflexivity|]. auto.
Qed.

Section Facts.
Variable host : string -> string.
Variable toString : string -> string.

(** Facets that are notified: mentions of another account. *)
Lemma mention_fold_filter (obj : IndexedPost) (facet : Facet) :
  match facet_type facet with
  | Mention => negb (String.eqb (facet_value facet) (creator (post obj)))
  | Link => false
  end = true ->
  facet_type facet = Mention /\ facet_value facet <> creator (post obj).
Proof.
  destruct (facet_type facet); [|discriminate].
  intros H. split; [reflexivity|]. by apply negb_true_iff, String.eqb_neq in H.
Qed.

(** ** The first loop *)

Lemma mention_fold (obj : IndexedPost) (l : list Facet) (notifs : list Message) :
  fold_left (mentionStep obj) l notifs =
    notifs ++
    map (mentionNotification obj)
      (List.filter (fun facet =>
         match facet_type facet with
         | Mention => negb (String.eqb (facet_value facet) (creator (post obj)))
         | Link => false
         end) l).
Proof.
  revert notifs. induction l as [|facet l IH]; intros notifs;
    cbn [fold_left List.filter].
  - by rewrite app_nil_r.
  - rewrite IH. unfold mentionStep.
    destruct (facet_type facet); [|reflexivity].
    destruct (negb _); [|reflexivity]. cbn [map]. by rewrite <- app_assoc.
Qed.

(** ** The second loop *)

(** What the second loop adds: the replies to some of the relations, one
    for every host that was not notified before, each to the first
    relation of its host. *)
Lemma reply_fold (obj : IndexedPost) (l : list PostHierarchy) :
  forall (notifs : list Message) (notified : list string),
  exists chosen : list PostHierarchy,
    (fold_left (replyStep host toString obj) l (notifs, notified)).1
      = notifs ++ map (fun relation =>
             replyNotification host toString obj (ancestorUri relation))
          chosen /\
    chosen `sublist_of` l /\
    NoDup (map (fun relation => host (ancestorUri relation)) chosen) /\
    (forall relation, relation ∈ chosen ->
       host (ancestorUri relation) ∉ notified) /\
    (forall relation, relation ∈ l ->
       host (ancestorUri relation) ∈ notified \/
       exists first, first ∈ chosen /\
         host (ancestorUri first) = host (ancestorUri relation)) /\
    (ForallOrdPairs (fun a b => (depth a <= depth b)%Z) l ->
     forall relation other, relation ∈ chosen -> other ∈ l ->
       host (ancestorUri other) = host (ancestorUri relation) ->
       (depth relation <= depth other)%Z).
Proof.
  induction l as [|x l IH]; intros notifs notified.
  { exists []. cbn. rewrite app_nil_r.
    split; [reflexivity|]. split; [constructor|]. split; [constructor|].
    split; [intros ? []%elem_of_nil|]. split; [intros ? []%elem_of_nil|].
    intros _ ? ? []%elem_of_nil. }
  cbn [fold_left replyStep].
  case_bool_decide as Hx; cbn [negb].
  - destruct (IH notifs notified) as (chosen & Hev & Hsub & Hnd & Hnew & Hall & Hnear).
    exists chosen. split; [exact Hev|]. split; [by constructor|].
    split; [exact Hnd|]. split; [exact Hnew|]. split.
    + intros r [-> | Hr]%elem_of_cons; [by left | by apply Hall].
    + intros Hsorted r o Hr [-> | Ho]%elem_of_cons Hhost.
      * exfalso. apply (Hnew r Hr). by rewrite <- Hhost.
      * inversion Hsorted; subst. by apply Hnear.
  - destruct (IH (notifs ++ [replyNotification host toString obj (ancestorUri x)])
                (notified ++ [host (ancestorUri x)]))
      as (chosen & Hev & Hsub & Hnd & Hnew & Hall & Hnear).
    exists (x :: chosen). split; [|split; [|split; [|split; [|split]]]].
    + rewrite Hev. cbn [map]. by rewrite <- app_assoc.
    + by constructor.
    + cbn [map]. apply NoDup_cons. split; [|exact Hnd].
      intros Hin. apply list_elem_of_fmap in Hin as (r & Hr & Hin).
      apply (Hnew r Hin). rewrite <- Hr. apply elem_of_app. right. by left.
    + intros r [-> | Hr]%elem_of_cons; [assumption|].
      intros Hin. apply (Hnew r Hr). apply elem_of_app. by left.
    + intros r [-> | Hr]%elem_of_cons.
      * right. exists x. split; [by left | reflexivity].
      * destruct (Hall r Hr) as [Hin | (f & Hf & Hhost)].
        -- apply elem_of_app in Hin as [Hin | Hin]; [by left|].
           apply list_elem_of_singleton in Hin. right. exists x.
           split; [by left | by symmetry].
        -- right. exists f. split; [by right | assumption].
    + intros Hsorted r o Hr Ho Hhost. inversion Hsorted as [|? ? Hhead Htail]; subst.
      apply elem_of_cons in Hr as [-> | Hr].
      * apply elem_of_cons in Ho as [-> | Ho]; [lia|].
        by apply (proj1 (Forall_forall _ _) Hhead).
      * apply elem_of_cons in Ho as [-> | Ho]; [|by apply Hnear].
        exfalso. apply (Hnew r Hr). rewrite <- Hhost.
        apply elem_of_app. right. by left.
Qed.

Lemma eventsForInsert_parts (obj : IndexedPost) :
  exists chosen : list PostHierarchy,
    eventsForInsert host toString obj =
      map (mentionNotification obj)
        (List.filter (fun facet =>
           match facet_type facet with
           | Mention => negb (String.eqb (facet_value facet) (creator (post obj)))
           | Link => false
           end) (facets obj))
      ++ map (fun relation =>
             replyNotification host toString obj (ancestorUri relation))
          chosen /\
    NoDup (map (fun relation => host (ancestorUri relation)) chosen) /\
    (forall relation, relation ∈ chosen ->
       relation ∈ ancestors obj /\
       host (ancestorUri relation) <> creator (post obj)) /\
    (forall relation, relation ∈ ancestors obj ->
       host (ancestorUri relation) = creator (post obj) \/
       exists first, first ∈ chosen /\
         host (ancestorUri first) = host (ancestorUri relation)) /\
    (forall relation other, relation ∈ chosen -> other ∈ ancestors obj ->
       host (ancestorUri other) = host (ancestorUri relation) ->
       (depth relation <= depth other)%Z).
Proof.
  unfold eventsForInsert. cbv zeta.
  destruct (reply_fold obj (sortByDepth (ancestors obj))
              (fold_left (mentionStep obj) (facets obj) [])
              [creator (post obj)])
    as (chosen & Hev & Hsub & Hnd & Hnew & Hall & Hnear).
  exists chosen. rewrite Hev, mention_fold. cbn [app].
  split; [reflexivity|]. split; [exact Hnd|]. split; [|split].
  - intros r Hr. split.
    + apply sortByDepth_elem. by apply (elem_of_sublist _ _ _ Hr Hsub).
    + intros E. apply (Hnew r Hr). rewrite E. by left.
  - intros r Hr. apply sortByDepth_elem in Hr.
    destruct (Hall r Hr) as [Hin | H]; [|by right].
    left. by apply list_elem_of_singleton in Hin.
  - intros r o Hr Ho. apply Hnear; [apply sortByDepth_sorted | assumption|].
    by apply sortByDepth_elem.
Qed.

(** X25. [eventsForInsert] only creates notifications, all of them about the
    indexed post and authored by its creator, and never one for the
    creator: a mention of oneself and a reply to one's own post notify
    nobody. *)
Theorem eventsForInsert_never_self (obj : IndexedPost) (m : Message) :
  m ∈ eventsForInsert host toString obj ->
  exists userDid reason reasonSubject,
    m = CreateNotification userDid (creator (post obj)) (uri (post obj))
          (cid (post obj)) reason reasonSubject /\
    userDid <> creator (post obj).
Proof.
  destruct (eventsForInsert_parts obj) as (chosen & -> & _ & Hchosen & _).
  intros [Hm | Hm]%elem_of_app.
  - apply list_elem_of_fmap in Hm as (facet & -> & Hf).
    apply list_elem_of_In, filter_In in Hf as [_ Hf].
    do 3 eexists. split; [reflexivity|].
    destruct (facet_type facet); [|discriminate].
    apply negb_true_iff, String.eqb_neq in Hf. exact Hf.
  - apply list_elem_of_fmap in Hm as (r & -> & Hr).
    do 3 eexists. split; [reflexivity|]. by apply Hchosen.
Qed.

(** X26. The reply notifications of [eventsForInsert]: each goes to the host
    of an ancestor of the post and names, as its subject, an ancestor of
    that host that no other ancestor of the same host is nearer than; no
    two go to the same account; and the host of every ancestor other than
    the creator receives one. *)
Theorem eventsForInsert_replies (obj : IndexedPost) :
  let events := eventsForInsert host toString obj in
  let replies :=
    List.filter (fun m => match m with
                          | CreateNotification _ _ _ _ ReasonReply _ => true
                          | _ => false
                          end) events in
  NoDup (map (fun m => match m with
                       | CreateNotification userDid _ _ _ _ _ => userDid
                       | DeleteNotifications _ => ""%string
                       end) replies) /\
  (forall userDid author recordUri recordCid reasonSubject,
     CreateNotification userDid author recordUri recordCid ReasonReply
       reasonSubject ∈ events ->
     exists relation,
       relation ∈ ancestors obj /\
       userDid = host (ancestorUri relation) /\
       reasonSubject = Some (toString (ancestorUri relation)) /\
       forall other, other ∈ ancestors obj ->
         host (ancestorUri other) = userDid ->
         (depth relation <= depth other)%Z) /\
  (forall relation, relation ∈ ancestors obj ->
     host (ancestorUri relation) <> creator (post obj) ->
     exists reasonSubject,
       CreateNotification (host (ancestorUri relation)) (creator (post obj))
         (uri (post obj)) (cid (post obj)) ReasonReply reasonSubject
       ∈ events).
Proof.
  cbv zeta.
  destruct (eventsForInsert_parts obj)
    as (chosen & -> & Hnd & Hchosen & Hall & Hnear).
  split; [|split].
  - rewrite List.filter_app.
    match goal with
    | |- context [List.filter ?f (map ?g (List.filter ?p (facets obj)))] =>
        assert (List.filter f (map g (List.filter p (facets obj))) = []) as ->
    end.
    { induction (List.filter _ (facets obj)) as [|a l IH]; [reflexivity|].
      cbn. exact IH. }
    cbn [app].
    match goal with
    | |- context [List.filter ?f (map ?g chosen)] =>
        assert (List.filter f (map g chosen) = map g chosen) as ->
    end.
    { clear Hnd Hchosen Hall Hnear.
      induction chosen as [|a l IH]; [reflexivity|]. cbn. by rewrite IH. }
    by rewrite map_map.
  - intros userDid author recordUri recordCid reasonSubject
      [Hm | Hm]%elem_of_app.
    + apply list_elem_of_fmap in Hm as (facet & [=] & _).
    + apply list_elem_of_fmap in Hm as (r & [= -> -> -> -> ->] & Hr).
      exists r. split; [by apply Hchosen|]. split; [reflexivity|].
      split; [reflexivity|]. intros o Ho Hhost. by apply Hnear.
  - intros r Hr Hne. destruct (Hall r Hr) as [E | (f & Hf & Hhost)]; [done|].
    exists (Some (toString (ancestorUri f))). apply elem_of_app. right.
    apply list_elem_of_fmap. exists f. split; [|assumption].
    unfold replyNotification. by rewrite Hhost.
Qed.

(** X27. The mention notifications of [eventsForInsert] come first, one for
    every mention facet that names another account than the creator, in
    the order of the facets and as often as the account is mentioned; a
    link facet notifies nobody. *)
Theorem eventsForInsert_mentions (obj : IndexedPost) :
  let events := eventsForInsert host toString obj in
  let mentioned :=
    List.filter (fun facet =>
      match facet_type facet with
      | Mention => negb (String.eqb (facet_value facet) (creator (post obj)))
      | Link => false
      end) (facets obj) in
  List.filter (fun m => match m with
                        | CreateNotification _ _ _ _ ReasonMention _ => true
                        | _ => false
                        end) events
    = map (mentionNotification obj) mentioned /\
  firstn (length mentioned) events
    = map (mentionNotification obj) mentioned.
Proof.
  cbv zeta. destruct (eventsForInsert_parts obj) as (chosen & -> & _).
  split.
  - rewrite List.filter_app.
    match goal with
    | |- context [List.filter ?f (map ?g chosen)] =>
        assert (List.filter f (map g chosen) = []) as ->
    end.
    { induction chosen as [|a l IH]; [reflexivity|]. exact IH. }
    rewrite app_nil_r.
    induction (List.filter _ (facets obj)) as [|a l IH]; [reflexivity|].
    cbn. by rewrite IH.
  - rewrite firstn_app, length_map, Nat.sub_diag, firstn_O, app_nil_r.
    apply firstn_all2. by rewrite length_map.
Qed.

(** ** [eventsForDelete] and [deleteFn] *)


(** X29. Deleting an indexed post and announcing it: the only message
    [eventsForDelete] sends for the post [deleteFn] returned, when nothing
    replaces it, deletes the notifications of the uri that was asked for;
    and a second [deleteFn] of that uri finds no post and returns
    [null]. *)
Theorem deleteFn_then_events (db : Tables) (uri_ : string)
    (deleted : IndexedPost) :
  (deleteFn db uri_).2 = Some deleted ->
  eventsForDelete host toString deleted None = [DeleteNotifications uri_] /\
  (deleteFn (deleteFn db uri_).1 uri_).2 = None.
Proof.
  destruct (deleteFn_parts db uri_)
    as (externals & records & deletedEmbed & E & _ & _).
  rewrite E. cbn [fst snd]. intros Hdel. split.
  - unfold eventsForDelete.
    destruct (List.find _ (tbl_post db)) as [d|] eqn:Hd; [|discriminate].
    injection Hdel as <-. cbn [post].
    apply find_some in Hd as [_ Hu]. apply String.eqb_eq in Hu. by rewrite Hu.
  - match goal with
    | |- (deleteFn ?t _).2 = None =>
        destruct (deleteFn_parts t uri_) as (? & ? & ? & E' & _ & _)
    end.
    rewrite E'. cbn [fst snd tbl_post].
    destruct (List.find _ (List.filter _ (tbl_post db))) as [d|] eqn:Hd;
      [|reflexivity].
    apply find_some in Hd as [Hin Hu]. apply filter_In in Hin as [_ Hn].
    rewrite Hu in Hn. discriminate.
Qed.

End Facts.

(** X30. [deleteFn] removes the rows of the post and of its images and leaves
    every row of another post in the four tables, and the whole thread
    hierarchy, as they were. It returns [null] exactly when the post was
    not indexed; the post it returns is a row of the post table with the
    uri asked for, with no facets and with the strict ancestors of that
    uri. *)
Theorem deleteFn_effects (db : Tables) (uri_ : string) :
  let db' := (deleteFn db uri_).1 in
  (forall p, In p (tbl_post db') <-> In p (tbl_post db) /\ uri p <> uri_) /\
  (forall i, In i (tbl_post_embed_image db') <->
     In i (tbl_post_embed_image db) /\ pei_postUri i <> uri_) /\
  (forall e, In e (tbl_post_embed_external db) -> pee_postUri e <> uri_ ->
     In e (tbl_post_embed_external db')) /\
  (forall r, In r (tbl_post_embed_record db) -> per_postUri r <> uri_ ->
     In r (tbl_post_embed_record db')) /\
  tbl_post_hierarchy db' = tbl_post_hierarchy db /\
  ((deleteFn db uri_).2 = None <->
     forall p, In p (tbl_post db) -> uri p <> uri_) /\
  (forall deleted, (deleteFn db uri_).2 = Some deleted ->
     In (post deleted) (tbl_post db) /\ uri (post deleted) = uri_ /\
     facets deleted = [] /\
     forall h, In h (ancestors deleted) <->
       In h (tbl_post_hierarchy db) /\ ph_uri h = uri_ /\ (0 < depth h)%Z).
Proof.
  cbv zeta.
  destruct (deleteFn_parts db uri_)
    as (externals & records & deletedEmbed & -> & Hext & Hrec).
  cbn [fst snd tbl_post tbl_post_embed_image tbl_post_embed_external
       tbl_post_embed_record tbl_post_hierarchy].
  split; [|split; [|split; [|split; [|split; [|split]]]]].
  - intros p. rewrite filter_In, negb_true_iff, String.eqb_neq. tauto.
  - intros i. rewrite filter_In, negb_true_iff, String.eqb_neq. tauto.
  - intros e He Hne. destruct Hext as [-> | ->]; [assumption|].
    apply filter_In. split; [assumption|].
    by apply negb_true_iff, String.eqb_neq.
  - intros r Hr Hne. destruct Hrec as [-> | ->]; [assumption|].
    apply filter_In. split; [assumption|].
    by apply negb_true_iff, String.eqb_neq.
  - reflexivity.
  - destruct (List.find _ (tbl_post db)) as [d|] eqn:Hd.
    + split; [discriminate|]. intros Hall. apply find_some in Hd as [Hin Hu].
      apply String.eqb_eq in Hu. by destruct (Hall d Hin).
    + split; [|reflexivity]. intros _ p Hp.
      apply (find_none _ _ Hd) in Hp. by apply String.eqb_neq in Hp.
  - intros deleted. destruct (List.find _ (tbl_post db)) as [d|] eqn:Hd;
      [|discriminate].
    intros [= <-]. cbn [post facets ancestors].
    apply find_some in Hd as [Hin Hu]. apply String.eqb_eq in Hu.
    split; [assumption|]. split; [assumption|]. split; [reflexivity|].
    intros h. rewrite filter_In, andb_true_iff, String.eqb_eq, Z.ltb_lt. tauto.
Qed.

End PostPluginFacts.

Module Scenarios.
Import Demo GeneratorDemo.
Local Open Scope string_scope.

(** ** The feed handler *)

Section GetFeedScenarios.
Import GetFeed.



(** X3, witness: the demo feed: the upstream [reqId] reaches the client. *)
Lemma response_body_keys_witness :
  data_rest demo_response !! "reqId" = Some (JStr "r-42") /\
  exists sk,
    skeleton demo_params demo_headers1 12 0 = inr sk /\
    let h := (hydration sk 30).1 in
    let out := presentation demo_params (noBlocksOrMutes (hydration sk 30).2 h) h in
    (exists feed, out_body out !! "feed" = Some (BFeed feed)) /\
    out_body out !! "cursor" = BJson <$> data_rest demo_response !! "cursor" /\
    out_body out !! "feedItems" = None /\
    out_body out !! "resHeaders" = None /\
    (forall k,
       k <> "feed" -> k <> "cursor" -> k <> "feedItems" -> k <> "resHeaders" ->
       out_body out !! k = BJson <$> data_rest demo_response !! k).
Proof.
  split; [reflexivity|].
  apply (HandlerFacts.response_body_keys demo_params demo_headers1 12 0 30
           "https://gen.example/did:web:gen.example" demo_response);
    reflexivity.
Defined.

(** X4, witness: the demo feed: the repost by bob, whom the viewer mutes,
    does not reach the response. *)
Lemma response_feed_allowed_witness :
  getFeedSkeleton
    (outboundCall "https://gen.example/did:web:gen.example" demo_params
       demo_headers1) = inr demo_response /\
  exists sk feed,
    skeleton demo_params demo_headers1 12 0 = inr sk /\
    let h := hydrateFeedItems (items sk) in
    let out := presentation demo_params (noBlocksOrMutes (hydration sk 30).2 h) h in
    out_body out !! "feed" = Some (BFeed feed) /\
    length feed <= limit demo_params /\
    (forall post context,
       (post, context) ∈ feed ->
       exists item,
         item ∈ items sk /\
         allowed (feedItemBlocksAndMutes item h) = true /\
         feedViewPost item h = Some post /\
         feedContext item = context) /\
    feed `sublist_of`
      omap (fun item =>
              match feedViewPost item h with
              | None => None
              | Some post => Some (post, feedContext item)
              end) (items sk).
Proof.
  split; [reflexivity|].
  apply (HandlerFacts.response_feed_allowed demo_params demo_headers1 12 0 30
           "https://gen.example/did:web:gen.example" demo_response);
    reflexivity.
Defined.

(** X5, witness: the demo feed: the generator answers in English. *)
Lemma response_headers_witness :
  res_headers demo_response !! "content-language" = Some "en" /\
  exists sk,
    skeleton demo_params demo_headers1 12 0 = inr sk /\
    let h := (hydration sk 30).1 in
    let out := presentation demo_params (noBlocksOrMutes (hydration sk 30).2 h) h in
    out_headers out !! "server-timing" =
      Some (serverTimingHeader
              [ {| timer_name := "skele"; timer_ms := 12 |};
                {| timer_name := "hydr"; timer_ms := 30 |} ]) /\
    out_headers out !! "content-language" =
      match res_headers demo_response !! "content-language" with
      | None | Some "" => None
      | Some lang => Some lang
      end /\
    (forall k, k <> "server-timing" -> k <> "content-language" ->
       out_headers out !! k = None).
Proof.
  split; [reflexivity|].
  apply (HandlerFacts.response_headers demo_params demo_headers1 12 0 30
           "https://gen.example/did:web:gen.example" demo_response);
    reflexivity.
Defined.

End GetFeedScenarios.

(** ** The loaders *)

Section LoaderScenarios.
Import FeedService.

(** X8, witness: bob's post is indexed and not taken down. *)
Lemma getPostInfos_complete_witness :
  exists info,
    (getPostInfos demo_db [bob1; dave1] alice).1 !! bob1 = Some info /\
    pi_uri info = bob1.
Proof.
  apply (LoaderFacts.getPostInfos_complete demo_db [bob1; dave1] alice
    {| post_uri := post_of bob "1"; post_cid := "cid-bob-1";
       post_creator := bob; post_indexedAt := "2023-07-01T00:00:00Z";
       post_replyParent := None; post_replyRoot := None |}
    {| ipld_cid := "cid-bob-1"; ipld_creator := bob; ipld_content := [] |}
    {| rr_did := bob; rr_takedownId := None |}
    {| record_uri := post_of bob "1"; record_takedownId := None |});
    first [ reflexivity | cbn; tauto | apply list_elem_of_In; cbn; tauto ].
Defined.


(** X10, witness: dave's repository is taken down: he is returned only when
    [includeSoftDeleted] is set. *)
Lemma getActorInfos_complete_witness :
  (getActorInfos demo_db [dave] alice None).1 !! dave = None /\
  exists info,
    (getActorInfos demo_db [dave] alice
       (Some {| skipLabels := None; includeSoftDeleted := Some true |})).1
      !! dave = Some info /\
    ai_did info = dave.
Proof.
  split; [vm_compute; reflexivity|].
  apply (LoaderFacts.getActorInfos_complete demo_db [dave] alice
    (Some {| skipLabels := None; includeSoftDeleted := Some true |})
    {| dh_did := dave; dh_handle := "dave.test" |}
    {| rr_did := dave; rr_takedownId := Some 7%Z |});
    first [ reflexivity | cbn; tauto | apply list_elem_of_In; cbn; tauto
          | left; reflexivity ].
Defined.


(** X12, witness: bob's display name has three bytes. *)
Lemma getActorInfos_displayName_witness :
  exists info,
    (getActorInfos demo_db [bob] alice None).1 !! bob = Some info /\
    (forall shown, ai_displayName info = Some shown ->
       shown <> [] /\ length (Utf8.TextEncoder_encode shown) <= 64) /\
    (forall url, ai_avatar info = Some url ->
       exists p cid, In p (profile demo_db) /\ profile_creator p = bob /\
         profile_avatarCid p = Some cid /\ cid <> "" /\
         url = getCommonSignedUri "avatar" cid).
Proof.
  eexists. split; [vm_compute; reflexivity|].
  apply (LoaderFacts.getActorInfos_displayName demo_db [bob] alice None bob).
  - intros p name [<- | []] [= <-]. reflexivity.
  - vm_compute. reflexivity.
Defined.

(** X13, witness: two dids, labels not skipped. *)
Lemma getActorInfos_labels_witness :
  (getActorInfos demo_db [bob; carol] alice None).2 =
    [ SelectActors [bob; carol] alice false;
      GetLabelsForSubjects [bob; carol];
      GetListMutes [bob; carol] alice ] /\
  (forall did info,
     (getActorInfos demo_db [bob; carol] alice None).1 !! did = Some info ->
     ai_labels info = Some (default [] (labelsForSubjects [bob; carol] !! did))).
Proof.
  apply (LoaderFacts.getActorInfos_labels demo_db [bob; carol] alice None).
  discriminate.
Defined.

(** X14, witness: the generator of bob: two likes, one of them alice's. *)
Lemma getFeedGeneratorInfos_entries_witness :
  exists info,
    (getFeedGeneratorInfos demo_db_gen [hot_feed] alice).1 !! hot_feed
      = Some info /\
    fg_uri (fgi_generator info) = hot_feed /\
    fgi_likeCount info = 2%Z /\
    fgi_viewerLike info = Some "at://did:example:alice/app.bsky.feed.like/1".
Proof.
  assert (exists info,
    (getFeedGeneratorInfos demo_db_gen [hot_feed] alice).1 !! hot_feed
      = Some info /\
    fgi_viewerLike info = Some "at://did:example:alice/app.bsky.feed.like/1")
    as (info & Hinfo & Hlike) by (eexists; split; vm_compute; reflexivity).
  destruct (LoaderFacts.getFeedGeneratorInfos_entries demo_db_gen [hot_feed]
              alice) as [Hentry _].
  destruct (Hentry hot_feed info Hinfo) as (Huri & Hcount & _).
  exists info. split; [exact Hinfo|]. split; [exact Huri|].
  split; [|exact Hlike]. rewrite Hcount. reflexivity.
Defined.

(** X16, witness: a post that quotes the generator of bob gets its generator
    view. *)
Lemma nestedRecordViews_entries_witness :
  (nestedRecordViews demo_db_gen [quote_of hot_feed "cid-hot"] alice).1
    !! hot_feed = Some (GeneratorViewRecord hot_feed).
Proof.
  apply (proj1 (HydrationFacts.nestedRecordViews_entries demo_db_gen
                  [quote_of hot_feed "cid-hot"] alice hot_feed)).
  split; [apply list_elem_of_In; vm_compute; tauto|].
  split; [reflexivity|].
  eexists. split; vm_compute; reflexivity.
Defined.

End LoaderScenarios.

(** ** Truncation *)

Section TruncationScenarios.
Import Utf8.
Local Open Scope Z_scope.

(** X22, witness: [hello], cut to three bytes. *)
Lemma truncateUtf8_ascii_witness :
  truncateUtf8 (Some [0x68; 0x65; 0x6C; 0x6C; 0x6F]) 3 = Some [0x68; 0x65; 0x6C].
Proof.
  apply (TruncationFacts.truncateUtf8_ascii [0x68; 0x65; 0x6C; 0x6C; 0x6F] 3).
  repeat constructor; lia.
Defined.

(** X23, witness: the name of 67 bytes, cut to 64 and cut again. *)
Lemma truncateUtf8_idempotent_witness :
  truncateUtf8 (Some name67) 64 = Some (repeat 0x61%Z 62) /\
  truncateUtf8 (Some (repeat 0x61%Z 62)) 64 = Some (repeat 0x61%Z 62).
Proof.
  split; [vm_compute; reflexivity|].
  apply (TruncationFacts.truncateUtf8_idempotent name67 (repeat 0x61%Z 62) 64).
  - reflexivity.
  - vm_compute. reflexivity.
Defined.

(** X24, witness: the name of 67 bytes: the emoji after the 62 letters needs
    four bytes where two are left. *)
Lemma truncateUtf8_maximal_witness :
  exists c rest,
    to_scalars name67 = (to_scalars (repeat 0x61%Z 62) ++ c :: rest)%list /\
    (64 < length (TextEncoder_encode (repeat 0x61%Z 62)) + length (encode_cp c))%nat /\
    (length (TextEncoder_encode (repeat 0x61%Z 62)) <= 64)%nat.
Proof.
  apply (TruncationFacts.truncateUtf8_maximal name67 (repeat 0x61%Z 62) 64).
  - reflexivity.
  - apply (bool_decide_unpack _). vm_compute. exact I.
  - vm_compute. discriminate.
  - vm_compute. lia.
  - vm_compute. reflexivity.
Defined.

End TruncationScenarios.

(** ** The post indexer *)

Section PluginScenarios.
Import PostPlugin PluginDemo.

(** Alice's reply: dave is mentioned, bob is told of the reply to his
    nearest post and carol of the reply to hers; alice herself, mentioned
    and an ancestor, is told nothing. *)
Example demo_eventsForInsert :
  eventsForInsert AtUri.hostname id demo_indexed =
    [ CreateNotification dave alice (post_of alice "r") "cid-alice-r"
        ReasonMention None;
      CreateNotification bob alice (post_of alice "r") "cid-alice-r"
        ReasonReply (Some (post_of bob "2"));
      CreateNotification carol alice (post_of alice "r") "cid-alice-r"
        ReasonReply (Some (post_of carol "1")) ].
Proof. vm_compute. reflexivity. Qed.

(** X25, witness: the reply notification for bob, among the events of
    alice's reply. *)
Lemma eventsForInsert_never_self_witness :
  exists userDid reason reasonSubject,
    CreateNotification bob alice (post_of alice "r") "cid-alice-r"
      ReasonReply (Some (post_of bob "2"))
    = CreateNotification userDid (creator (post demo_indexed))
        (uri (post demo_indexed)) (cid (post demo_indexed)) reason
        reasonSubject /\
    userDid <> creator (post demo_indexed).
Proof.
  apply (PostPluginFacts.eventsForInsert_never_self AtUri.hostname id
           demo_indexed).
  apply list_elem_of_In. vm_compute. tauto.
Defined.

(** X29, witness: alice's reply is deleted and nothing replaces it. *)
Lemma deleteFn_then_events_witness :
  exists deleted,
    (deleteFn demo_tables (post_of alice "r")).2 = Some deleted /\
    eventsForDelete AtUri.hostname id deleted None
      = [DeleteNotifications (post_of alice "r")] /\
    (deleteFn (deleteFn demo_tables (post_of alice "r")).1
       (post_of alice "r")).2 = None.
Proof.
  eexists. split; [vm_compute; reflexivity|].
  apply (PostPluginFacts.deleteFn_then_events AtUri.hostname id demo_tables
           (post_of alice "r")).
  vm_compute. reflexivity.
Defined.

End PluginScenarios.

End Scenarios.
